(** * Sample-report builder and PSI lab-data extractor

    A shallow embedding of [build/build-sample-reports.js] and of the
    screenshot helper of the PSI client, over a small model of the
    JavaScript object heap.

    Objects live in a store and are handled through references, so that
    in-place updates, aliasing and deep copies are visible in the model.
    Programs are written in a state-and-exception monad: a thrown value
    aborts the rest of the computation but keeps the store as it was when
    the exception was raised. *)

From Stdlib Require Import PrimFloat.
From stdpp Require Import base list strings.

Open Scope string_scope.
Open Scope list_scope.

(** ** Exceptions and the program monad *)

Inductive exn :=
  | TypeError (msg : string)
  | SyntaxError (msg : string)
  | Error (msg : string).

Inductive outcome (A : Type) :=
  | Ok (a : A)
  | Throw (e : exn).
Arguments Ok {A} a.
Arguments Throw {A} e.

Definition M (S A : Type) : Type := S -> outcome A * S.

Definition ret {S A} (a : A) : M S A := fun s => (Ok a, s).

Definition throw {S A} (e : exn) : M S A := fun s => (Throw e, s).

Definition bind {S A B} (m : M S A) (k : A -> M S B) : M S B :=
  fun s =>
    match m s with
    | (Ok a, s') => k a s'
    | (Throw e, s') => (Throw e, s')
    end.

Notation "'let*' x ':=' m 'in' k" := (bind m (fun x => k))
  (at level 10, x name, m at level 100, k at level 200).
Notation "m '>>' k" := (bind m (fun _ => k))
  (at level 90, right associativity).

(** ** Values, objects and the store *)

Abbreviation loc := nat.

(** A JavaScript value; numbers are IEEE doubles. *)
Inductive val :=
  | VUndef
  | VNull
  | VBool (b : bool)
  | VNum (x : float)
  | VStr (s : string)
  | VRef (l : loc).

(** A stored object.  Own properties are kept in insertion order.  An array
    has its elements in [o_elems]; a plain object has [None] there.  The
    [length] and index properties of arrays are reached through the array
    operations below, never by name. *)
Record obj := mkObj {
  o_elems : option (list val);
  o_props : list (string * val)
}.

Abbreviation heap := (list obj).

Definition plain (ps : list (string * val)) : obj := mkObj None ps.
Definition array (es : list val) : obj := mkObj (Some es) [].

(** Own-property tables. *)
Fixpoint prop_get {A} (k : string) (ps : list (string * A)) : option A :=
  match ps with
  | [] => None
  | (k', v) :: ps' => if String.eqb k k' then Some v else prop_get k ps'
  end.

Fixpoint prop_set {A} (k : string) (v : A) (ps : list (string * A))
  : list (string * A) :=
  match ps with
  | [] => [(k, v)]
  | (k', v') :: ps' =>
      if String.eqb k k' then (k', v) :: ps' else (k', v') :: prop_set k v ps'
  end.

Fixpoint prop_del {A} (k : string) (ps : list (string * A))
  : list (string * A) :=
  match ps with
  | [] => []
  | (k', v') :: ps' =>
      if String.eqb k k' then prop_del k ps' else (k', v') :: prop_del k ps'
  end.

Definition keys {A} (ps : list (string * A)) : list string := map fst ps.

(** ** Store operations *)

Definition alloc (o : obj) : M heap val :=
  fun h => (Ok (VRef (length h)), h ++ [o]).

Definition new_object (ps : list (string * val)) : M heap val := alloc (plain ps).
Definition new_array (es : list val) : M heap val := alloc (array es).

(** [v.k] and [v[k]]: reading through [undefined] or [null] throws; a
    primitive has none of the properties read by this program. *)
Definition get_prop (v : val) (k : string) : M heap val :=
  fun h =>
    match v with
    | VUndef | VNull =>
        (Throw (TypeError ("Cannot read properties of undefined or null: " +:+ k)), h)
    | VRef l =>
        match h !! l with
        | Some o => (Ok (default VUndef (prop_get k (o_props o))), h)
        | None => (Throw (TypeError "dangling reference"), h)
        end
    | _ => (Ok VUndef, h)
    end.

(** [v.k = x] in strict mode. *)
Definition set_prop (v : val) (k : string) (x : val) : M heap unit :=
  fun h =>
    match v with
    | VRef l =>
        match h !! l with
        | Some o => (Ok tt, <[l := mkObj (o_elems o) (prop_set k x (o_props o))]> h)
        | None => (Throw (TypeError "dangling reference"), h)
        end
    | _ => (Throw (TypeError ("Cannot set property " +:+ k)), h)
    end.

(** [delete v[k]]. *)
Definition delete_prop (v : val) (k : string) : M heap unit :=
  fun h =>
    match v with
    | VUndef | VNull =>
        (Throw (TypeError "Cannot convert undefined or null to object"), h)
    | VRef l =>
        match h !! l with
        | Some o => (Ok tt, <[l := mkObj (o_elems o) (prop_del k (o_props o))]> h)
        | None => (Throw (TypeError "dangling reference"), h)
        end
    | _ => (Ok tt, h)
    end.

(** The elements of an array value; anything else has no array methods. *)
Definition array_elems (v : val) : M heap (list val) :=
  fun h =>
    match v with
    | VUndef | VNull =>
        (Throw (TypeError "Cannot read properties of undefined or null"), h)
    | VRef l =>
        match h !! l with
        | Some o =>
            match o_elems o with
            | Some es => (Ok es, h)
            | None => (Throw (TypeError "not a function"), h)
            end
        | None => (Throw (TypeError "dangling reference"), h)
        end
    | _ => (Throw (TypeError "not a function"), h)
    end.

Fixpoint filterM {S A} (p : A -> M S bool) (l : list A) : M S (list A) :=
  match l with
  | [] => ret []
  | x :: l' =>
      let* b := p x in
      let* r := filterM p l' in
      ret (if b then x :: r else r)
  end.

(** [v.filter(p)]: a new array with the elements that pass, in order. *)
Definition Array_filter (p : val -> M heap bool) (v : val) : M heap val :=
  let* es := array_elems v in
  let* kept := filterM p es in
  new_array kept.

(** [v.endsWith(suffix)]. *)
Definition endsWith (s suffix : string) : bool :=
  let n := String.length s in
  let m := String.length suffix in
  if Nat.leb m n then String.eqb (String.substring (n - m) m s) suffix else false.

Definition String_endsWith (v : val) (suffix : string) : M heap bool :=
  match v with
  | VStr s => ret (endsWith s suffix)
  | VUndef | VNull => throw (TypeError "Cannot read properties of undefined or null")
  | _ => throw (TypeError "endsWith is not a function")
  end.

(** ** JSON *)

(** A value as a tree.  [JUndef] stands for [undefined]; it occurs in
    trees that describe objects in the store and never in the output of
    the serialiser. *)
#[local] Unset Elimination Schemes.
Inductive tree :=
  | JUndef
  | JNull
  | JBool (b : bool)
  | JNum (x : float)
  | JStr (s : string)
  | JArr (es : list tree)
  | JObj (ps : list (string * tree)).
#[local] Set Elimination Schemes.

(** Numbers: [NaN] and the infinities print as [null], and negative zero
    prints as [0]. *)
Definition num_to_json (x : float) : tree :=
  if is_finite x then (if is_zero x then JNum 0%float else JNum x) else JNull.

Fixpoint mapM {S A B} (f : A -> M S B) (l : list A) : M S (list B) :=
  match l with
  | [] => ret []
  | x :: l' =>
      let* y := f x in
      let* r := mapM f l' in
      ret (y :: r)
  end.

(** The serialiser walks the object graph.  [stack] holds the objects being
    serialised; meeting one of them again is a cycle, which throws.  The
    recursion is bounded by [fuel]; [None] means the bound was reached. *)
Section Serialise.
Variable ser : val -> option (outcome (option tree)).

Fixpoint ser_elems (es : list val) : option (outcome (list tree)) :=
  match es with
  | [] => Some (Ok [])
  | v :: es' =>
      match ser v with
      | None => None
      | Some (Throw e) => Some (Throw e)
      | Some (Ok t) =>
          match ser_elems es' with
          | None => None
          | Some (Throw e) => Some (Throw e)
          | Some (Ok ts) => Some (Ok (default JNull t :: ts))
          end
      end
  end.

Fixpoint ser_props (ps : list (string * val))
  : option (outcome (list (string * tree))) :=
  match ps with
  | [] => Some (Ok [])
  | (k, v) :: ps' =>
      match ser v with
      | None => None
      | Some (Throw e) => Some (Throw e)
      | Some (Ok t) =>
          match ser_props ps' with
          | None => None
          | Some (Throw e) => Some (Throw e)
          | Some (Ok ts) =>
              Some (Ok (match t with Some t' => (k, t') :: ts | None => ts end))
          end
      end
  end.
End Serialise.

Fixpoint stringify_fuel (fuel : nat) (h : heap) (stack : list loc) (v : val)
  : option (outcome (option tree)) :=
  match v with
  | VUndef => Some (Ok None)
  | VNull => Some (Ok (Some JNull))
  | VBool b => Some (Ok (Some (JBool b)))
  | VNum x => Some (Ok (Some (num_to_json x)))
  | VStr s => Some (Ok (Some (JStr s)))
  | VRef l =>
      match fuel with
      | 0 => None
      | S n =>
          if bool_decide (l ∈ stack)
          then Some (Throw (TypeError "Converting circular structure to JSON"))
          else
            match h !! l with
            | None => Some (Throw (TypeError "dangling reference"))
            | Some o =>
                match o_elems o with
                | Some es =>
                    match ser_elems (stringify_fuel n h (l :: stack)) es with
                    | None => None
                    | Some (Throw e) => Some (Throw e)
                    | Some (Ok ts) => Some (Ok (Some (JArr ts)))
                    end
                | None =>
                    match ser_props (stringify_fuel n h (l :: stack)) (o_props o) with
                    | None => None
                    | Some (Throw e) => Some (Throw e)
                    | Some (Ok ts) => Some (Ok (Some (JObj ts)))
                    end
                end
            end
      end
  end.

(** [JSON.stringify(v)], as the tree of the text it prints ([None] when it
    returns [undefined]).  A chain of distinct objects is never longer than
    the store, so this much fuel is never used up
    ([stringify_fuel_enough]). *)
Definition JSON_stringify (v : val) : M heap (option tree) :=
  fun h =>
    match stringify_fuel (S (length h)) h [] v with
    | Some (Ok t) => (Ok t, h)
    | Some (Throw e) => (Throw e, h)
    | None => (Throw (Error "out of fuel"), h)
    end.

Section ParseProps.
Variable parse : tree -> M heap val.

Fixpoint parse_props (ps : list (string * tree)) : M heap (list (string * val)) :=
  match ps with
  | [] => ret []
  | (k, t) :: ps' =>
      let* v := parse t in
      let* r := parse_props ps' in
      ret ((k, v) :: r)
  end.
End ParseProps.

(** [JSON.parse] of the text of a tree: fresh objects, children first. *)
Fixpoint JSON_parse (t : tree) : M heap val :=
  match t with
  | JUndef => ret VUndef
  | JNull => ret VNull
  | JBool b => ret (VBool b)
  | JNum x => ret (VNum x)
  | JStr s => ret (VStr s)
  | JArr ts =>
      let* es := mapM JSON_parse ts in
      new_array es
  | JObj ps =>
      let* ps' := parse_props JSON_parse ps in
      new_object ps'
  end.

(** [JSON.parse(JSON.stringify(v))]. *)
Definition JSON_clone (v : val) : M heap val :=
  let* t := JSON_stringify v in
  match t with
  | Some t' => JSON_parse t'
  | None => throw (SyntaxError "undefined is not valid JSON")
  end.

(** ** Strings and paths *)

(** [s.includes(sub)]. *)
Definition includes (s sub : string) : bool :=
  match String.index 0 sub s with
  | Some _ => true
  | None => false
  end.

(** [s.replace(pat, rep)] with a string pattern: the first occurrence only. *)
Definition String_replace (s pat rep : string) : string :=
  match String.index 0 pat s with
  | Some i =>
      String.substring 0 i s +:+ rep +:+
      String.substring (i + String.length pat)
        (String.length s - (i + String.length pat)) s
  | None => s
  end.

(** [path.join(a, b)] for a normalised directory [a] and a relative [b]. *)
Definition path_join (a b : string) : string := a +:+ "/" +:+ b.

(** The part of [s] before its last slash, if it has one. *)
Fixpoint before_last_slash (s : string) : option string :=
  match s with
  | EmptyString => None
  | String c s' =>
      match before_last_slash s' with
      | Some d => Some (String c d)
      | None => if Ascii.eqb c (Ascii.ascii_of_nat 47) then Some EmptyString else None
      end
  end.

(** [path.dirname(s)] for a path that does not end with a slash. *)
Definition path_dirname (s : string) : string :=
  match before_last_slash s with
  | Some EmptyString => "/"
  | Some d => d
  | None => "."
  end.

(** A line break, for the script payload below. *)
Definition newline : string := String (Ascii.ascii_of_nat 10) EmptyString.

(** The double-quote character, for the markup patterns below. *)
Definition dquote : string := String (Ascii.ascii_of_nat 34) EmptyString.

(** ** Truthiness *)

Definition truthy (v : val) : bool :=
  match v with
  | VUndef | VNull => false
  | VBool b => b
  | VNum x => negb (is_zero x || is_nan x)
  | VStr s => negb (String.eqb s "")
  | VRef _ => true
  end.

(** ** The world of the build script: store, file system, console *)

Record fs := mkFs {
  fs_dirs : list string;
  fs_files : list (string * string)
}.

Record world := mkWorld {
  w_heap : heap;
  w_fs : fs;
  w_console : list string
}.

Definition lift {A} (m : M heap A) : M world A :=
  fun w =>
    let (r, h') := m (w_heap w) in
    (r, mkWorld h' (w_fs w) (w_console w)).

(** [fs.mkdirSync(p, {recursive: true})]: no error when [p] exists. *)
Definition mkdirSync (p : string) : M world unit :=
  fun w =>
    let f := w_fs w in
    let dirs := if bool_decide (p ∈ fs_dirs f) then fs_dirs f else fs_dirs f ++ [p] in
    (Ok tt, mkWorld (w_heap w) (mkFs dirs (fs_files f)) (w_console w)).

(** [fs.writeFileSync(p, data)]: create or overwrite. *)
Definition writeFileSync (p data : string) : M world unit :=
  fun w =>
    let f := w_fs w in
    (Ok tt, mkWorld (w_heap w) (mkFs (fs_dirs f) (prop_set p data (fs_files f)))
              (w_console w)).

(** [fs.readFileSync(p, 'utf8')]. *)
Definition readFileSync (p : string) : M world string :=
  fun w =>
    match prop_get p (fs_files (w_fs w)) with
    | Some s => (Ok s, w)
    | None => (Throw (Error ("ENOENT: no such file or directory, open " +:+ p)), w)
    end.

(** [fs.rmdirSync(p, {recursive: true})]: [p] and everything below it. *)
Definition rmdirSync (p : string) : M world unit :=
  fun w =>
    let f := w_fs w in
    let outside (q : string) := negb (String.prefix p q) in
    (Ok tt,
     mkWorld (w_heap w)
       (mkFs (filter (fun q => outside q = true) (fs_dirs f))
             (filter (fun e => outside (fst e) = true) (fs_files f)))
       (w_console w)).

Definition console_log (line : string) : M world unit :=
  fun w => (Ok tt, mkWorld (w_heap w) (w_fs w) (w_console w ++ [line])).

Fixpoint forEach {S A} (f : A -> M S unit) (l : list A) : M S unit :=
  match l with
  | [] => ret tt
  | x :: l' => f x >> forEach f l'
  end.

(** ** What the script requires from the rest of the repository

    The modules below are not part of the script; they are taken as
    given.  The translator and the renderers work in memory; the audit
    runner also reads and writes files.  [json_text] is the text that
    [JSON.stringify] prints for a tree. *)
Record env := mkEnv {
  LH_ROOT : string;
  json_text : tree -> string;
  defaultSettings : val;
  lighthouse : val -> val -> M world val;
  swapLocale : val -> string -> M heap val;
  generateReportHtml : val -> M heap string;
  sanitizeJson : val -> M heap string;
  replaceStrings : string -> list (string * string) -> string;
  REPORT_CSS : string
}.

(** ** build/build-sample-reports.js *)

(** Add a plugin to demo plugin rendering. *)
Definition addPluginCategory (lhr : val) : M heap unit :=
  let* categories := get_prop lhr "categories" in
  let* auditRefs := new_array [] in
  let* plugin := new_object
    [("id", VStr "lighthouse-plugin-someplugin");
     ("title", VStr "Plugin");
     ("score", VNum 0.5%float);
     ("auditRefs", auditRefs)] in
  set_prop categories "lighthouse-plugin-someplugin" plugin.

(** Drops the LHR to only one, solo category (performance), and removes
    budgets. *)
Definition tweakLhrForPsi (lhr : val) : M heap val :=
  let* clone := JSON_clone lhr in
  let* categories := get_prop clone "categories" in
  let* performance := get_prop categories "performance" in
  let* solo := new_object [("performance", performance)] in
  set_prop clone "categories" solo >>
  let* audits := get_prop clone "audits" in
  delete_prop audits "performance-budget" >>
  let* categories1 := get_prop clone "categories" in
  let* performance1 := get_prop categories1 "performance" in
  let* categories2 := get_prop clone "categories" in
  let* performance2 := get_prop categories2 "performance" in
  let* auditRefs := get_prop performance2 "auditRefs" in
  let* kept :=
    Array_filter
      (fun audit =>
         let* id := get_prop audit "id" in
         let* budget := String_endsWith id "-budget" in
         ret (negb budget))
      auditRefs in
  set_prop performance1 "auditRefs" kept >>
  ret clone.

Section Build.
Variable E : env.
(** The sample Result loaded by the script. *)
Variable lhr : val.

Definition DIST : string := path_join (LH_ROOT E) "dist/now".

Definition TMP : string := DIST +:+ "/.tmp/".

Definition new_artifacts : M heap val :=
  let* warnings := new_array
    [VStr "Something went wrong with recording the trace over your page load. Please run Lighthouse again. (NO_FCP)"] in
  let* errors := new_array [] in
  let* installability := new_object [("errors", errors)] in
  let* stacks := new_array [] in
  let* url := new_object
    [("requestedUrl", VStr "http://fakeurl.com");
     ("finalUrl", VStr "http://fakeurl.com")] in
  let* timing := new_array [] in
  let* devtoolsLogs := new_object [] in
  let* traces := new_object [] in
  new_object
    [("fetchTime", VStr "2019-06-26T23:56:58.381Z");
     ("LighthouseRunWarnings", warnings);
     ("HostFormFactor", VStr "desktop");
     ("HostUserAgent", VStr "Mozilla/5.0 ErrorUserAgent Chrome/66");
     ("NetworkUserAgent", VStr "Mozilla/5.0 ErrorUserAgent Chrome/66");
     ("BenchmarkIndex", VNum 1000%float);
     ("WebAppManifest", VNull);
     ("InstallabilityErrors", installability);
     ("Stacks", stacks);
     ("settings", defaultSettings E);
     ("URL", url);
     ("Timing", timing);
     ("PageLoadError", VNull);
     ("devtoolsLogs", devtoolsLogs);
     ("traces", traces)].

(** Generate an LHR with errors for the renderer to display. *)
Definition generateErrorLHR : M world val :=
  let* artifacts := lift new_artifacts in
  mkdirSync TMP >>
  let* text := lift (JSON_stringify artifacts) in
  match text with
  | Some t => writeFileSync (TMP +:+ "/artifacts.json") (json_text E t)
  | None => throw (TypeError "The data argument must be of type string")
  end >>
  let* url := lift (get_prop artifacts "URL") in
  let* requestedUrl := lift (get_prop url "requestedUrl") in
  let* flags := lift (new_object [("auditMode", VStr TMP)]) in
  let* errorRunnerResult := lighthouse E requestedUrl flags in
  if negb (truthy errorRunnerResult)
  then throw (Error "Failed to run lighthouse on empty artifacts")
  else
    let* errorLhr := lift (get_prop errorRunnerResult "lhr") in
    let* audits := lift (get_prop errorLhr "audits") in
    let* fontDisplay := lift (get_prop audits "font-display") in
    let* warnings := lift (new_array
      [VStr "Lighthouse was unable to automatically check the font-display value for the following URL: https://secure-ds.serving-sys.com/resources/PROD/html5/105657/20190307/1074580285/43862346571980472/fonts/IBMPlexSans-Light-Latin1.woff.";
       VStr "Lighthouse was unable to automatically check the font-display value for the following URL: https://secure-ds.serving-sys.com/resources/PROD/html5/105657/20190307/1074580285/43862346571980472/fonts/IBMPlexSans-Bold-Latin1.woff."]) in
    lift (set_prop fontDisplay "warnings" warnings) >>
    let* audits1 := lift (get_prop errorLhr "audits") in
    let* offscreenImagesAudit := lift (get_prop audits1 "offscreen-images") in
    let* warnings1 := lift (new_array
      [VStr "Invalid image sizing information: https://cdn.cnn.com/cnn/.e1mo/img/4.0/vr/vr_new_asset.png"]) in
    lift (set_prop offscreenImagesAudit "warnings" warnings1) >>
    lift (set_prop offscreenImagesAudit "errorMessage" VUndef) >>
    lift (set_prop offscreenImagesAudit "scoreDisplayMode" (VStr "binary")) >>
    lift (set_prop offscreenImagesAudit "score" (VNum 1%float)) >>
    let* audits2 := lift (get_prop errorLhr "audits") in
    let* appleTouchIconAudit := lift (get_prop audits2 "apple-touch-icon") in
    let* warnings2 := lift (new_array
      [VStr "`apple-touch-icon-precomposed` is out of date; `apple-touch-icon` is preferred."]) in
    lift (set_prop appleTouchIconAudit "warnings" warnings2) >>
    lift (set_prop appleTouchIconAudit "errorMessage" VUndef) >>
    lift (set_prop appleTouchIconAudit "scoreDisplayMode" (VStr "binary")) >>
    lift (set_prop appleTouchIconAudit "score" (VNum 1%float)) >>
    rmdirSync TMP >>
    ret errorLhr.

Definition generatePsiReportHtml : M world string :=
  let* trimmed := lift (tweakLhrForPsi lhr) in
  let* sanitizedJson := lift (sanitizeJson E trimmed) in
  let* PSI_TEMPLATE :=
    readFileSync (LH_ROOT E +:+ "/report/test-assets/faux-psi-template.html") in
  let* psi_js := readFileSync (LH_ROOT E +:+ "/dist/report/psi.js") in
  let* faux_psi_js := readFileSync (LH_ROOT E +:+ "/report/test-assets/faux-psi.js") in
  let PSI_JAVASCRIPT :=
    newline +:+ psi_js +:+ ";" +:+ newline +:+
    faux_psi_js +:+ ";" +:+ newline +:+ "  " in
  ret (replaceStrings E PSI_TEMPLATE
    [("%%LIGHTHOUSE_JSON%%", sanitizedJson);
     ("%%LIGHTHOUSE_JAVASCRIPT%%", PSI_JAVASCRIPT);
     ("/*%%LIGHTHOUSE_CSS%%*/", REPORT_CSS E)]).

Definition variants : list string := [""; "⌣.cdt."; "⌣.psi."].

Definition filepath_of (variant filename : string) : string :=
  DIST +:+ "/" +:+ variant +:+ filename +:+ "/index.html".

(** One round of the inner loop; [lhr'] is the Result bound by the
    callback of [forEach]. *)
Definition writeVariant (filename : string) (lhr' : val) (variant : string)
  : M world unit :=
  let* html :=
    if includes variant "psi"
    then generatePsiReportHtml
    else lift (generateReportHtml E lhr') in
  let html1 :=
    if includes variant "cdt"
    then String_replace html
           (dquote +:+ "lh-root lh-vars" +:+ dquote)
           (dquote +:+ "lh-root lh-vars lh-devtools" +:+ dquote)
    else html in
  let filepath := filepath_of variant filename in
  mkdirSync (path_dirname filepath) >>
  writeFileSync filepath html1 >>
  console_log ("✅ " +:+ filepath +:+ " written.").

(** Generate and write reports. *)
Definition writeReports (filenameToLhr : list (string * val)) : M world unit :=
  forEach
    (fun entry => forEach (writeVariant (fst entry) (snd entry)) variants)
    filenameToLhr.

Definition localised (locale : string) : M world val :=
  let* swapped := lift (swapLocale E lhr locale) in
  lift (get_prop swapped "lhr").

Definition filenames : list string :=
  ["english"; "espanol"; "ɑrabic"; "xl-accented"; "error"; "single-category"].

Definition build_filenameToLhr (errorLhr : val) : M world (list (string * val)) :=
  let* espanol := localised "es" in
  let* arabic := localised "ar" in
  let* xl := localised "en-XL" in
  let* single := lift (tweakLhrForPsi lhr) in
  ret [("english", lhr);
       ("espanol", espanol);
       ("ɑrabic", arabic);
       ("xl-accented", xl);
       ("error", errorLhr);
       ("single-category", single)].

Definition main : M world unit :=
  lift (addPluginCategory lhr) >>
  let* errorLhr := generateErrorLHR in
  let* filenameToLhr := build_filenameToLhr errorLhr in
  writeReports filenameToLhr.
End Build.

(** ** report/clients/psi.js: the final screenshot

    The category handed to the helper is typed
    ([LH.ReportResult.Category]); the records keep the fields the helper
    reads.  An absent optional field is [None]. *)
Module Psi.
Record Details := mkDetails {
  type : string;
  data : option string
}.

Record AuditResult := mkAuditResult {
  scoreDisplayMode : string;
  details : option Details
}.

Record AuditRef := mkAuditRef {
  id : string;
  result : option AuditResult
}.

Record Category := mkCategory {
  auditRefs : list AuditRef
}.

Definition _getFinalScreenshot (perfCategory : Category) : val :=
  match List.find (fun audit => String.eqb (id audit) "final-screenshot")
          (auditRefs perfCategory) with
  | None => VNull
  | Some auditRef =>
      match result auditRef with
      | None => VNull
      | Some res =>
          if String.eqb (scoreDisplayMode res) "error" then VNull
          else
            match details res with
            | None => VNull
            | Some d =>
                if negb (String.eqb (type d) "screenshot") then VNull
                else match data d with
                     | Some s => VStr s
                     | None => VUndef
                     end
            end
      end
  end.
End Psi.

(** ** Reading the store

    Pure readings of a store, used to state what a program left there. *)

Definition field (h : heap) (v : val) (k : string) : val :=
  match v with
  | VRef l =>
      match h !! l with
      | Some o => default VUndef (prop_get k (o_props o))
      | None => VUndef
      end
  | _ => VUndef
  end.

Definition own_keys (h : heap) (v : val) : list string :=
  match v with
  | VRef l =>
      match h !! l with
      | Some o => keys (o_props o)
      | None => []
      end
  | _ => []
  end.

Definition elems (h : heap) (v : val) : list val :=
  match v with
  | VRef l =>
      match h !! l with
      | Some o => default [] (o_elems o)
      | None => []
      end
  | _ => []
  end.

(** [v] is a reference to an object of the store. *)
Definition is_object (h : heap) (v : val) : Prop :=
  match v with
  | VRef l => is_Some (h !! l)
  | _ => False
  end.

(** The value [v] is, in store [h], the tree [t]. *)
Inductive repr (h : heap) : val -> tree -> Prop :=
  | repr_undef : repr h VUndef JUndef
  | repr_null : repr h VNull JNull
  | repr_bool b : repr h (VBool b) (JBool b)
  | repr_num x : repr h (VNum x) (JNum x)
  | repr_str s : repr h (VStr s) (JStr s)
  | repr_arr l es ps ts :
      h !! l = Some (mkObj (Some es) ps) ->
      Forall2 (repr h) es ts ->
      repr h (VRef l) (JArr ts)
  | repr_obj l ps ts :
      h !! l = Some (mkObj None ps) ->
      Forall2 (fun p q => fst p = fst q /\ repr h (snd p) (snd q)) ps ts ->
      repr h (VRef l) (JObj ts).

(** The layout [JSON.parse] leaves behind: the tree [t] occupies exactly the
    addresses from [lo] up to [hi], children before their parent and
    siblings one after the other. *)
Inductive laid (h : heap) : nat -> nat -> val -> tree -> Prop :=
  | laid_undef lo : laid h lo lo VUndef JUndef
  | laid_null lo : laid h lo lo VNull JNull
  | laid_bool lo b : laid h lo lo (VBool b) (JBool b)
  | laid_num lo x : laid h lo lo (VNum x) (JNum x)
  | laid_str lo s : laid h lo lo (VStr s) (JStr s)
  | laid_arr lo l es ts :
      laid_list h lo l es ts ->
      h !! l = Some (array es) ->
      laid h lo (S l) (VRef l) (JArr ts)
  | laid_obj lo l ps ts :
      laid_props h lo l ps ts ->
      h !! l = Some (plain ps) ->
      laid h lo (S l) (VRef l) (JObj ts)
with laid_list (h : heap) : nat -> nat -> list val -> list tree -> Prop :=
  | laid_list_nil lo : laid_list h lo lo [] []
  | laid_list_cons lo mid hi v t vs ts :
      laid h lo mid v t ->
      laid_list h mid hi vs ts ->
      laid_list h lo hi (v :: vs) (t :: ts)
with laid_props (h : heap)
  : nat -> nat -> list (string * val) -> list (string * tree) -> Prop :=
  | laid_props_nil lo : laid_props h lo lo [] []
  | laid_props_cons lo mid hi k v t ps ts :
      laid h lo mid v t ->
      laid_props h mid hi ps ts ->
      laid_props h lo hi ((k, v) :: ps) ((k, t) :: ts).

Scheme laid_mut := Induction for laid Sort Prop
  with laid_list_mut := Induction for laid_list Sort Prop
  with laid_props_mut := Induction for laid_props Sort Prop.
Combined Scheme laid_mutind from laid_mut, laid_list_mut, laid_props_mut.

(** A value that does not point below address [n]. *)
Definition fresh_val (n : nat) (v : val) : Prop :=
  match v with
  | VRef l => n <= l
  | _ => True
  end.

Definition fresh_obj (n : nat) (o : obj) : Prop :=
  Forall (fun p => fresh_val n (snd p)) (o_props o) /\
  Forall (fresh_val n) (default [] (o_elems o)).

(** The objects one can get to from a value. *)
Inductive reachable (h : heap) : val -> loc -> Prop :=
  | reach_here l : reachable h (VRef l) l
  | reach_prop l o k v l' :
      h !! l = Some o -> (k, v) ∈ o_props o ->
      reachable h v l' -> reachable h (VRef l) l'
  | reach_elem l o es v l' :
      h !! l = Some o -> o_elems o = Some es -> v ∈ es ->
      reachable h v l' -> reachable h (VRef l) l'.

(** ** The serialiser and the trim, read on trees *)

Section JsonProps.
Variable f : tree -> option tree.

Fixpoint json_props (ps : list (string * tree)) : list (string * tree) :=
  match ps with
  | [] => []
  | (k, t) :: ps' =>
      match f t with
      | Some j => (k, j) :: json_props ps'
      | None => json_props ps'
      end
  end.
End JsonProps.

(** What [JSON.stringify] prints for a tree: properties that are
    [undefined] are left out, array elements that are [undefined] print as
    [null]. *)
Fixpoint to_json (t : tree) : option tree :=
  match t with
  | JUndef => None
  | JNull => Some JNull
  | JBool b => Some (JBool b)
  | JNum x => Some (num_to_json x)
  | JStr s => Some (JStr s)
  | JArr ts => Some (JArr (map (fun t' => default JNull (to_json t')) ts))
  | JObj ps => Some (JObj (json_props to_json ps))
  end.

Definition tree_props (t : tree) : list (string * tree) :=
  match t with
  | JObj ps => ps
  | _ => []
  end.

Definition tree_elems (t : tree) : list tree :=
  match t with
  | JArr ts => ts
  | _ => []
  end.

Definition tree_get (t : tree) (k : string) : tree :=
  default JUndef (prop_get k (tree_props t)).

(** The callback of the filter, on the tree of an audit reference. *)
Definition ref_kept (r : tree) : bool :=
  match tree_get r "id" with
  | JStr s => negb (endsWith s "-budget")
  | _ => false
  end.

(** The tree of the Result that [tweakLhrForPsi] returns, from the tree
    [j] of its clone. *)
Definition trim_tree (j : tree) : tree :=
  let performance := tree_get (tree_get j "categories") "performance" in
  let auditRefs := tree_get performance "auditRefs" in
  let performance' :=
    JObj (prop_set "auditRefs"
            (JArr (List.filter ref_kept (tree_elems auditRefs)))
            (tree_props performance)) in
  let audits' :=
    JObj (prop_del "performance-budget" (tree_props (tree_get j "audits"))) in
  JObj (prop_set "audits" audits'
          (prop_set "categories" (JObj [("performance", performance')])
             (tree_props j))).

(** An audit reference with a string id. *)
Definition has_id (r : tree) : Prop :=
  exists rps s, r = JObj rps /\ prop_get "id" rps = Some (JStr s).

(** A Result with a [performance] category: the fields that
    [tweakLhrForPsi] goes through have the types of [LH.Result]. *)
Definition has_performance (t : tree) : Prop :=
  exists ps cs pf refs aud,
    t = JObj ps /\
    prop_get "categories" ps = Some (JObj cs) /\
    prop_get "performance" cs = Some (JObj pf) /\
    prop_get "auditRefs" pf = Some (JArr refs) /\
    Forall has_id refs /\
    prop_get "audits" ps = Some (JObj aud).

Fixpoint tree_size (t : tree) : nat :=
  match t with
  | JArr ts => S (list_sum (map tree_size ts))
  | JObj ps => S (list_sum (map (fun p => tree_size (snd p)) ps))
  | _ => 1
  end.

(** A property of an object and the property of a tree that stands for it. *)
Definition krepr (h : heap) (p : string * val) (q : string * tree) : Prop :=
  fst p = fst q /\ repr h (snd p) (snd q).


(** The callback of the filter in [tweakLhrForPsi]. *)
Definition keep_ref (audit : val) : M heap bool :=
  let* id := get_prop audit "id" in
  let* budget := String_endsWith id "-budget" in
  ret (negb budget).


(** What [tweakLhrForPsi] does to the clone once it has it. *)
Definition trim_in_place (clone : val) : M heap val :=
  let* categories := get_prop clone "categories" in
  let* performance := get_prop categories "performance" in
  let* solo := new_object [("performance", performance)] in
  set_prop clone "categories" solo >>
  let* audits := get_prop clone "audits" in
  delete_prop audits "performance-budget" >>
  let* categories1 := get_prop clone "categories" in
  let* performance1 := get_prop categories1 "performance" in
  let* categories2 := get_prop clone "categories" in
  let* performance2 := get_prop categories2 "performance" in
  let* auditRefs := get_prop performance2 "auditRefs" in
  let* kept :=
    Array_filter
      (fun audit =>
         let* id := get_prop audit "id" in
         let* budget := String_endsWith id "-budget" in
         ret (negb budget))
      auditRefs in
  set_prop performance1 "auditRefs" kept >>
  ret clone.


(** A tree that the serialiser prints as it is. *)
Definition normal (t : tree) : Prop := to_json t = Some t.

(** A Result whose categories have no [performance] entry. *)
Definition lacks_performance (t : tree) : Prop :=
  exists ps cs aud,
    t = JObj ps /\
    prop_get "categories" ps = Some (JObj cs) /\
    prop_get "performance" cs = None /\
    prop_get "audits" ps = Some (JObj aud).

(** ** A program logic for the monad

    [hoare P m Q R]: from a state in [P], [m] ends in [Q] when it returns
    and in [R] when it throws. *)
Definition hoare {S A} (P : S -> Prop) (m : M S A)
    (Q : A -> S -> Prop) (R : S -> Prop) : Prop :=
  forall s, P s ->
    match m s with
    | (Ok a, s') => Q a s'
    | (Throw _, s') => R s'
    end.

(** The store [s] is the store [h0] followed by objects that only point
    to one another. *)
Definition grown_from (h0 : heap) (s : heap) : Prop :=
  exists hn, s = h0 ++ hn /\ Forall (fresh_obj (length h0)) hn.

(** ** Reading the world *)

(** The file system and the console of [w] are those of [w0]. *)
Definition same_outside (w0 w : world) : Prop :=
  w_fs w = w_fs w0 /\ w_console w = w_console w0.

(** The line the script prints for a report. *)
Definition written_line (filepath : string) : string :=
  "✅ " +:+ filepath +:+ " written.".

(** The paths of the reports of a list of names, in the order of the loop. *)
Definition report_paths (E : env) (names : list string) : list string :=
  flat_map (fun filename => map (fun variant => filepath_of E variant filename) variants)
    names.

(** Files after a list of writes. *)
Definition write_all (writes : list (string * string)) (files : list (string * string))
  : list (string * string) :=
  fold_left (fun fs pw => prop_set (fst pw) (snd pw) fs) writes files.

(** The store after [l.k = x], for an object [l] of the store. *)
Definition put (l : loc) (k : string) (x : val) (h : heap) : heap :=
  match h !! l with
  | Some o => <[l := mkObj (o_elems o) (prop_set k x (o_props o))]> h
  | None => h
  end.

(** ** The two halves of [generateErrorLHR], around the audit run *)

(** Up to the call: the artifacts are written to the scratch directory;
    the result is the arguments of the call. *)
Definition prepare_artifacts (E : env) : M world (val * val) :=
  let* artifacts := lift (new_artifacts E) in
  mkdirSync (TMP E) >>
  let* text := lift (JSON_stringify artifacts) in
  match text with
  | Some t => writeFileSync (TMP E +:+ "/artifacts.json") (json_text E t)
  | None => throw (TypeError "The data argument must be of type string")
  end >>
  let* url := lift (get_prop artifacts "URL") in
  let* requestedUrl := lift (get_prop url "requestedUrl") in
  let* flags := lift (new_object [("auditMode", VStr (TMP E))]) in
  ret (requestedUrl, flags).

(** After the call: the warnings and overrides, then the clean-up. *)
Definition inject_warnings (E : env) (errorRunnerResult : val) : M world val :=
  if negb (truthy errorRunnerResult)
  then throw (Error "Failed to run lighthouse on empty artifacts")
  else
    let* errorLhr := lift (get_prop errorRunnerResult "lhr") in
    let* audits := lift (get_prop errorLhr "audits") in
    let* fontDisplay := lift (get_prop audits "font-display") in
    let* warnings := lift (new_array
      [VStr "Lighthouse was unable to automatically check the font-display value for the following URL: https://secure-ds.serving-sys.com/resources/PROD/html5/105657/20190307/1074580285/43862346571980472/fonts/IBMPlexSans-Light-Latin1.woff.";
       VStr "Lighthouse was unable to automatically check the font-display value for the following URL: https://secure-ds.serving-sys.com/resources/PROD/html5/105657/20190307/1074580285/43862346571980472/fonts/IBMPlexSans-Bold-Latin1.woff."]) in
    lift (set_prop fontDisplay "warnings" warnings) >>
    let* audits1 := lift (get_prop errorLhr "audits") in
    let* offscreenImagesAudit := lift (get_prop audits1 "offscreen-images") in
    let* warnings1 := lift (new_array
      [VStr "Invalid image sizing information: https://cdn.cnn.com/cnn/.e1mo/img/4.0/vr/vr_new_asset.png"]) in
    lift (set_prop offscreenImagesAudit "warnings" warnings1) >>
    lift (set_prop offscreenImagesAudit "errorMessage" VUndef) >>
    lift (set_prop offscreenImagesAudit "scoreDisplayMode" (VStr "binary")) >>
    lift (set_prop offscreenImagesAudit "score" (VNum 1%float)) >>
    let* audits2 := lift (get_prop errorLhr "audits") in
    let* appleTouchIconAudit := lift (get_prop audits2 "apple-touch-icon") in
    let* warnings2 := lift (new_array
      [VStr "`apple-touch-icon-precomposed` is out of date; `apple-touch-icon` is preferred."]) in
    lift (set_prop appleTouchIconAudit "warnings" warnings2) >>
    lift (set_prop appleTouchIconAudit "errorMessage" VUndef) >>
    lift (set_prop appleTouchIconAudit "scoreDisplayMode" (VStr "binary")) >>
    lift (set_prop appleTouchIconAudit "score" (VNum 1%float)) >>
    rmdirSync (TMP E) >>
    ret errorLhr.

(** What the script needs of the result of the audit run: a Result whose
    audits hold the three audits it edits, as objects of the store, the
    font-display audit not being one of the other two. *)
Definition error_audits (h : heap) (errorRunnerResult : val) (fd oi ati : loc)
  : Prop :=
  let errorLhr := field h errorRunnerResult "lhr" in
  let audits := field h errorLhr "audits" in
  is_object h errorRunnerResult /\ is_object h errorLhr /\ is_object h audits /\
  field h audits "font-display" = VRef fd /\
  field h audits "offscreen-images" = VRef oi /\
  field h audits "apple-touch-icon" = VRef ati /\
  fd < length h /\ oi < length h /\ ati < length h /\
  fd <> oi /\ fd <> ati.

(** The store after [l.warnings = ws] for a new array [ws]. *)
Definition warn (l : loc) (ws : list val) (h : heap) : heap :=
  put l "warnings" (VRef (length h)) (h ++ [array ws]).

(** The store after an audit is set as passing. *)
Definition pass (l : loc) (h : heap) : heap :=
  put l "score" (VNum 1%float)
    (put l "scoreDisplayMode" (VStr "binary")
       (put l "errorMessage" VUndef h)).

(** ** Sample inputs

    A small Result as [require] loads it from JSON, a Result with no
    performance category, and collaborators that stand in for the rest of
    the repository. *)

Definition sample_tree : tree :=
  JObj
    [("lighthouseVersion", JStr "7.0.0");
     ("categories",
      JObj
        [("performance",
          JObj
            [("id", JStr "performance");
             ("title", JStr "Performance");
             ("score", JNum 0.875%float);
             ("auditRefs",
              JArr
                [JObj [("id", JStr "first-contentful-paint"); ("weight", JNum 15%float)];
                 JObj [("id", JStr "performance-budget"); ("weight", JNum 0%float)];
                 JObj [("id", JStr "timing-budget"); ("weight", JNum 0%float)];
                 JObj [("id", JStr "final-screenshot"); ("weight", JNum 0%float)]])]);
         ("accessibility",
          JObj
            [("id", JStr "accessibility");
             ("title", JStr "Accessibility");
             ("score", JNull);
             ("auditRefs", JArr [])])]);
     ("audits",
      JObj
        [("first-contentful-paint",
          JObj [("score", JNum 1%float); ("scoreDisplayMode", JStr "numeric")]);
         ("performance-budget",
          JObj [("score", JNull); ("scoreDisplayMode", JStr "notApplicable")]);
         ("timing-budget",
          JObj [("score", JNull); ("scoreDisplayMode", JStr "notApplicable")])])].

Definition sample_store : heap :=
  Eval vm_compute in snd (JSON_parse sample_tree []).

Definition sample_lhr : val := VRef 13.

Definition bare_tree : tree :=
  JObj
    [("categories",
      JObj
        [("accessibility",
          JObj
            [("id", JStr "accessibility");
             ("title", JStr "Accessibility");
             ("score", JNull);
             ("auditRefs", JArr [])])]);
     ("audits", JObj [])].

Definition bare_store : heap :=
  Eval vm_compute in snd (JSON_parse bare_tree []).

Definition bare_lhr : val := VRef 4.

(** The Result of an audit run on empty artifacts, in its runner result. *)
Definition error_result_tree : tree :=
  let failed :=
    JObj
      [("score", JNull);
       ("scoreDisplayMode", JStr "error");
       ("errorMessage", JStr "Required traces gatherer did not run.")] in
  JObj
    [("lhr",
      JObj
        [("audits",
          JObj
            [("font-display", failed);
             ("offscreen-images", failed);
             ("apple-touch-icon", failed)])])].

Definition sample_env : env :=
  {| LH_ROOT := "/lighthouse";
     json_text := fun _ => "{}";
     defaultSettings := VNull;
     lighthouse := fun _ _ => lift (JSON_parse error_result_tree);
     swapLocale := fun lhr _ => new_object [("lhr", lhr)];
     generateReportHtml := fun _ => ret "<!doctype html>";
     sanitizeJson := fun _ => ret "{}";
     replaceStrings := fun source _ => source;
     REPORT_CSS := "" |}.

(** An environment whose audit run throws. *)
Definition failing_env : env :=
  {| LH_ROOT := "/lighthouse";
     json_text := fun _ => "{}";
     defaultSettings := VNull;
     lighthouse := fun _ _ => throw (Error "Protocol error");
     swapLocale := fun lhr _ => new_object [("lhr", lhr)];
     generateReportHtml := fun _ => ret "<!doctype html>";
     sanitizeJson := fun _ => ret "{}";
     replaceStrings := fun source _ => source;
     REPORT_CSS := "" |}.

Definition sample_world : world :=
  {| w_heap := sample_store;
     w_fs :=
       {| fs_dirs := ["/lighthouse"];
          fs_files :=
            [("/lighthouse/report/test-assets/faux-psi-template.html", "<html>");
             ("/lighthouse/dist/report/psi.js", "psi");
             ("/lighthouse/report/test-assets/faux-psi.js", "faux")] |};
     w_console := [] |}.

Definition sample_filenameToLhr : list (string * val) :=
  [("english", sample_lhr);
   ("espanol", sample_lhr);
   ("ɑrabic", sample_lhr);
   ("xl-accented", sample_lhr);
   ("error", sample_lhr);
   ("single-category", sample_lhr)].

(** The sample world when the artifacts have been written, and when the
    audit run has returned. *)
Definition sample_prepared : world :=
  Eval vm_compute in snd (prepare_artifacts sample_env sample_world).

Definition sample_audited : world :=
  Eval vm_compute in
    snd (lighthouse sample_env (VStr "http://fakeurl.com") (VRef 23) sample_prepared).

(** The sample world when the reports have been written. *)
Definition sample_written : world :=
  Eval vm_compute in
    snd (writeReports sample_env sample_lhr sample_filenameToLhr sample_world).

(** ** What the serialiser visits *)

(** The values [JSON.stringify] goes through below an object: the
    elements of an array, the own properties of any other object. *)
Definition children (o : obj) : list val :=
  match o_elems o with
  | Some es => es
  | None => map snd (o_props o)
  end.

Inductive visits (h : heap) : val -> loc -> Prop :=
  | visits_here l : visits h (VRef l) l
  | visits_child l o v l' :
      h !! l = Some o -> v ∈ children o -> visits h v l' ->
      visits h (VRef l) l'.

(** An object that the serialiser meets again below itself. *)
Definition on_cycle (h : heap) (l : loc) : Prop :=
  exists o v, h !! l = Some o /\ v ∈ children o /\ visits h v l.

(** ** The artifacts of [generateErrorLHR], as a tree *)


(** The three audits that [generateErrorLHR] edits. *)
Definition edited_audits : list string :=
  ["font-display"; "offscreen-images"; "apple-touch-icon"].

(** ** More sample inputs *)

(** A Result that holds itself. *)
Definition cyclic_store : heap :=
  [plain [("categories", VRef 0)]].


(** The Result of an audit run that has no [apple-touch-icon] audit. *)
Definition short_result_tree : tree :=
  let failed :=
    JObj
      [("score", JNull);
       ("scoreDisplayMode", JStr "error");
       ("errorMessage", JStr "Required traces gatherer did not run.")] in
  JObj
    [("lhr",
      JObj
        [("audits",
          JObj
            [("font-display", failed);
             ("offscreen-images", failed)])])].

Definition short_env : env :=
  {| LH_ROOT := "/lighthouse";
     json_text := fun _ => "{}";
     defaultSettings := VNull;
     lighthouse := fun _ _ => lift (JSON_parse short_result_tree);
     swapLocale := fun lhr _ => new_object [("lhr", lhr)];
     generateReportHtml := fun _ => ret "<!doctype html>";
     sanitizeJson := fun _ => ret "{}";
     replaceStrings := fun source _ => source;
     REPORT_CSS := "" |}.

(** The sample world when that audit run has returned. *)
Definition short_audited : world :=
  Eval vm_compute in
    snd (lighthouse short_env (VStr "http://fakeurl.com") (VRef 23) sample_prepared).

(** The sample world after a whole run of the script. *)
Definition sample_built : world :=
  Eval vm_compute in snd (main sample_env sample_lhr sample_world).
Lemma tree_ind (P : tree -> Prop) :
  P JUndef -> P JNull -> (forall b, P (JBool b)) -> (forall x, P (JNum x)) ->
  (forall s, P (JStr s)) ->
  (forall ts, Forall P ts -> P (JArr ts)) ->
  (forall ps, Forall (fun p => P (snd p)) ps -> P (JObj ps)) ->
  forall t, P t.
Proof.
  intros Hu Hn Hb Hx Hs Ha Ho.
  fix IH 1.
  intros [| | b | x | s | ts | ps];
    [exact Hu | exact Hn | apply Hb | apply Hx | apply Hs | apply Ha | apply Ho].
  - induction ts as [|t ts IHts]; constructor; [apply IH | exact IHts].
  - induction ps as [|[k t] ps IHps]; constructor; [apply IH | exact IHps].
Qed.

(** Monad inversion *)
Lemma bind_inv {S A B} (m : M S A) (k : A -> M S B) s r s2 :
  bind m k s = (r, s2) ->
  (exists a s1, m s = (Ok a, s1) /\ k a s1 = (r, s2)) \/
  (exists e, m s = (Throw e, s2) /\ r = Throw e).
Proof.
  unfold bind. destruct (m s) as [[a|e] s1]; intros H.
  - left; eauto.
  - right. inversion H; subst; eauto.
Qed.

Lemma bind_ok {S A B} (m : M S A) (k : A -> M S B) s a s1 :
  m s = (Ok a, s1) -> bind m k s = k a s1.
Proof. unfold bind. intros ->. reflexivity. Qed.

Lemma bind_throw {S A B} (m : M S A) (k : A -> M S B) s e s1 :
  m s = (Throw e, s1) -> bind m k s = (Throw e, s1).
Proof. unfold bind. intros ->. reflexivity. Qed.

(** Pigeonhole *)
Lemma NoDup_bounded_length (l : list nat) n :
  NoDup l -> (forall x, x ∈ l -> x < n) -> length l <= n.
Proof.
  intros Hnd Hlt.
  assert (H : length l <= length (seq 0 n)).
  { apply submseteq_length, NoDup_submseteq; [done|].
    intros x Hx. apply elem_of_seq. specialize (Hlt x Hx). lia. }
  by rewrite length_seq in H.
Qed.

Lemma ser_elems_Some ser es :
  (forall v, ser v <> None) -> ser_elems ser es <> None.
Proof.
  intros H. induction es as [|v es IH]; simpl; [done|].
  specialize (H v). destruct (ser v) as [[t|e]|]; try done.
  destruct (ser_elems ser es) as [[ts|e]|]; done.
Qed.

Lemma ser_props_Some ser ps :
  (forall v, ser v <> None) -> ser_props ser ps <> None.
Proof.
  intros H. induction ps as [|[k v] ps IH]; simpl; [done|].
  specialize (H v). destruct (ser v) as [[t|e]|]; try done.
  destruct (ser_props ser ps) as [[ts|e]|]; done.
Qed.

Lemma stringify_fuel_enough fuel : forall h stack v,
  NoDup stack -> (forall l, l ∈ stack -> l < length h) ->
  length h < fuel + length stack ->
  stringify_fuel fuel h stack v <> None.
Proof.
  induction fuel as [|n IH]; intros h stack v Hnd Hin Hlen.
  - pose proof (NoDup_bounded_length _ _ Hnd Hin). simpl in Hlen. lia.
  - destruct v; simpl; try done.
    case_bool_decide; [done|].
    destruct (h !! l) as [o|] eqn:Hl; [|done].
    assert (Hrec : forall v, stringify_fuel n h (l :: stack) v <> None).
    { intros v. apply IH.
      - constructor; done.
      - intros l' [->|Hl']%elem_of_cons; [by eapply lookup_lt_Some|auto].
      - simpl. lia. }
    destruct (o_elems o) as [es|].
    + pose proof (ser_elems_Some _ es Hrec).
      destruct (ser_elems _ es) as [[ts|e]|]; done.
    + pose proof (ser_props_Some _ (o_props o) Hrec).
      destruct (ser_props _ (o_props o)) as [[ts|e]|]; done.
Qed.

Lemma Forall2_impl_in {A B} (P Q : A -> B -> Prop) l k :
  Forall2 P l k ->
  (forall x y, x ∈ l -> y ∈ k -> P x y -> Q x y) ->
  Forall2 Q l k.
Proof.
  induction 1 as [|x y l k Hxy Hlk IH]; intros HPQ; constructor.
  - apply HPQ; [left|left|done].
  - apply IH. intros x' y' Hx' Hy'. apply HPQ; by right.
Qed.

Lemma repr_arr_inv h v ts :
  repr h v (JArr ts) ->
  exists l es ps, v = VRef l /\ h !! l = Some (mkObj (Some es) ps) /\
                  Forall2 (repr h) es ts.
Proof. inversion 1; subst; eauto 10. Qed.

Lemma repr_obj_inv h v ts :
  repr h v (JObj ts) ->
  exists l ps, v = VRef l /\ h !! l = Some (mkObj None ps) /\
    Forall2 (fun p q => fst p = fst q /\ repr h (snd p) (snd q)) ps ts.
Proof. inversion 1; subst; eauto 10. Qed.

Lemma repr_ref_inv h l t :
  repr h (VRef l) t ->
  (exists es ps ts, t = JArr ts /\ h !! l = Some (mkObj (Some es) ps) /\
                    Forall2 (repr h) es ts) \/
  (exists ps ts, t = JObj ts /\ h !! l = Some (mkObj None ps) /\
     Forall2 (fun p q => fst p = fst q /\ repr h (snd p) (snd q)) ps ts).
Proof. inversion 1; subst; eauto 10. Qed.

Lemma Forall2_functional {A B} (R : A -> B -> Prop) es ts ts' :
  Forall (fun t => forall e t', R e t -> R e t' -> t = t') ts ->
  Forall2 R es ts -> Forall2 R es ts' -> ts = ts'.
Proof.
  intros HF H. revert ts' HF.
  induction H as [|e t es ts He Hes IH]; intros ts' HF H';
    inversion H'; subst; [done|].
  inversion HF; subst. f_equal; eauto.
Qed.

Lemma repr_det t : forall h v t', repr h v t -> repr h v t' -> t = t'.
Proof.
  induction t as [| | b | x | s | ts IH | ps IH] using tree_ind;
    intros h v t' H1 H2.
  1-5: inversion H1; subst; inversion H2; subst; done.
  - apply repr_arr_inv in H1 as (l & es & qs & -> & Hl & Hf).
    apply repr_ref_inv in H2
      as [(es' & qs' & ts' & -> & Hl' & Hf')|(qs' & ts' & -> & Hl' & Hf')];
      rewrite Hl in Hl'; simplify_eq.
    f_equal. eapply Forall2_functional; [|exact Hf|exact Hf'].
    eapply Forall_impl; [exact IH|]. simpl. eauto.
  - apply repr_obj_inv in H1 as (l & qs & -> & Hl & Hf).
    apply repr_ref_inv in H2
      as [(es' & qs' & ts' & -> & Hl' & Hf')|(qs' & ts' & -> & Hl' & Hf')];
      rewrite Hl in Hl'; simplify_eq.
    f_equal. eapply Forall2_functional; [|exact Hf|exact Hf'].
    eapply Forall_impl; [exact IH|]. simpl.
    intros [k t] IHt [k1 v1] [k2 t2] [? ?] [? ?]; simpl in *; subst.
    f_equal; eauto.
Qed.

Lemma tree_size_elem t ts : t ∈ ts -> tree_size t < tree_size (JArr ts).
Proof.
  simpl. induction 1; simpl; lia.
Qed.

Lemma tree_size_prop (p : string * tree) ps :
  p ∈ ps -> tree_size (snd p) < tree_size (JObj ps).
Proof.
  simpl. induction 1; simpl; lia.
Qed.

Lemma ser_elems_repr ser es ts :
  Forall2 (fun e t => ser e = None \/ ser e = Some (Ok (to_json t))) es ts ->
  ser_elems ser es = None \/
  ser_elems ser es = Some (Ok (map (fun t' => default JNull (to_json t')) ts)).
Proof.
  induction 1 as [|e t es ts [He|He] _ [IH|IH]]; simpl; rewrite ?He, ?IH; auto.
Qed.

Lemma ser_props_repr ser (ps : list (string * val)) ts :
  Forall2 (fun p q => fst p = fst q /\
             (ser (snd p) = None \/ ser (snd p) = Some (Ok (to_json (snd q))))) ps ts ->
  ser_props ser ps = None \/
  ser_props ser ps = Some (Ok (json_props to_json ts)).
Proof.
  induction 1 as [|[k v] [k' t] ps ts [Hk [He|He]] _ [IH|IH]];
    simpl in *; subst; rewrite ?He, ?IH; auto;
    try (right; destruct (to_json t); reflexivity).
Qed.

Lemma repr_stringify_fuel t : forall h v fuel stack,
  repr h v t ->
  (forall l t', l ∈ stack -> repr h (VRef l) t' -> tree_size t < tree_size t') ->
  stringify_fuel fuel h stack v = None \/
  stringify_fuel fuel h stack v = Some (Ok (to_json t)).
Proof.
  induction t as [| | b | x | s | ts IH | ps IH] using tree_ind;
    intros h v fuel stack Hr Hst.
  1-5: inversion Hr; subst; destruct fuel; simpl; auto.
  - pose proof Hr as Hr0.
    apply repr_arr_inv in Hr as (l & es & qs & -> & Hl & Hf).
    destruct fuel as [|n]; [auto|]. simpl.
    case_bool_decide as Hin.
    { specialize (Hst _ _ Hin Hr0). lia. }
    rewrite Hl. simpl.
    destruct (ser_elems_repr (stringify_fuel n h (l :: stack)) es ts) as [->| ->];
      [|auto..].
    eapply Forall2_impl_in; [exact Hf|].
    intros e t He Ht Hre. rewrite Forall_forall in IH.
    apply IH; [done..|].
    intros l' t' [->|Hl']%elem_of_cons Hr'.
    + rewrite <- (repr_det _ _ _ _ Hr0 Hr'). by apply tree_size_elem.
    + specialize (Hst _ _ Hl' Hr'). pose proof (tree_size_elem _ _ Ht). lia.
  - pose proof Hr as Hr0.
    apply repr_obj_inv in Hr as (l & qs & -> & Hl & Hf).
    destruct fuel as [|n]; [auto|]. simpl.
    case_bool_decide as Hin.
    { specialize (Hst _ _ Hin Hr0). lia. }
    rewrite Hl. simpl.
    destruct (ser_props_repr (stringify_fuel n h (l :: stack)) qs ps) as [->| ->];
      [|auto..].
    eapply Forall2_impl_in; [exact Hf|].
    intros p q Hp Hq [Hk Hre]. split; [done|]. rewrite Forall_forall in IH.
    apply IH; [done..|].
    intros l' t' [->|Hl']%elem_of_cons Hr'.
    + rewrite <- (repr_det _ _ _ _ Hr0 Hr'). by apply tree_size_prop.
    + specialize (Hst _ _ Hl' Hr'). pose proof (tree_size_prop _ _ Hq). lia.
Qed.

Lemma JSON_stringify_repr h v t :
  repr h v t -> JSON_stringify v h = (Ok (to_json t), h).
Proof.
  intros Hr. unfold JSON_stringify.
  pose proof (stringify_fuel_enough (S (length h)) h [] v) as Hne.
  destruct (repr_stringify_fuel t h v (S (length h)) [] Hr) as [Hs|Hs].
  - intros l t' Hl. by apply elem_of_nil in Hl.
  - exfalso. apply Hne; [constructor| |simpl; lia|done].
    intros l Hl. by apply elem_of_nil in Hl.
  - by rewrite Hs.
Qed.

(** Layout *)
Lemma laid_range h :
  (forall lo hi v t, laid h lo hi v t -> lo <= hi) /\
  (forall lo hi vs ts, laid_list h lo hi vs ts -> lo <= hi) /\
  (forall lo hi ps ts, laid_props h lo hi ps ts -> lo <= hi).
Proof.
  apply laid_mutind; intros; lia.
Qed.

Lemma laid_frame h h' :
  (forall lo hi v t, laid h lo hi v t ->
     (forall l, lo <= l < hi -> h' !! l = h !! l) -> laid h' lo hi v t) /\
  (forall lo hi vs ts, laid_list h lo hi vs ts ->
     (forall l, lo <= l < hi -> h' !! l = h !! l) -> laid_list h' lo hi vs ts) /\
  (forall lo hi ps ts, laid_props h lo hi ps ts ->
     (forall l, lo <= l < hi -> h' !! l = h !! l) -> laid_props h' lo hi ps ts).
Proof.
  apply laid_mutind; intros; try by constructor.
  - pose proof (proj1 (proj2 (laid_range h)) _ _ _ _ l0).
    eapply laid_arr; [apply H; intros; apply H0; lia|]. rewrite H0; [done|lia].
  - pose proof (proj2 (proj2 (laid_range h)) _ _ _ _ l0).
    eapply laid_obj; [apply H; intros; apply H0; lia|]. rewrite H0; [done|lia].
  - pose proof (proj1 (laid_range h) _ _ _ _ l).
    pose proof (proj1 (proj2 (laid_range h)) _ _ _ _ l0).
    econstructor; [apply H|apply H0]; intros; apply H1; lia.
  - pose proof (proj1 (laid_range h) _ _ _ _ l).
    pose proof (proj2 (proj2 (laid_range h)) _ _ _ _ l0).
    econstructor; [apply H|apply H0]; intros; apply H1; lia.
Qed.

Lemma laid_repr h :
  (forall lo hi v t, laid h lo hi v t -> repr h v t) /\
  (forall lo hi vs ts, laid_list h lo hi vs ts -> Forall2 (repr h) vs ts) /\
  (forall lo hi ps ts, laid_props h lo hi ps ts ->
     Forall2 (fun p q => fst p = fst q /\ repr h (snd p) (snd q)) ps ts).
Proof.
  apply laid_mutind; intros; try by econstructor.
Qed.

Lemma fresh_val_mono n m v : n <= m -> fresh_val m v -> fresh_val n v.
Proof. destruct v; simpl; try done. lia. Qed.

Lemma fresh_obj_mono n m o : n <= m -> fresh_obj m o -> fresh_obj n o.
Proof.
  intros Hnm [H1 H2]. split; (eapply Forall_impl; [eassumption|]);
    intros ?; by apply fresh_val_mono.
Qed.

Lemma laid_fresh h :
  (forall lo hi v t, laid h lo hi v t ->
     fresh_val lo v /\
     forall l, lo <= l < hi -> exists o, h !! l = Some o /\ fresh_obj lo o) /\
  (forall lo hi vs ts, laid_list h lo hi vs ts ->
     Forall (fresh_val lo) vs /\
     forall l, lo <= l < hi -> exists o, h !! l = Some o /\ fresh_obj lo o) /\
  (forall lo hi ps ts, laid_props h lo hi ps ts ->
     Forall (fun p => fresh_val lo (snd p)) ps /\
     forall l, lo <= l < hi -> exists o, h !! l = Some o /\ fresh_obj lo o).
Proof.
  apply laid_mutind; intros; try (split; [done|intros; lia]).
  - destruct H as [Hv Ho].
    pose proof (proj1 (proj2 (laid_range h)) _ _ _ _ l0).
    split; [done|]. intros l' Hl'.
    destruct (decide (l' = l)) as [->|Hne]; [|apply Ho; lia].
    eexists; split; [done|]. split; simpl; [constructor|done].
  - destruct H as [Hv Ho].
    pose proof (proj2 (proj2 (laid_range h)) _ _ _ _ l0).
    split; [done|]. intros l' Hl'.
    destruct (decide (l' = l)) as [->|Hne]; [|apply Ho; lia].
    eexists; split; [done|]. split; simpl; [done|constructor].
  - destruct H as [Hv Ho], H0 as [Hvs Hos].
    pose proof (proj1 (laid_range h) _ _ _ _ l).
    split.
    + constructor; [done|]. eapply Forall_impl; [exact Hvs|].
      intros ?; by apply fresh_val_mono.
    + intros l' Hl'. destruct (decide (l' < mid)); [apply Ho; lia|].
      destruct (Hos l') as (o & ? & ?); [lia|].
      exists o; split; [done|]. by eapply fresh_obj_mono.
  - destruct H as [Hv Ho], H0 as [Hvs Hos].
    pose proof (proj1 (laid_range h) _ _ _ _ l).
    split.
    + constructor; [done|]. eapply Forall_impl; [exact Hvs|].
      intros ?; by apply fresh_val_mono.
    + intros l' Hl'. destruct (decide (l' < mid)); [apply Ho; lia|].
      destruct (Hos l') as (o & ? & ?); [lia|].
      exists o; split; [done|]. by eapply fresh_obj_mono.
Qed.

(** Parsing *)
Lemma alloc_eq o h : alloc o h = (Ok (VRef (length h)), h ++ [o]).
Proof. reflexivity. Qed.

Lemma laid_extend h h2 :
  (forall lo hi v t, laid h lo hi v t -> hi <= length h -> laid (h ++ h2) lo hi v t) /\
  (forall lo hi vs ts, laid_list h lo hi vs ts -> hi <= length h ->
     laid_list (h ++ h2) lo hi vs ts) /\
  (forall lo hi ps ts, laid_props h lo hi ps ts -> hi <= length h ->
     laid_props (h ++ h2) lo hi ps ts).
Proof.
  destruct (laid_frame h (h ++ h2)) as (H1 & H2 & H3).
  repeat split; intros; [apply H1|apply H2|apply H3]; try done;
    intros; apply lookup_app_l; lia.
Qed.

Lemma mapM_parse_laid ts :
  Forall (fun t => forall h, exists v hn,
            JSON_parse t h = (Ok v, h ++ hn) /\
            laid (h ++ hn) (length h) (length (h ++ hn)) v t) ts ->
  forall h, exists vs hn,
    mapM JSON_parse ts h = (Ok vs, h ++ hn) /\
    laid_list (h ++ hn) (length h) (length (h ++ hn)) vs ts.
Proof.
  induction 1 as [|t ts Ht Hts IH]; intros h.
  - exists [], []. rewrite app_nil_r. split; [done|constructor].
  - destruct (Ht h) as (v & hn1 & Hp1 & Hl1).
    destruct (IH (h ++ hn1)) as (vs & hn2 & Hp2 & Hl2).
    exists (v :: vs), (hn1 ++ hn2). simpl.
    rewrite (bind_ok _ _ _ _ _ Hp1), (bind_ok _ _ _ _ _ Hp2).
    rewrite app_assoc. split; [done|].
    econstructor; [|exact Hl2].
    apply (proj1 (laid_extend _ _)); [done|lia].
Qed.

Lemma parse_props_laid ps :
  Forall (fun p => forall h, exists v hn,
            JSON_parse (snd p) h = (Ok v, h ++ hn) /\
            laid (h ++ hn) (length h) (length (h ++ hn)) v (snd p)) ps ->
  forall h, exists vs hn,
    parse_props JSON_parse ps h = (Ok vs, h ++ hn) /\
    laid_props (h ++ hn) (length h) (length (h ++ hn)) vs ps.
Proof.
  induction 1 as [|[k t] ps Ht Hts IH]; intros h.
  - exists [], []. rewrite app_nil_r. split; [done|constructor].
  - destruct (Ht h) as (v & hn1 & Hp1 & Hl1).
    destruct (IH (h ++ hn1)) as (vs & hn2 & Hp2 & Hl2).
    exists ((k, v) :: vs), (hn1 ++ hn2). simpl in *.
    rewrite (bind_ok _ _ _ _ _ Hp1), (bind_ok _ _ _ _ _ Hp2).
    rewrite app_assoc. split; [done|].
    econstructor; [|exact Hl2].
    apply (proj1 (laid_extend _ _)); [done|lia].
Qed.

Lemma JSON_parse_laid t : forall h,
  exists v hn, JSON_parse t h = (Ok v, h ++ hn) /\
               laid (h ++ hn) (length h) (length (h ++ hn)) v t.
Proof.
  induction t as [| | b | x | s | ts IH | ps IH] using tree_ind; intros h.
  1-5: eexists _, []; rewrite app_nil_r; split; [reflexivity|constructor].
  - destruct (mapM_parse_laid ts IH h) as (vs & hn & Hp & Hl).
    exists (VRef (length (h ++ hn))), (hn ++ [array vs]).
    simpl. rewrite (bind_ok _ _ _ _ _ Hp). unfold new_array. rewrite alloc_eq.
    rewrite app_assoc. split; [done|].
    rewrite (length_app (h ++ hn)). simpl. rewrite Nat.add_1_r.
    eapply laid_arr.
    + apply (proj1 (proj2 (laid_extend _ _))); [done|lia].
    + apply list_lookup_middle. done.
  - destruct (parse_props_laid ps IH h) as (vs & hn & Hp & Hl).
    exists (VRef (length (h ++ hn))), (hn ++ [plain vs]).
    simpl. rewrite (bind_ok _ _ _ _ _ Hp). unfold new_object. rewrite alloc_eq.
    rewrite app_assoc. split; [done|].
    rewrite (length_app (h ++ hn)). simpl. rewrite Nat.add_1_r.
    eapply laid_obj.
    + apply (proj2 (proj2 (laid_extend _ _))); [done|lia].
    + apply list_lookup_middle. done.
Qed.

(** Property tables *)
Section Props.
Context {A : Type}.
Implicit Types (ps : list (string * A)) (k : string) (v : A).

Lemma prop_get_set_eq k v ps : prop_get k (prop_set k v ps) = Some v.
Proof.
  induction ps as [|[k' v'] ps IH]; simpl.
  - by rewrite String.eqb_refl.
  - destruct (String.eqb k k') eqn:E; simpl; rewrite E; [done|exact IH].
Qed.

Lemma prop_get_set_ne k k' v ps :
  k <> k' -> prop_get k (prop_set k' v ps) = prop_get k ps.
Proof.
  intros Hne. induction ps as [|[k0 v0] ps IH]; simpl.
  - by apply String.eqb_neq in Hne as ->.
  - destruct (String.eqb k' k0) eqn:E; simpl; [|by rewrite IH].
    apply String.eqb_eq in E as <-. by apply String.eqb_neq in Hne as ->.
Qed.

Lemma prop_get_del_eq k ps : prop_get k (prop_del k ps) = None.
Proof.
  induction ps as [|[k' v'] ps IH]; simpl; [done|].
  destruct (String.eqb k k') eqn:E; simpl; [exact IH|by rewrite E].
Qed.

Lemma prop_get_del_ne k k' ps :
  k <> k' -> prop_get k (prop_del k' ps) = prop_get k ps.
Proof.
  intros Hne. induction ps as [|[k0 v0] ps IH]; simpl; [done|].
  destruct (String.eqb k' k0) eqn:E; simpl.
  - apply String.eqb_eq in E as <-. by apply String.eqb_neq in Hne as ->.
  - by rewrite IH.
Qed.

Lemma prop_set_id k v ps : prop_get k ps = Some v -> prop_set k v ps = ps.
Proof.
  induction ps as [|[k' v'] ps IH]; simpl; [done|].
  destruct (String.eqb k k') eqn:E; [by intros [= ->]|].
  intros H. by rewrite IH.
Qed.

Lemma prop_del_not_in k ps : k ∉ keys (prop_del k ps).
Proof.
  induction ps as [|[k' v'] ps IH]; simpl; [apply not_elem_of_nil|].
  destruct (String.eqb k k') eqn:E; [done|].
  simpl. apply not_elem_of_cons. split; [|done].
  by apply String.eqb_neq.
Qed.

Lemma prop_get_None_keys k ps : prop_get k ps = None <-> k ∉ keys ps.
Proof.
  induction ps as [|[k' v'] ps IH]; simpl.
  - split; [intros _; apply not_elem_of_nil|done].
  - destruct (String.eqb k k') eqn:E.
    + apply String.eqb_eq in E as ->. split; [done|].
      intros []. by left.
    + apply String.eqb_neq in E. rewrite IH, not_elem_of_cons. tauto.
Qed.
End Props.

Lemma krepr_get h ps ts k :
  Forall2 (krepr h) ps ts ->
  repr h (default VUndef (prop_get k ps)) (default JUndef (prop_get k ts)).
Proof.
  induction 1 as [|[k1 v] [k2 t] ps ts [Hk Hr] _ IH]; simpl in *.
  - constructor.
  - subst. destruct (String.eqb k k2); [done|exact IH].
Qed.

Lemma krepr_keys h ps ts : Forall2 (krepr h) ps ts -> keys ps = keys ts.
Proof.
  induction 1 as [|[k1 v] [k2 t] ps ts [Hk Hr] _ IH]; simpl in *; [done|].
  by subst; f_equal.
Qed.

Lemma krepr_set h ps ts k v t :
  Forall2 (krepr h) ps ts -> repr h v t ->
  Forall2 (krepr h) (prop_set k v ps) (prop_set k t ts).
Proof.
  intros H Hvt. induction H as [|[k1 v1] [k2 t1] ps ts [Hk Hr] Hps IH]; simpl in *.
  - by repeat constructor.
  - subst. destruct (String.eqb k k2); constructor; try done.
Qed.

Lemma krepr_del h ps ts k :
  Forall2 (krepr h) ps ts ->
  Forall2 (krepr h) (prop_del k ps) (prop_del k ts).
Proof.
  induction 1 as [|[k1 v1] [k2 t1] ps ts [Hk Hr] _ IH]; simpl in *.
  - constructor.
  - subst. destruct (String.eqb k k2); [done|]. constructor; done.
Qed.

(** Children of a laid object, one or two of them touched afterwards *)
Lemma laid_props_clean h hf lo hi ps ts :
  laid_props h lo hi ps ts ->
  (forall l, lo <= l < hi -> hf !! l = h !! l) ->
  Forall2 (krepr hf) ps ts.
Proof.
  intros H Hag. apply (proj2 (proj2 (laid_repr hf)) lo hi).
  by apply (proj2 (proj2 (laid_frame h hf))).
Qed.

Lemma laid_clean h hf lo hi v t :
  laid h lo hi v t ->
  (forall l, lo <= l < hi -> hf !! l = h !! l) ->
  repr hf v t.
Proof.
  intros H Hag. apply (proj1 (laid_repr hf) lo hi).
  by apply (proj1 (laid_frame h hf)).
Qed.

Lemma props_one_dirty h lo hi ps ts k t :
  laid_props h lo hi ps ts ->
  prop_get k ts = Some t ->
  exists v a b,
    prop_get k ps = Some v /\ lo <= a /\ a <= b /\ b <= hi /\ laid h a b v t /\
    forall hf v' t',
      (forall l, lo <= l < hi -> ~ (a <= l < b) -> hf !! l = h !! l) ->
      repr hf v' t' ->
      Forall2 (krepr hf) (prop_set k v' ps) (prop_set k t' ts).
Proof.
  induction 1 as [lo|lo mid hi k0 v0 t0 ps ts Hhd Htl IH]; simpl; [done|].
  pose proof (proj1 (laid_range h) _ _ _ _ Hhd) as Hr1.
  pose proof (proj2 (proj2 (laid_range h)) _ _ _ _ Htl) as Hr2.
  destruct (String.eqb k k0) eqn:E.
  - intros [= ->]. exists v0, lo, mid. repeat split; try done.
    intros hf v' t' Hag Hr. constructor; [done|].
    eapply laid_props_clean; [exact Htl|]. intros l Hl. apply Hag; lia.
  - intros Hget. destruct (IH Hget) as (v & a & b & Hg & ? & ? & ? & Hl & Hk).
    exists v, a, b. repeat split; try done; try lia.
    intros hf v' t' Hag Hr. constructor.
    + split; [done|]. simpl. eapply laid_clean; [exact Hhd|].
      intros l Hl'. apply Hag; lia.
    + apply Hk; [|done]. intros l Hl1 Hl2. apply Hag; [lia|done].
Qed.

Lemma props_two_dirty h lo hi ps ts k1 k2 t1 t2 :
  laid_props h lo hi ps ts ->
  k1 <> k2 ->
  prop_get k1 ts = Some t1 ->
  prop_get k2 ts = Some t2 ->
  exists v1 a1 b1 v2 a2 b2,
    prop_get k1 ps = Some v1 /\ prop_get k2 ps = Some v2 /\
    lo <= a1 /\ a1 <= b1 /\ b1 <= hi /\ lo <= a2 /\ a2 <= b2 /\ b2 <= hi /\
    (b1 <= a2 \/ b2 <= a1) /\
    laid h a1 b1 v1 t1 /\ laid h a2 b2 v2 t2 /\
    forall hf v1' t1' v2' t2',
      (forall l, lo <= l < hi -> ~ (a1 <= l < b1) -> ~ (a2 <= l < b2) ->
                 hf !! l = h !! l) ->
      repr hf v1' t1' -> repr hf v2' t2' ->
      Forall2 (krepr hf) (prop_set k1 v1' (prop_set k2 v2' ps))
                         (prop_set k1 t1' (prop_set k2 t2' ts)).
Proof.
  intros H Hne. induction H as [lo|lo mid hi k0 v0 t0 ps ts Hhd Htl IH]; simpl; [done|].
  pose proof (proj1 (laid_range h) _ _ _ _ Hhd) as Hr1.
  pose proof (proj2 (proj2 (laid_range h)) _ _ _ _ Htl) as Hr2.
  destruct (String.eqb k1 k0) eqn:E1; destruct (String.eqb k2 k0) eqn:E2.
  - apply String.eqb_eq in E1, E2. congruence.
  - intros [= ->] Hg2.
    destruct (props_one_dirty _ _ _ _ _ _ _ Htl Hg2)
      as (v2 & a2 & b2 & Hgv2 & ? & ? & ? & Hl2 & Hk).
    exists v0, lo, mid, v2, a2, b2. repeat split; try done; try lia.
    intros hf v1' t1' v2' t2' Hag R1 R2. simpl. rewrite E1.
    constructor; [done|]. apply Hk; [|done].
    intros l ? ?. apply Hag; [lia|lia|done].
  - intros Hg1 [= ->].
    destruct (props_one_dirty _ _ _ _ _ _ _ Htl Hg1)
      as (v1 & a1 & b1 & Hgv1 & ? & ? & ? & Hl1 & Hk).
    exists v1, a1, b1, v0, lo, mid. repeat split; try done; try lia.
    intros hf v1' t1' v2' t2' Hag R1 R2. simpl. rewrite E1.
    constructor; [done|]. apply Hk; [|done].
    intros l ? ?. apply Hag; [lia|done|lia].
  - intros Hg1 Hg2.
    destruct (IH Hg1 Hg2)
      as (v1 & a1 & b1 & v2 & a2 & b2 & ? & ? & ? & ? & ? & ? & ? & ? & ? & ? & ? & Hk).
    exists v1, a1, b1, v2, a2, b2. repeat split; try done; try lia.
    intros hf v1' t1' v2' t2' Hag R1 R2. simpl. rewrite E1.
    constructor.
    + split; [done|]. simpl. eapply laid_clean; [exact Hhd|].
      intros l Hl'. apply Hag; lia.
    + apply Hk; try done. intros l ? ? ?. apply Hag; try done. lia.
Qed.

Lemma tweakLhrForPsi_unfold lhr :
  tweakLhrForPsi lhr = (let* clone := JSON_clone lhr in trim_in_place clone).
Proof. reflexivity. Qed.

(** Store operations on an object that is there *)
Lemma get_prop_ok h l o k :
  h !! l = Some o ->
  get_prop (VRef l) k h = (Ok (default VUndef (prop_get k (o_props o))), h).
Proof. intros H. unfold get_prop. by rewrite H. Qed.

Lemma set_prop_ok h l o k x :
  h !! l = Some o ->
  set_prop (VRef l) k x h =
    (Ok tt, <[l := mkObj (o_elems o) (prop_set k x (o_props o))]> h).
Proof. intros H. unfold set_prop. by rewrite H. Qed.

Lemma delete_prop_ok h l o k :
  h !! l = Some o ->
  delete_prop (VRef l) k h =
    (Ok tt, <[l := mkObj (o_elems o) (prop_del k (o_props o))]> h).
Proof. intros H. unfold delete_prop. by rewrite H. Qed.

Lemma array_elems_ok h l o es :
  h !! l = Some o -> o_elems o = Some es ->
  array_elems (VRef l) h = (Ok es, h).
Proof. intros H He. unfold array_elems. by rewrite H, He. Qed.

Lemma keep_ref_ok h e r :
  repr h e r -> has_id r -> keep_ref e h = (Ok (ref_kept r), h).
Proof.
  intros Hr (rps & s & -> & Hid).
  apply repr_obj_inv in Hr as (l & ps & -> & Hl & Hf).
  pose proof (krepr_get h ps rps "id" Hf) as Hg. rewrite Hid in Hg. simpl in Hg.
  inversion Hg as [| | | |s' Hv| |]; subst.
  unfold keep_ref. erewrite bind_ok; [|by apply get_prop_ok].
  simpl. rewrite <- Hv. simpl.
  unfold ref_kept, tree_get. simpl. by rewrite Hid.
Qed.

Lemma filterM_keep_ref h es rs :
  Forall2 (repr h) es rs -> Forall has_id rs ->
  exists kept,
    filterM keep_ref es h = (Ok kept, h) /\
    forall h', Forall2 (repr h') es rs ->
               Forall2 (repr h') kept (List.filter ref_kept rs).
Proof.
  induction 1 as [|e r es rs He Hes IH]; intros Hid.
  - exists []. split; [done|]. intros h' _. constructor.
  - inversion Hid as [|? ? Hr Hrs]; subst.
    destruct (IH Hrs) as (kept & Hk & Hrepr).
    exists (if ref_kept r then e :: kept else kept). split.
    + simpl. rewrite (bind_ok _ _ _ _ _ (keep_ref_ok _ _ _ He Hr)).
      rewrite (bind_ok _ _ _ _ _ Hk). done.
    + intros h' Hall. inversion Hall; subst. simpl.
      destruct (ref_kept r); [constructor|]; auto.
Qed.

Lemma lookup_snoc_length {A} (l : list A) x n :
  n = length l -> (l ++ [x]) !! n = Some x.
Proof. intros ->. by apply list_lookup_middle. Qed.

Ltac len := rewrite ?length_insert, ?length_app; simpl; lia.

Ltac hlookup :=
  repeat first
    [ rewrite list_lookup_insert_eq by len
    | rewrite list_lookup_insert_ne by lia
    | rewrite lookup_app_l by len
    | rewrite lookup_snoc_length by len ];
  first [eassumption | reflexivity].

Ltac step_with lem :=
  erewrite bind_ok; [|apply lem; hlookup]; simpl.

Lemma laid_obj_inv h lo hi v ts :
  laid h lo hi v (JObj ts) ->
  exists l ps, v = VRef l /\ hi = S l /\ laid_props h lo l ps ts /\
               h !! l = Some (plain ps).
Proof. inversion 1; subst; eauto 10. Qed.

Lemma laid_arr_inv h lo hi v ts :
  laid h lo hi v (JArr ts) ->
  exists l es, v = VRef l /\ hi = S l /\ laid_list h lo l es ts /\
               h !! l = Some (array es).
Proof. inversion 1; subst; eauto 10. Qed.

Lemma laid_list_clean h hf lo hi es ts :
  laid_list h lo hi es ts ->
  (forall l, lo <= l < hi -> hf !! l = h !! l) ->
  Forall2 (repr hf) es ts.
Proof.
  intros H Hag. apply (proj1 (proj2 (laid_repr hf)) lo hi).
  by apply (proj1 (proj2 (laid_frame h hf))).
Qed.

Lemma trim_in_place_laid h1 lo lc jps :
  laid h1 lo (S lc) (VRef lc) (JObj jps) ->
  length h1 = S lc ->
  has_performance (JObj jps) ->
  exists hf,
    trim_in_place (VRef lc) h1 = (Ok (VRef lc), hf) /\
    repr hf (VRef lc) (trim_tree (JObj jps)).
Proof.
  intros Hl Hlen (ps & cs & pf & refs & aud & Heq & Hcat & Hperf & Hrefs & Hids & Haud).
  injection Heq as <-.
  apply laid_obj_inv in Hl as (lc' & cps & Hlc' & _ & Hcps & Hlc).
  injection Hlc' as <-.
  pose proof (proj2 (proj2 (laid_range h1)) _ _ _ _ Hcps) as Hr0.
  destruct (props_two_dirty h1 lo lc cps jps "audits" "categories" _ _ Hcps
              ltac:(done) Haud Hcat)
    as (va & aa & ba & vc & ac & bc & Hga & Hgc & ? & ? & ? & ? & ? & ? & Hdisj
        & La & Lc & Hroot).
  apply laid_obj_inv in La as (la & aps & -> & -> & Haps & Hla).
  apply laid_obj_inv in Lc as (lcat & catps & -> & -> & Hcatps & Hlcat).
  pose proof (proj2 (proj2 (laid_range h1)) _ _ _ _ Haps) as Hr1.
  pose proof (proj2 (proj2 (laid_range h1)) _ _ _ _ Hcatps) as Hr2.
  destruct (props_one_dirty h1 ac lcat catps cs "performance" _ Hcatps Hperf)
    as (vp & ap & bp & Hgp & ? & ? & ? & Lp & _).
  apply laid_obj_inv in Lp as (lp & pps & -> & -> & Hpps & Hlp).
  pose proof (proj2 (proj2 (laid_range h1)) _ _ _ _ Hpps) as Hr3.
  destruct (props_one_dirty h1 ap lp pps pf "auditRefs" _ Hpps Hrefs)
    as (var & aar & bar & Hgar & ? & ? & ? & Lar & _).
  apply laid_arr_inv in Lar as (lar & res & -> & -> & Hres & Hlar).
  pose proof (proj1 (proj2 (laid_range h1)) _ _ _ _ Hres) as Hr4.
  unfold trim_in_place.
  step_with get_prop_ok. rewrite Hgc. simpl.
  step_with get_prop_ok. rewrite Hgp. simpl.
  unfold new_object. erewrite bind_ok; [|apply alloc_eq]. rewrite Hlen.
  step_with set_prop_ok.
  step_with get_prop_ok. rewrite prop_get_set_ne by done. rewrite Hga. simpl.
  step_with delete_prop_ok.
  step_with get_prop_ok. rewrite prop_get_set_eq. simpl.
  step_with get_prop_ok.
  step_with get_prop_ok. rewrite prop_get_set_eq. simpl.
  step_with get_prop_ok.
  step_with get_prop_ok. rewrite Hgar. simpl.
  set (h4 := <[la:=_]> (<[lc:=_]> (h1 ++ _))).
  assert (Hlen4 : length h4 = S (S lc)) by (unfold h4; len).
  assert (H4o : forall l, l < lc -> l <> la -> h4 !! l = h1 !! l).
  { intros l ? ?. unfold h4. hlookup. }
  assert (H4lc : h4 !! lc = Some (plain (prop_set "categories" (VRef (S lc)) cps))).
  { unfold h4. hlookup. }
  assert (H4la : h4 !! la = Some (plain (prop_del "performance-budget" aps))).
  { unfold h4. hlookup. }
  assert (H4solo : h4 !! S lc = Some (plain [("performance", VRef lp)])).
  { unfold h4. hlookup. }
  clearbody h4.
  destruct (filterM_keep_ref h4 res refs) as (kept & Hkept & Hkrepr); [|done|].
  { eapply laid_list_clean; [exact Hres|]. intros l Hl. apply H4o; lia. }
  fold keep_ref. unfold Array_filter.
  erewrite bind_ok; [|erewrite bind_ok;
    [|eapply array_elems_ok; [rewrite H4o by lia; exact Hlar|reflexivity]];
    erewrite bind_ok; [|exact Hkept]; apply alloc_eq].
  rewrite Hlen4.
  erewrite bind_ok;
    [|apply set_prop_ok; rewrite lookup_app_l by lia; rewrite H4o by lia; exact Hlp].
  simpl. eexists; split; [reflexivity|].
  set (hf := <[lp:=_]> (h4 ++ _)).
  assert (Hfo : forall l, l < lc -> l <> la -> l <> lp -> hf !! l = h1 !! l).
  { intros l ? ? ?. unfold hf. rewrite list_lookup_insert_ne by lia.
    rewrite lookup_app_l by lia. by apply H4o. }
  assert (Hflc : hf !! lc = Some (plain (prop_set "categories" (VRef (S lc)) cps))).
  { unfold hf. rewrite list_lookup_insert_ne by lia.
    by rewrite lookup_app_l by lia. }
  assert (Hfla : hf !! la = Some (plain (prop_del "performance-budget" aps))).
  { unfold hf. rewrite list_lookup_insert_ne by lia.
    by rewrite lookup_app_l by lia. }
  assert (Hfsolo : hf !! S lc = Some (plain [("performance", VRef lp)])).
  { unfold hf. rewrite list_lookup_insert_ne by lia.
    by rewrite lookup_app_l by lia. }
  assert (Hflp : hf !! lp =
            Some (plain (prop_set "auditRefs" (VRef (S (S lc))) pps))).
  { unfold hf. rewrite list_lookup_insert_eq by len. done. }
  assert (Hfnew : hf !! S (S lc) = Some (array kept)).
  { unfold hf. rewrite list_lookup_insert_ne by lia.
    by apply lookup_snoc_length. }
  clearbody hf.
  unfold trim_tree, tree_get. simpl. rewrite Hcat, Haud. simpl.
  rewrite Hperf. simpl. rewrite Hrefs. simpl.
  eapply repr_obj; [exact Hflc|].
  rewrite <- (prop_set_id "audits" (VRef la) (prop_set "categories" _ cps))
    by (rewrite prop_get_set_ne by done; exact Hga).
  apply Hroot.
  - intros l ? ? ?. apply Hfo; lia.
  - eapply repr_obj; [exact Hfla|]. apply krepr_del.
    eapply laid_props_clean; [exact Haps|]. intros l ?. apply Hfo; lia.
  - eapply repr_obj; [exact Hfsolo|]. constructor; [|constructor].
    split; [done|]. simpl.
    eapply repr_obj; [exact Hflp|]. apply krepr_set.
    + eapply laid_props_clean; [exact Hpps|]. intros l ?. apply Hfo; lia.
    + eapply repr_arr; [exact Hfnew|]. apply Hkrepr.
      eapply laid_list_clean; [exact Hres|]. intros l ?. apply Hfo; lia.
Qed.

(** ** The serialiser on trees *)

Lemma json_props_get k ps t j :
  prop_get k ps = Some t -> to_json t = Some j ->
  prop_get k (json_props to_json ps) = Some j.
Proof.
  induction ps as [|[k' t'] ps IH]; simpl; [done|].
  destruct (String.eqb k k') eqn:E.
  - intros [= ->] ->. simpl. by rewrite E.
  - intros Hg Hj. destruct (to_json t'); simpl; rewrite ?E; auto.
Qed.

Lemma json_props_get_None k ps :
  prop_get k ps = None -> prop_get k (json_props to_json ps) = None.
Proof.
  induction ps as [|[k' t'] ps IH]; simpl; [done|].
  destruct (String.eqb k k') eqn:E; [done|].
  intros Hg. destruct (to_json t'); simpl; rewrite ?E; auto.
Qed.

Lemma has_id_to_json r :
  has_id r -> has_id (default JNull (to_json r)).
Proof.
  intros (rps & s & -> & Hid). simpl.
  exists (json_props to_json rps), s. split; [done|].
  by eapply json_props_get.
Qed.

Lemma has_performance_to_json t :
  has_performance t ->
  exists j, to_json t = Some j /\ has_performance j.
Proof.
  intros (ps & cs & pf & refs & aud & -> & Hcat & Hperf & Hrefs & Hids & Haud).
  eexists; split; [reflexivity|].
  exists (json_props to_json ps), (json_props to_json cs),
    (json_props to_json pf),
    (map (fun t' => default JNull (to_json t')) refs),
    (json_props to_json aud).
  split; [done|].
  repeat split; try (eapply json_props_get; [eassumption|reflexivity]).
  apply Forall_map. eapply Forall_impl; [exact Hids|].
  intros r. apply has_id_to_json.
Qed.

(** ** [tweakLhrForPsi] on a Result with a performance category *)

Lemma JSON_clone_repr h v t j :
  repr h v t -> to_json t = Some j ->
  exists c hn, JSON_clone v h = (Ok c, h ++ hn) /\
               laid (h ++ hn) (length h) (length (h ++ hn)) c j.
Proof.
  intros Hr Hj. destruct (JSON_parse_laid j h) as (c & hn & Hp & Hl).
  exists c, hn. split; [|done].
  unfold JSON_clone. rewrite (bind_ok _ _ _ _ _ (JSON_stringify_repr _ _ _ Hr)).
  by rewrite Hj.
Qed.

Lemma tweakLhrForPsi_repr h lhr t :
  repr h lhr t -> has_performance t ->
  exists j c hf,
    to_json t = Some j /\ has_performance j /\
    tweakLhrForPsi lhr h = (Ok c, hf) /\
    repr hf c (trim_tree j).
Proof.
  intros Hr Hp. destruct (has_performance_to_json _ Hp) as (j & Hj & Hpj).
  destruct (JSON_clone_repr _ _ _ _ Hr Hj) as (c & hn & Hc & Hl).
  pose proof Hpj as (ps & ? & ? & ? & ? & -> & _).
  pose proof Hl as Hl'.
  apply laid_obj_inv in Hl' as (lc & cps & -> & Hlen & _ & _).
  rewrite Hlen in Hl.
  destruct (trim_in_place_laid _ _ _ _ Hl Hlen Hpj) as (hf & Ht & Hrf).
  exists (JObj ps), (VRef lc), hf. repeat split; try done.
  rewrite tweakLhrForPsi_unfold. by rewrite (bind_ok _ _ _ _ _ Hc).
Qed.

(** Reading a store through a tree *)
Lemma repr_field h v ts k :
  repr h v (JObj ts) -> repr h (field h v k) (tree_get (JObj ts) k).
Proof.
  intros (l & ps & -> & Hl & Hf)%repr_obj_inv.
  unfold field, tree_get. rewrite Hl. simpl. by apply krepr_get.
Qed.

Lemma repr_own_keys h v ts :
  repr h v (JObj ts) -> own_keys h v = keys ts.
Proof.
  intros (l & ps & -> & Hl & Hf)%repr_obj_inv.
  unfold own_keys. rewrite Hl. simpl. by eapply krepr_keys.
Qed.

Lemma repr_elems h v ts :
  repr h v (JArr ts) -> Forall2 (repr h) (elems h v) ts.
Proof.
  intros (l & es & ps & -> & Hl & Hf)%repr_arr_inv.
  unfold elems. by rewrite Hl.
Qed.

(** The shape of a trimmed tree *)
Lemma trim_tree_shape ps cs pf refs aud :
  prop_get "categories" ps = Some (JObj cs) ->
  prop_get "performance" cs = Some (JObj pf) ->
  prop_get "auditRefs" pf = Some (JArr refs) ->
  prop_get "audits" ps = Some (JObj aud) ->
  trim_tree (JObj ps) =
    JObj (prop_set "audits" (JObj (prop_del "performance-budget" aud))
            (prop_set "categories"
               (JObj [("performance",
                       JObj (prop_set "auditRefs"
                               (JArr (List.filter ref_kept refs)) pf))])
               ps)).
Proof.
  intros Hcat Hperf Hrefs Haud. unfold trim_tree, tree_get. simpl.
  rewrite Hcat, Haud. simpl. rewrite Hperf. simpl. by rewrite Hrefs.
Qed.

Lemma ref_kept_id r :
  ref_kept r = true ->
  exists rps s, r = JObj rps /\ prop_get "id" rps = Some (JStr s) /\
                endsWith s "-budget" = false.
Proof.
  unfold ref_kept, tree_get. destruct r as [| | | | |ts|rps]; simpl; try done.
  destruct (prop_get "id" rps) as [[| | | |s| |]|] eqn:E; simpl; try done.
  intros H. exists rps, s. repeat split; try done.
  by apply negb_true_iff.
Qed.

Lemma trimmed_readings h c ps cs pf refs aud :
  prop_get "categories" ps = Some (JObj cs) ->
  prop_get "performance" cs = Some (JObj pf) ->
  prop_get "auditRefs" pf = Some (JArr refs) ->
  prop_get "audits" ps = Some (JObj aud) ->
  repr h c (trim_tree (JObj ps)) ->
  let categories := field h c "categories" in
  let performance := field h categories "performance" in
  repr h (field h c "audits") (JObj (prop_del "performance-budget" aud)) /\
  repr h categories
    (JObj [("performance",
            JObj (prop_set "auditRefs" (JArr (List.filter ref_kept refs)) pf))]) /\
  repr h performance
    (JObj (prop_set "auditRefs" (JArr (List.filter ref_kept refs)) pf)) /\
  repr h (field h performance "auditRefs") (JArr (List.filter ref_kept refs)).
Proof.
  intros Hcat Hperf Hrefs Haud Hr. simpl.
  rewrite (trim_tree_shape _ _ _ _ _ Hcat Hperf Hrefs Haud) in Hr.
  pose proof (repr_field _ _ _ "audits" Hr) as Ha.
  pose proof (repr_field _ _ _ "categories" Hr) as Hc.
  unfold tree_get in Ha, Hc. simpl in Ha, Hc.
  rewrite prop_get_set_eq in Ha.
  rewrite prop_get_set_ne, prop_get_set_eq in Hc by done.
  simpl in Ha, Hc.
  pose proof (repr_field _ _ _ "performance" Hc) as Hp.
  unfold tree_get in Hp. simpl in Hp.
  pose proof (repr_field _ _ _ "auditRefs" Hp) as Hrf.
  unfold tree_get in Hrf. simpl in Hrf. rewrite prop_get_set_eq in Hrf.
  done.
Qed.

(** C4: on a Result with a [performance] category, the Result that
    [tweakLhrForPsi] returns has no ['performance-budget'] key among its
    audits, no audit reference of the performance category has an id that
    ends with ['-budget'], and ['performance'] is the only key of its
    categories. *)
Theorem tweakLhrForPsi_removes_budgets h lhr t :
  repr h lhr t -> has_performance t ->
  exists clone h',
    tweakLhrForPsi lhr h = (Ok clone, h') /\
    let categories := field h' clone "categories" in
    let performance := field h' categories "performance" in
    ("performance-budget" ∉ own_keys h' (field h' clone "audits")) /\
    Forall (fun audit => exists id,
              field h' audit "id" = VStr id /\ endsWith id "-budget" = false)
           (elems h' (field h' performance "auditRefs")) /\
    own_keys h' categories = ["performance"].
Proof.
  intros Hr Hp.
  destruct (tweakLhrForPsi_repr _ _ _ Hr Hp) as (j & c & hf & _ & Hpj & Ht & Hrf).
  destruct Hpj as (ps & cs & pf & refs & aud & -> & Hcat & Hperf & Hrefs & Hids & Haud).
  exists c, hf. split; [done|].
  destruct (trimmed_readings _ _ _ _ _ _ _ Hcat Hperf Hrefs Haud Hrf)
    as (Ha & Hc & _ & Har).
  simpl. repeat split.
  - rewrite (repr_own_keys _ _ _ Ha). apply prop_del_not_in.
  - eapply Forall2_Forall_l; [exact (repr_elems _ _ _ Har)|].
    apply Forall_forall. intros r Hin e He.
    apply list_elem_of_In, filter_In in Hin as [_ Hk].
    apply ref_kept_id in Hk as (rps & s & -> & Hid & Hends).
    exists s. split; [|done].
    pose proof (repr_field _ _ _ "id" He) as Hf.
    unfold tree_get in Hf. simpl in Hf. rewrite Hid in Hf. simpl in Hf.
    by inversion Hf.
  - by rewrite (repr_own_keys _ _ _ Hc).
Qed.

(** ** Trimming twice *)

Lemma num_to_json_idem x : to_json (num_to_json x) = Some (num_to_json x).
Proof.
  unfold num_to_json.
  destruct (is_finite x) eqn:F; [|done].
  destruct (is_zero x) eqn:Z; simpl; [reflexivity|].
  unfold num_to_json. by rewrite F, Z.
Qed.

Lemma to_json_idem t : forall j, to_json t = Some j -> to_json j = Some j.
Proof.
  induction t as [| | b | x | s | ts IH | ps IH] using tree_ind;
    intros j; simpl; intros [= <-]; try done.
  - apply num_to_json_idem.
  - simpl. do 2 f_equal. rewrite map_map.
    induction IH as [|t ts Ht _ IHts]; simpl; [done|]. f_equal; [|done].
    destruct (to_json t) as [j|] eqn:E; simpl; [|done].
    by rewrite (Ht _ eq_refl).
  - simpl. do 2 f_equal.
    induction IH as [|[k t] ps Ht _ IHps]; simpl in *; [done|].
    destruct (to_json t) as [j|] eqn:E; simpl; [|done].
    by rewrite (Ht _ eq_refl), IHps.
Qed.

Lemma json_props_length f ps : length (json_props f ps) <= length ps.
Proof.
  induction ps as [|[k t] ps IH]; simpl; [done|].
  destruct (f t); simpl; lia.
Qed.

Lemma normal_obj ps : normal (JObj ps) <-> Forall (fun p => normal (snd p)) ps.
Proof.
  unfold normal. simpl. split.
  - intros [= H]. induction ps as [|[k t] ps IH]; [constructor|].
    simpl in H. destruct (to_json t) as [j|] eqn:E.
    + injection H as -> H. constructor; [done|auto].
    + pose proof (json_props_length to_json ps) as Hlen.
      rewrite H in Hlen. simpl in Hlen. lia.
  - intros H. do 2 f_equal.
    induction H as [|[k t] ps Ht _ IH]; simpl in *; [done|].
    by rewrite Ht, IH.
Qed.

Lemma normal_arr ts : Forall normal ts -> normal (JArr ts).
Proof.
  unfold normal. simpl. intros H. do 2 f_equal.
  induction H as [|t ts Ht _ IH]; simpl; [done|]. by rewrite Ht, IH.
Qed.

Lemma normal_arr_inv ts : normal (JArr ts) -> Forall normal ts.
Proof.
  unfold normal. simpl. intros [= H].
  induction ts as [|t ts IH]; [constructor|].
  simpl in H. injection H as Ht Hts. constructor; [|auto].
  unfold normal. destruct t; simpl in *; try done; by f_equal.
Qed.

Lemma prop_get_in {A} k (ps : list (string * A)) v :
  prop_get k ps = Some v -> exists k', (k', v) ∈ ps.
Proof.
  induction ps as [|[k' v'] ps IH]; simpl; [done|].
  destruct (String.eqb k k').
  - intros [= ->]. exists k'. by left.
  - intros (k0 & ?)%IH. exists k0. by right.
Qed.

Lemma Forall_prop_set {A} (P : string * A -> Prop) k v ps :
  Forall P ps -> (forall k', P (k', v)) -> Forall P (prop_set k v ps).
Proof.
  intros H Hv. induction H as [|[k' v'] ps Hp Hps IH]; simpl.
  - by repeat constructor.
  - destruct (String.eqb k k'); constructor; auto.
Qed.

Lemma Forall_prop_del {A} (P : string * A -> Prop) k ps :
  Forall P ps -> Forall P (prop_del k ps).
Proof.
  induction 1 as [|[k' v'] ps Hp Hps IH]; simpl; [constructor|].
  destruct (String.eqb k k'); [done|by constructor].
Qed.

Lemma normal_get k ps t :
  normal (JObj ps) -> prop_get k ps = Some t -> normal t.
Proof.
  intros Hn (k' & Hin)%prop_get_in.
  apply normal_obj in Hn. rewrite Forall_forall in Hn. by apply (Hn _ Hin).
Qed.

Lemma Forall_filter_list {A} (P : A -> Prop) f (l : list A) :
  Forall P l -> Forall P (List.filter f l).
Proof.
  induction 1 as [|x l Hx _ IH]; simpl; [constructor|].
  destruct (f x); [by constructor|done].
Qed.

Lemma normal_trim_tree j :
  has_performance j -> normal j -> normal (trim_tree j).
Proof.
  intros (ps & cs & pf & refs & aud & -> & Hcat & Hperf & Hrefs & Hids & Haud) Hn.
  rewrite (trim_tree_shape _ _ _ _ _ Hcat Hperf Hrefs Haud).
  pose proof (normal_get _ _ _ Hn Hcat) as Hncs.
  pose proof (normal_get _ _ _ Hncs Hperf) as Hnpf.
  pose proof (normal_get _ _ _ Hnpf Hrefs) as Hnrefs.
  pose proof (normal_get _ _ _ Hn Haud) as Hnaud.
  apply normal_obj. apply Forall_prop_set; [apply Forall_prop_set|].
  - by apply normal_obj.
  - intros ?. simpl. apply normal_obj. constructor; [|constructor]. simpl.
    apply normal_obj. apply Forall_prop_set; [by apply normal_obj|].
    intros ?. simpl. apply normal_arr, Forall_filter_list.
    by apply normal_arr_inv.
  - intros ?. simpl. apply normal_obj, Forall_prop_del. by apply normal_obj.
Qed.

Lemma has_performance_trim_tree j :
  has_performance j -> has_performance (trim_tree j).
Proof.
  intros (ps & cs & pf & refs & aud & -> & Hcat & Hperf & Hrefs & Hids & Haud).
  rewrite (trim_tree_shape _ _ _ _ _ Hcat Hperf Hrefs Haud).
  eexists _, _, _, _, _. split; [reflexivity|].
  repeat split.
  - rewrite prop_get_set_ne by done. apply prop_get_set_eq.
  - reflexivity.
  - apply prop_get_set_eq.
  - by apply Forall_filter_list.
  - apply prop_get_set_eq.
Qed.

Lemma prop_set_set {A} k (v v' : A) ps :
  prop_set k v (prop_set k v' ps) = prop_set k v ps.
Proof.
  induction ps as [|[k' v0] ps IH]; simpl.
  - by rewrite String.eqb_refl.
  - destruct (String.eqb k k') eqn:E; simpl; rewrite E; [done|by rewrite IH].
Qed.

Lemma prop_del_del {A} k (ps : list (string * A)) :
  prop_del k (prop_del k ps) = prop_del k ps.
Proof.
  induction ps as [|[k' v0] ps IH]; simpl; [done|].
  destruct (String.eqb k k') eqn:E; simpl; rewrite ?E; [done|by rewrite IH].
Qed.

Lemma filter_filter_same {A} f (l : list A) :
  List.filter f (List.filter f l) = List.filter f l.
Proof.
  induction l as [|x l IH]; simpl; [done|].
  destruct (f x) eqn:E; simpl; rewrite ?E, ?IH; done.
Qed.

Lemma trim_tree_idem j :
  has_performance j -> trim_tree (trim_tree j) = trim_tree j.
Proof.
  intros (ps & cs & pf & refs & aud & -> & Hcat & Hperf & Hrefs & Hids & Haud).
  rewrite (trim_tree_shape _ _ _ _ _ Hcat Hperf Hrefs Haud).
  erewrite trim_tree_shape.
  2:{ rewrite prop_get_set_ne by done. apply prop_get_set_eq. }
  2:{ reflexivity. }
  2:{ apply prop_get_set_eq. }
  2:{ apply prop_get_set_eq. }
  rewrite filter_filter_same, prop_set_set, prop_del_del.
  f_equal.
  rewrite (prop_set_id "categories").
  2:{ rewrite prop_get_set_ne by done. apply prop_get_set_eq. }
  apply prop_set_set.
Qed.

(** C5: trimming the Result of a trim gives a Result with the same tree,
    hence the same categories and the same list of audit references in
    the same order. *)
Theorem tweakLhrForPsi_idempotent h lhr t :
  repr h lhr t -> has_performance t ->
  exists once h1 twice h2 result categories,
    tweakLhrForPsi lhr h = (Ok once, h1) /\
    tweakLhrForPsi once h1 = (Ok twice, h2) /\
    repr h1 once result /\ repr h2 twice result /\
    repr h1 (field h1 once "categories") categories /\
    repr h2 (field h2 twice "categories") categories.
Proof.
  intros Hr Hp.
  destruct (tweakLhrForPsi_repr _ _ _ Hr Hp) as (j & c1 & h1 & Hj & Hpj & Ht1 & Hr1).
  pose proof (has_performance_trim_tree _ Hpj) as Hp1.
  destruct (tweakLhrForPsi_repr _ _ _ Hr1 Hp1) as (j2 & c2 & h2 & Hj2 & _ & Ht2 & Hr2).
  pose proof (normal_trim_tree _ Hpj (to_json_idem _ _ Hj)) as Hn.
  unfold normal in Hn. rewrite Hn in Hj2. injection Hj2 as <-.
  rewrite (trim_tree_idem _ Hpj) in Hr2.
  destruct Hpj as (ps & cs & pf & refs & aud & -> & Hcat & Hperf & Hrefs & Hids & Haud).
  destruct (trimmed_readings _ _ _ _ _ _ _ Hcat Hperf Hrefs Haud Hr1) as (_ & Hc1 & _).
  destruct (trimmed_readings _ _ _ _ _ _ _ Hcat Hperf Hrefs Haud Hr2) as (_ & Hc2 & _).
  eexists c1, h1, c2, h2, _, _. repeat split; eassumption.
Qed.

(** ** [tweakLhrForPsi] without a performance category *)

Lemma laid_props_get_None h lo hi ps ts k :
  laid_props h lo hi ps ts -> prop_get k ts = None -> prop_get k ps = None.
Proof.
  induction 1 as [lo|lo mid hi k0 v0 t0 ps ts Hhd Htl IH]; simpl; [done|].
  destruct (String.eqb k k0); [done|exact IH].
Qed.

Lemma get_prop_undef k h :
  exists msg, get_prop VUndef k h = (Throw (TypeError msg), h).
Proof. eexists. reflexivity. Qed.

Lemma trim_in_place_lacks h1 lo lc jps :
  laid h1 lo (S lc) (VRef lc) (JObj jps) ->
  length h1 = S lc ->
  lacks_performance (JObj jps) ->
  exists msg hf, trim_in_place (VRef lc) h1 = (Throw (TypeError msg), hf).
Proof.
  intros Hl Hlen (ps & cs & aud & Heq & Hcat & Hperf & Haud).
  injection Heq as <-.
  apply laid_obj_inv in Hl as (lc' & cps & Hlc' & _ & Hcps & Hlc).
  injection Hlc' as <-.
  pose proof (proj2 (proj2 (laid_range h1)) _ _ _ _ Hcps) as Hr0.
  destruct (props_two_dirty h1 lo lc cps jps "audits" "categories" _ _ Hcps
              ltac:(done) Haud Hcat)
    as (va & aa & ba & vc & ac & bc & Hga & Hgc & ? & ? & ? & ? & ? & ? & Hdisj
        & La & Lc & _).
  apply laid_obj_inv in La as (la & aps & -> & -> & Haps & Hla).
  apply laid_obj_inv in Lc as (lcat & catps & -> & -> & Hcatps & Hlcat).
  pose proof (laid_props_get_None _ _ _ _ _ _ Hcatps Hperf) as Hgp.
  unfold trim_in_place.
  step_with get_prop_ok. rewrite Hgc. simpl.
  step_with get_prop_ok. rewrite Hgp. simpl.
  unfold new_object. erewrite bind_ok; [|apply alloc_eq]. rewrite Hlen.
  step_with set_prop_ok.
  step_with get_prop_ok. rewrite prop_get_set_ne by done. rewrite Hga. simpl.
  step_with delete_prop_ok.
  step_with get_prop_ok. rewrite prop_get_set_eq. simpl.
  step_with get_prop_ok.
  step_with get_prop_ok. rewrite prop_get_set_eq. simpl.
  step_with get_prop_ok.
  eexists _, _. reflexivity.
Qed.

Lemma lacks_performance_to_json t :
  lacks_performance t ->
  exists j, to_json t = Some j /\ lacks_performance j.
Proof.
  intros (ps & cs & aud & -> & Hcat & Hperf & Haud).
  eexists; split; [reflexivity|].
  exists (json_props to_json ps), (json_props to_json cs), (json_props to_json aud).
  split; [done|].
  repeat split; try (eapply json_props_get; [eassumption|reflexivity]).
  by apply json_props_get_None.
Qed.

(** C2, as amended: [tweakLhrForPsi] returns on every Result with a
    [performance] category, and the categories of the Result it returns
    have [performance] as their only key; on a Result whose categories
    have no [performance] entry it throws a [TypeError]. *)
Theorem tweakLhrForPsi_returns_with_performance h lhr t :
  repr h lhr t ->
  (has_performance t ->
   exists clone h',
     tweakLhrForPsi lhr h = (Ok clone, h') /\
     own_keys h' (field h' clone "categories") = ["performance"]) /\
  (lacks_performance t ->
   exists msg h', tweakLhrForPsi lhr h = (Throw (TypeError msg), h')).
Proof.
  intros Hr. split.
  - intros Hp.
    destruct (tweakLhrForPsi_repr _ _ _ Hr Hp) as (j & c & hf & _ & Hpj & Ht & Hrf).
    destruct Hpj as (ps & cs & pf & refs & aud & -> & Hcat & Hperf & Hrefs & Hids & Haud).
    exists c, hf. split; [done|].
    destruct (trimmed_readings _ _ _ _ _ _ _ Hcat Hperf Hrefs Haud Hrf)
      as (_ & Hc & _).
    by rewrite (repr_own_keys _ _ _ Hc).
  - intros Hp. destruct (lacks_performance_to_json _ Hp) as (j & Hj & Hpj).
    destruct (JSON_clone_repr _ _ _ _ Hr Hj) as (c & hn & Hc & Hl).
    pose proof Hpj as (ps & ? & ? & -> & _).
    pose proof Hl as Hl'.
    apply laid_obj_inv in Hl' as (lc & cps & -> & Hlen & _ & _).
    rewrite Hlen in Hl.
    destruct (trim_in_place_lacks _ _ _ _ Hl Hlen Hpj) as (msg & hf & Ht).
    exists msg, hf.
    rewrite tweakLhrForPsi_unfold. by rewrite (bind_ok _ _ _ _ _ Hc).
Qed.

(** ** The program logic *)

Lemma hoare_bind {S A B} (P : S -> Prop) (m : M S A) (k : A -> M S B)
    (Q : A -> S -> Prop) (Q' : B -> S -> Prop) (R : S -> Prop) :
  hoare P m Q R -> (forall a, hoare (Q a) (k a) Q' R) ->
  hoare P (bind m k) Q' R.
Proof.
  intros Hm Hk s Hs. specialize (Hm s Hs). unfold bind.
  destruct (m s) as [[a|e] s1]; [by apply Hk|done].
Qed.

Lemma hoare_ret {S A} (P : S -> Prop) (a : A) (Q : A -> S -> Prop) R :
  (forall s, P s -> Q a s) -> hoare P (ret a) Q R.
Proof. intros H s Hs. by apply H. Qed.

Lemma hoare_pure {S A} (phi : Prop) (P : S -> Prop) (m : M S A) Q R :
  (phi -> hoare P m Q R) -> hoare (fun s => P s /\ phi) m Q R.
Proof. intros H s [Hs Hphi]. by apply H. Qed.

Lemma hoare_conseq {S A} (P P' : S -> Prop) (m : M S A)
    (Q Q' : A -> S -> Prop) (R R' : S -> Prop) :
  hoare P m Q R ->
  (forall s, P' s -> P s) -> (forall a s, Q a s -> Q' a s) ->
  (forall s, R s -> R' s) ->
  hoare P' m Q' R'.
Proof.
  intros H HP HQ HR s Hs. specialize (H s (HP s Hs)).
  destruct (m s) as [[a|e] s1]; auto.
Qed.

(** ** Store operations keep old objects and fresh ones apart *)

Section Grown.
Variable h0 : heap.
Let n := length h0.

Lemma grown_lookup s l o :
  grown_from h0 s -> n <= l -> s !! l = Some o -> fresh_obj n o.
Proof.
  intros (hn & -> & Hf) Hl Hs.
  rewrite lookup_app_r in Hs by done.
  rewrite Forall_forall in Hf. apply Hf.
  by eapply list_elem_of_lookup_2.
Qed.

Lemma grown_insert s l o :
  grown_from h0 s -> n <= l -> fresh_obj n o -> grown_from h0 (<[l := o]> s).
Proof.
  intros (hn & -> & Hf) Hl Ho.
  exists (<[l - n := o]> hn). split.
  - by rewrite insert_app_r_alt.
  - by apply Forall_insert.
Qed.

Lemma grown_snoc s o :
  grown_from h0 s -> fresh_obj n o -> grown_from h0 (s ++ [o]).
Proof.
  intros (hn & -> & Hf) Ho.
  exists (hn ++ [o]). split; [by rewrite app_assoc|].
  apply Forall_app. split; [done|by constructor].
Qed.

Lemma grown_length s : grown_from h0 s -> n <= length s.
Proof. intros (hn & -> & _). rewrite length_app. unfold n. lia. Qed.

Lemma fresh_prop_get k ps :
  Forall (fun p : string * val => fresh_val n (snd p)) ps ->
  fresh_val n (default VUndef (prop_get k ps)).
Proof.
  induction 1 as [|[k' v] ps Hv _ IH]; simpl; [done|].
  destruct (String.eqb k k'); [done|exact IH].
Qed.

Lemma get_prop_grown v k :
  fresh_val n v ->
  hoare (grown_from h0) (get_prop v k)
    (fun x s => grown_from h0 s /\ fresh_val n x) (grown_from h0).
Proof.
  intros Hv s Hs. unfold get_prop.
  destruct v as [| | | | |l]; try done.
  destruct (s !! l) as [o|] eqn:E; [|done].
  split; [done|]. apply fresh_prop_get.
  by apply (grown_lookup s l o).
Qed.

Lemma set_prop_grown v k x :
  fresh_val n v -> fresh_val n x ->
  hoare (grown_from h0) (set_prop v k x)
    (fun _ s => grown_from h0 s /\ exists l, v = VRef l) (grown_from h0).
Proof.
  intros Hv Hx s Hs. unfold set_prop.
  destruct v as [| | | | |l]; try done.
  destruct (s !! l) as [o|] eqn:E; [|done].
  split; [|eauto]. apply grown_insert; try done.
  destruct (grown_lookup s l o Hs Hv E) as [Hp He].
  split; simpl; [|done].
  by apply Forall_prop_set.
Qed.

Lemma delete_prop_grown v k :
  fresh_val n v ->
  hoare (grown_from h0) (delete_prop v k)
    (fun _ s => grown_from h0 s) (grown_from h0).
Proof.
  intros Hv s Hs. unfold delete_prop.
  destruct v as [| | | | |l]; try done.
  destruct (s !! l) as [o|] eqn:E; [|done].
  apply grown_insert; try done.
  destruct (grown_lookup s l o Hs Hv E) as [Hp He].
  split; simpl; [|done].
  by apply Forall_prop_del.
Qed.

Lemma alloc_grown o :
  fresh_obj n o ->
  hoare (grown_from h0) (alloc o)
    (fun x s => grown_from h0 s /\ fresh_val n x) (grown_from h0).
Proof.
  intros Ho s Hs. unfold alloc. split; [by apply grown_snoc|].
  simpl. by apply grown_length.
Qed.

Lemma array_elems_grown v :
  fresh_val n v ->
  hoare (grown_from h0) (array_elems v)
    (fun es s => grown_from h0 s /\ Forall (fresh_val n) es) (grown_from h0).
Proof.
  intros Hv s Hs. unfold array_elems.
  destruct v as [| | | | |l]; try done.
  destruct (s !! l) as [o|] eqn:E; [|done].
  destruct (o_elems o) as [es|] eqn:Ee; [|done].
  split; [done|].
  destruct (grown_lookup s l o Hs Hv E) as [Hp He].
  by rewrite Ee in He.
Qed.

Lemma keep_ref_state e s : snd (keep_ref e s) = s.
Proof.
  unfold keep_ref, bind, get_prop.
  destruct e as [| | | | |l]; try done.
  destruct (s !! l) as [o|]; [|done].
  destruct (default VUndef (prop_get "id" (o_props o))); done.
Qed.

Lemma filterM_keep_ref_grown es :
  Forall (fresh_val n) es ->
  hoare (grown_from h0) (filterM keep_ref es)
    (fun kept s => grown_from h0 s /\ Forall (fresh_val n) kept)
    (grown_from h0).
Proof.
  induction 1 as [|e es He Hes IH]; intros s Hs; simpl; [by split|].
  unfold bind at 1. pose proof (keep_ref_state e s) as Hst.
  destruct (keep_ref e s) as [[b|err] s1]; simpl in Hst; subst; [|done].
  unfold bind at 1. specialize (IH s Hs).
  destruct (filterM keep_ref es s) as [[kept|err] s2]; [|done].
  simpl. destruct IH as [? ?]. split; [done|].
  destruct b; [by constructor|done].
Qed.
End Grown.

Section GrownPrograms.
Variable h0 : heap.
Let n := length h0.

Lemma grown_refl : grown_from h0 h0.
Proof. exists []. by rewrite app_nil_r. Qed.

Lemma JSON_stringify_state v s : snd (JSON_stringify v s) = s.
Proof.
  unfold JSON_stringify.
  by destruct (stringify_fuel _ _ _ _) as [[?|?]|].
Qed.

Lemma JSON_parse_grown t :
  hoare (fun s => s = h0) (JSON_parse t)
    (fun c s => grown_from h0 s /\ fresh_val n c) (grown_from h0).
Proof.
  intros s ->.
  destruct (JSON_parse_laid t h0) as (c & hn & -> & Hl).
  destruct (proj1 (laid_fresh _) _ _ _ _ Hl) as [Hc Ho].
  split; [|done]. exists hn. split; [done|].
  apply Forall_lookup. intros i o Hi.
  destruct (Ho (n + i)) as (o' & Ho' & Hf).
  { pose proof (lookup_lt_Some _ _ _ Hi). rewrite length_app. unfold n. lia. }
  rewrite lookup_app_r in Ho' by (unfold n; lia).
  replace (n + i - length h0) with i in Ho' by (unfold n; lia).
  by simplify_eq.
Qed.

Lemma JSON_clone_grown v :
  hoare (fun s => s = h0) (JSON_clone v)
    (fun c s => grown_from h0 s /\ fresh_val n c) (grown_from h0).
Proof.
  intros s ->. unfold JSON_clone, bind.
  pose proof (JSON_stringify_state v h0) as Hst.
  destruct (JSON_stringify v h0) as [[[t|]|e] s1]; simpl in Hst; subst.
  - by apply JSON_parse_grown.
  - apply grown_refl.
  - apply grown_refl.
Qed.

Ltac hstep lem :=
  eapply hoare_bind;
  [apply lem; try done
  |intros ?x; simpl; try (apply hoare_pure; intros ?Hx)].

Lemma trim_in_place_grown clone :
  fresh_val n clone ->
  hoare (grown_from h0) (trim_in_place clone)
    (fun c s => grown_from h0 s /\ fresh_val n c /\ exists l, c = VRef l)
    (grown_from h0).
Proof.
  intros Hc. unfold trim_in_place.
  hstep get_prop_grown. hstep get_prop_grown.
  hstep alloc_grown. { split; simpl; [by repeat constructor|done]. }
  hstep set_prop_grown.
  hstep get_prop_grown. hstep delete_prop_grown.
  hstep get_prop_grown. hstep get_prop_grown.
  hstep get_prop_grown. hstep get_prop_grown.
  hstep get_prop_grown.
  eapply hoare_bind.
  { unfold Array_filter. hstep array_elems_grown.
    hstep (filterM_keep_ref_grown h0).
    apply alloc_grown. split; simpl; [constructor|done]. }
  intros kept. simpl. apply hoare_pure. intros Hkept.
  hstep set_prop_grown.
  apply hoare_ret. intros s Hs. auto.
Qed.

Lemma tweakLhrForPsi_grown lhr :
  hoare (fun s => s = h0) (tweakLhrForPsi lhr)
    (fun c s => grown_from h0 s /\ fresh_val n c /\ exists l, c = VRef l)
    (grown_from h0).
Proof.
  rewrite tweakLhrForPsi_unfold.
  eapply hoare_bind; [apply JSON_clone_grown|].
  intros c. simpl. apply hoare_pure. intros Hc.
  by apply trim_in_place_grown.
Qed.

Lemma grown_reachable s v l :
  grown_from h0 s -> fresh_val n v -> reachable s v l -> n <= l.
Proof.
  intros Hs Hv Hr. induction Hr as [l|l o k v l' Hl Hin _ IH|l o es v l' Hl He Hin _ IH].
  - done.
  - apply IH. destruct (grown_lookup h0 s l o Hs Hv Hl) as [Hp _].
    rewrite Forall_forall in Hp. apply (Hp _ Hin).
  - apply IH. destruct (grown_lookup h0 s l o Hs Hv Hl) as [_ Hp].
    rewrite He in Hp. simpl in Hp. rewrite Forall_forall in Hp. by apply Hp.
Qed.
End GrownPrograms.

(** C6: [tweakLhrForPsi] does not touch its input.  Whether it returns or
    throws, every object that was in the store is still there unchanged
    (so are the categories, the audits and the audit references of the
    input Result), and the Result it returns is a new object from which
    only new objects can be reached. *)
Theorem tweakLhrForPsi_leaves_input lhr h :
  let (r, h') := tweakLhrForPsi lhr h in
  (exists hn, h' = h ++ hn) /\
  (forall l o, h !! l = Some o -> h' !! l = Some o) /\
  (forall k v, is_object h v -> field h' v k = field h v k) /\
  match r with
  | Ok clone =>
      (exists l, clone = VRef l /\ length h <= l) /\
      (forall l, reachable h' clone l -> length h <= l)
  | Throw _ => True
  end.
Proof.
  pose proof (tweakLhrForPsi_grown h lhr h eq_refl) as H.
  destruct (tweakLhrForPsi lhr h) as [r h'].
  assert (Hg : grown_from h h') by (destruct r; [apply H|exact H]).
  destruct Hg as (hn & -> & Hf).
  assert (Hold : forall l o, h !! l = Some o -> (h ++ hn) !! l = Some o).
  { intros l o Hl. rewrite lookup_app_l; [done|by eapply lookup_lt_Some]. }
  repeat split.
  - by exists hn.
  - exact Hold.
  - intros k [| | | | |l] Hv; simpl in Hv; try done.
    destruct Hv as [o Ho]. unfold field. by rewrite (Hold _ _ Ho), Ho.
  - destruct r as [c|e]; [|done].
    destruct H as (Hg & Hc & l & ->). split; [by exists l|].
    intros l'. by apply (grown_reachable h).
Qed.

(** ** The world: what touches the file system and the console *)

Lemma lift_eq {A} (m : M heap A) w :
  lift m w = (fst (m (w_heap w)),
              mkWorld (snd (m (w_heap w))) (w_fs w) (w_console w)).
Proof. unfold lift. by destruct (m (w_heap w)). Qed.

Lemma lift_ok {A} (m : M heap A) w a h' :
  m (w_heap w) = (Ok a, h') ->
  lift m w = (Ok a, mkWorld h' (w_fs w) (w_console w)).
Proof. intros H. unfold lift. by rewrite H. Qed.

Lemma same_outside_refl w : same_outside w w.
Proof. by split. Qed.

Lemma lift_same {A} (m : M heap A) w0 :
  hoare (same_outside w0) (lift m) (fun _ => same_outside w0) (same_outside w0).
Proof.
  intros w Hw. rewrite lift_eq.
  destruct (m (w_heap w)) as [[a|e] h']; simpl; exact Hw.
Qed.

Lemma readFileSync_same p w0 :
  hoare (same_outside w0) (readFileSync p) (fun _ => same_outside w0)
    (same_outside w0).
Proof.
  intros w Hw. unfold readFileSync.
  by destruct (prop_get p (fs_files (w_fs w))).
Qed.

Lemma generatePsiReportHtml_same E lhr w0 :
  hoare (same_outside w0) (generatePsiReportHtml E lhr)
    (fun _ => same_outside w0) (same_outside w0).
Proof.
  unfold generatePsiReportHtml.
  eapply hoare_bind; [apply lift_same|]. intros trimmed.
  eapply hoare_bind; [apply lift_same|]. intros sanitizedJson.
  eapply hoare_bind; [apply readFileSync_same|]. intros template.
  eapply hoare_bind; [apply readFileSync_same|]. intros psi_js.
  eapply hoare_bind; [apply readFileSync_same|]. intros faux_psi_js.
  by apply hoare_ret.
Qed.

Lemma writeVariant_ok E lhr filename lhr' variant w w' :
  writeVariant E lhr filename lhr' variant w = (Ok tt, w') ->
  exists html,
    w_console w' = w_console w ++ [written_line (filepath_of E variant filename)] /\
    fs_files (w_fs w') =
      prop_set (filepath_of E variant filename) html (fs_files (w_fs w)).
Proof.
  unfold writeVariant. intros H.
  apply bind_inv in H as [(html & w1 & Hhtml & H)|(e & _ & ?)]; [|done].
  assert (Hsame : same_outside w w1).
  { destruct (includes variant "psi").
    - pose proof (generatePsiReportHtml_same E lhr w w (same_outside_refl w)) as G.
      by rewrite Hhtml in G.
    - pose proof (lift_same (generateReportHtml E lhr') w w (same_outside_refl w)) as G.
      by rewrite Hhtml in G. }
  destruct Hsame as [Hfs Hc].
  cbn in H. injection H as <-. simpl. rewrite Hfs, Hc. eauto.
Qed.

Lemma forEach_variants_ok E lhr filename lhr' vs : forall w w',
  forEach (writeVariant E lhr filename lhr') vs w = (Ok tt, w') ->
  exists writes,
    map fst writes = map (fun variant => filepath_of E variant filename) vs /\
    w_console w' = w_console w ++ map written_line (map fst writes) /\
    fs_files (w_fs w') = write_all writes (fs_files (w_fs w)).
Proof.
  induction vs as [|v vs IH]; intros w w' H; simpl in H.
  - injection H as <-. exists []. simpl. by rewrite app_nil_r.
  - apply bind_inv in H as [([] & w1 & Hv & H)|(e & _ & ?)]; [|done].
    apply writeVariant_ok in Hv as (html & Hc1 & Hf1).
    apply IH in H as (writes & Hp & Hc & Hf).
    exists ((filepath_of E v filename, html) :: writes).
    split; [simpl; by rewrite Hp|]. split.
    + rewrite Hc, Hc1, <- app_assoc. done.
    + rewrite Hf, Hf1. done.
Qed.

Lemma forEach_cons {S A} (f : A -> M S unit) x l :
  forEach f (x :: l) = (f x >> forEach f l).
Proof. reflexivity. Qed.

Lemma writeReports_ok E lhr entries : forall w w',
  writeReports E lhr entries w = (Ok tt, w') ->
  exists writes,
    map fst writes = report_paths E (map fst entries) /\
    w_console w' = w_console w ++ map written_line (map fst writes) /\
    fs_files (w_fs w') = write_all writes (fs_files (w_fs w)).
Proof.
  unfold writeReports.
  induction entries as [|[filename lhr'] entries IH]; intros w w' H.
  - injection H as <-. exists []. simpl. by rewrite app_nil_r.
  - rewrite forEach_cons in H.
    apply bind_inv in H as [([] & w1 & Hv & H)|(e & _ & ?)]; [|done].
    apply forEach_variants_ok in Hv as (writes1 & Hp1 & Hc1 & Hf1).
    apply IH in H as (writes & Hp & Hc & Hf).
    exists (writes1 ++ writes).
    split; [|split].
    + rewrite map_app, Hp1, Hp. done.
    + rewrite Hc, Hc1, !map_app, <- app_assoc. done.
    + rewrite Hf, Hf1. unfold write_all. by rewrite fold_left_app.
Qed.

Lemma write_all_get_notin writes : forall files p,
  p ∉ map fst writes ->
  prop_get p (write_all writes files) = prop_get p files.
Proof.
  induction writes as [|[q html] writes IH]; intros files p Hp; [done|].
  simpl in Hp. apply not_elem_of_cons in Hp as [Hne Hp].
  unfold write_all. simpl. fold (write_all writes (prop_set q html files)).
  rewrite IH by done. by apply prop_get_set_ne.
Qed.

Lemma write_all_get_in writes : forall files p,
  p ∈ map fst writes ->
  is_Some (prop_get p (write_all writes files)).
Proof.
  induction writes as [|[q html] writes IH]; intros files p Hp.
  - by apply elem_of_nil in Hp.
  - unfold write_all. simpl. fold (write_all writes (prop_set q html files)).
    destruct (decide (p ∈ map fst writes)) as [Hin|Hnin]; [by apply IH|].
    rewrite write_all_get_notin by done.
    simpl in Hp. apply elem_of_cons in Hp as [->|?]; [|done].
    rewrite prop_get_set_eq. by eexists.
Qed.

Lemma report_paths_filenames E :
  report_paths E (filenames) =
  map (String.append (DIST E))
    ["/english/index.html"; "/⌣.cdt.english/index.html"; "/⌣.psi.english/index.html";
     "/espanol/index.html"; "/⌣.cdt.espanol/index.html"; "/⌣.psi.espanol/index.html";
     "/ɑrabic/index.html"; "/⌣.cdt.ɑrabic/index.html"; "/⌣.psi.ɑrabic/index.html";
     "/xl-accented/index.html"; "/⌣.cdt.xl-accented/index.html";
     "/⌣.psi.xl-accented/index.html";
     "/error/index.html"; "/⌣.cdt.error/index.html"; "/⌣.psi.error/index.html";
     "/single-category/index.html"; "/⌣.cdt.single-category/index.html";
     "/⌣.psi.single-category/index.html"].
Proof. reflexivity. Qed.

(** C9: a run of the loop over the six named Results that completes
    writes eighteen files, one for each name and flavor, each at
    [<DIST>/<prefix><name>/index.html] where the prefix is empty for the
    plain flavor and a fixed tag for the two others; it reports each of
    them on the console and writes no other file. *)
Theorem writeReports_writes_eighteen_files E lhr filenameToLhr w w' :
  map fst filenameToLhr = filenames ->
  writeReports E lhr filenameToLhr w = (Ok tt, w') ->
  let paths := report_paths E filenames in
  length paths = 18 /\
  NoDup paths /\
  (forall p, p ∈ paths <->
     exists filename prefix,
       filename ∈ filenames /\ prefix ∈ [""; "⌣.cdt."; "⌣.psi."] /\
       p = DIST E +:+ "/" +:+ prefix +:+ filename +:+ "/index.html") /\
  w_console w' = w_console w ++ map written_line paths /\
  (forall p, p ∈ paths -> is_Some (prop_get p (fs_files (w_fs w')))) /\
  (forall p, p ∉ paths ->
     prop_get p (fs_files (w_fs w')) = prop_get p (fs_files (w_fs w))).
Proof.
  intros Hnames Hrun.
  apply writeReports_ok in Hrun as (writes & Hp & Hc & Hf).
  rewrite Hnames in Hp. rewrite Hp in Hc. cbv zeta.
  split; [by rewrite report_paths_filenames|].
  split; [|split; [|split; [done|split]]].
  - rewrite report_paths_filenames. apply NoDup_fmap_2; [apply _|].
    apply (bool_decide_unpack _). by vm_compute.
  - intros p. unfold report_paths. rewrite list_elem_of_In, in_flat_map.
    split.
    + intros (filename & Hf1 & Hp1). apply in_map_iff in Hp1 as (prefix & <- & Hpre).
      exists filename, prefix. by rewrite !list_elem_of_In.
    + intros (filename & prefix & Hf1 & Hpre & ->).
      exists filename. rewrite <- !list_elem_of_In. split; [done|].
      apply list_elem_of_In, in_map_iff. exists prefix.
      split; [done|]. by apply list_elem_of_In.
  - intros p Hin. rewrite Hf. apply write_all_get_in. by rewrite Hp.
  - intros p Hin. rewrite Hf. apply write_all_get_notin. by rewrite Hp.
Qed.

(** C3: the markup of the psi flavor does not depend on the Result of the
    entry being written: [generatePsiReportHtml] takes no argument and
    trims the sample Result of the script, whichever entry the loop is
    at.  (The specification has it derived from the entry's own Result.) *)
Theorem writeVariant_psi_ignores_entry E lhr filename lhr1 lhr2 :
  writeVariant E lhr filename lhr1 "⌣.psi." =
  writeVariant E lhr filename lhr2 "⌣.psi.".
Proof. reflexivity. Qed.

(** ** The scratch directory of [generateErrorLHR] *)

Lemma lift_fs {A} (m : M heap A) (phi : fs -> Prop) :
  hoare (fun w => phi (w_fs w)) (lift m)
    (fun _ w => phi (w_fs w)) (fun w => phi (w_fs w)).
Proof.
  intros w Hw. rewrite lift_eq.
  destruct (m (w_heap w)) as [[a|e] h']; simpl; exact Hw.
Qed.

Lemma mkdirSync_creates p :
  hoare (fun _ => True) (mkdirSync p)
    (fun _ w => p ∈ fs_dirs (w_fs w)) (fun _ => False).
Proof.
  intros w _. unfold mkdirSync. simpl.
  case_bool_decide; [done|]. apply elem_of_app. right. by left.
Qed.

Lemma writeFileSync_dirs p data (phi : list string -> Prop) :
  hoare (fun w => phi (fs_dirs (w_fs w))) (writeFileSync p data)
    (fun _ w => phi (fs_dirs (w_fs w))) (fun w => phi (fs_dirs (w_fs w))).
Proof. intros w Hw. exact Hw. Qed.

(** C1, on the code: when the audit run throws, or returns nothing, the
    builder throws and the scratch directory is still there.  (The
    specification has it removed on every way out.) *)
Theorem generateErrorLHR_leaves_scratch_behind E w :
  (forall url flags w0, exists r w1,
      lighthouse E url flags w0 = (r, w1) /\
      w_fs w1 = w_fs w0 /\
      match r with Ok v => truthy v = false | Throw _ => True end) ->
  exists e w',
    generateErrorLHR E w = (Throw e, w') /\ TMP E ∈ fs_dirs (w_fs w').
Proof.
  intros Haudit.
  assert (H : hoare (fun _ => True) (generateErrorLHR E)
                (fun _ _ => False) (fun w => TMP E ∈ fs_dirs (w_fs w))).
  { unfold generateErrorLHR.
    eapply hoare_bind.
    { instantiate (1 := fun _ _ => True). intros w0 _. by rewrite lift_eq. }
    intros artifacts.
    eapply hoare_bind.
    { eapply hoare_conseq; [apply (mkdirSync_creates (TMP E))|done|..];
        [intros ? ? H; exact H|done]. }
    intros ?.
    eapply hoare_bind; [apply (lift_fs _ (fun f => TMP E ∈ fs_dirs f))|].
    intros text. simpl.
    eapply hoare_bind.
    { instantiate (1 := fun _ w => TMP E ∈ fs_dirs (w_fs w)).
      destruct text; [|by intros ? ?].
      apply (writeFileSync_dirs _ _ (fun d => TMP E ∈ d)). }
    intros ?. simpl.
    eapply hoare_bind; [apply (lift_fs _ (fun f => TMP E ∈ fs_dirs f))|].
    intros url. simpl.
    eapply hoare_bind; [apply (lift_fs _ (fun f => TMP E ∈ fs_dirs f))|].
    intros requestedUrl. simpl.
    eapply hoare_bind; [apply (lift_fs _ (fun f => TMP E ∈ fs_dirs f))|].
    intros flags. simpl.
    eapply hoare_bind.
    { instantiate (1 := fun v w => TMP E ∈ fs_dirs (w_fs w) /\ truthy v = false).
      intros w0 Hw0.
      destruct (Haudit requestedUrl flags w0) as (r & w1 & -> & Hfs & Hr).
      rewrite Hfs. by destruct r. }
    intros v. simpl. apply hoare_pure. intros ->. simpl. by intros ? ?. }
  specialize (H w I).
  destruct (generateErrorLHR E w) as [[v|e] w']; [done|eauto].
Qed.

(** ** The overrides of [generateErrorLHR] *)

Lemma generateErrorLHR_phases E w :
  generateErrorLHR E w =
  (let* p := prepare_artifacts E in
   let* r := lighthouse E (fst p) (snd p) in
   inject_warnings E r) w.
Proof.
  unfold generateErrorLHR, prepare_artifacts, inject_warnings, bind.
  repeat match goal with
         | |- context [match ?x with _ => _ end] =>
             match x with
             | lighthouse _ _ _ _ => fail 1
             | _ => destruct x as [[?|?] ?] eqn:?; simpl
             end
         end; try reflexivity.
Qed.

Lemma length_put l k x h : length (put l k x h) = length h.
Proof. unfold put. destruct (h !! l); [apply length_insert|done]. Qed.

Lemma set_prop_put h l k x :
  l < length h -> set_prop (VRef l) k x h = (Ok tt, put l k x h).
Proof.
  intros Hl. unfold set_prop, put.
  destruct (lookup_lt_is_Some_2 h l Hl) as [o ->]. done.
Qed.

Lemma get_prop_field h v k :
  is_object h v -> get_prop v k h = (Ok (field h v k), h).
Proof.
  destruct v as [| | | | |l]; simpl; try done.
  intros [o Ho]. by rewrite Ho.
Qed.

Lemma field_put l k x h l' k' :
  l < length h ->
  field (put l k x h) (VRef l') k' =
  if bool_decide (l' = l) && String.eqb k' k then x else field h (VRef l') k'.
Proof.
  intros Hl. unfold put, field.
  destruct (lookup_lt_is_Some_2 h l Hl) as [o Ho]. rewrite Ho.
  case_bool_decide as Heq; simpl.
  - subst l'. rewrite list_lookup_insert_eq by done. rewrite Ho. simpl.
    destruct (String.eqb k' k) eqn:E.
    + apply String.eqb_eq in E as ->. by rewrite prop_get_set_eq.
    + apply String.eqb_neq in E. by rewrite prop_get_set_ne.
  - by rewrite list_lookup_insert_ne.
Qed.

Lemma elems_put l k x h v : elems (put l k x h) v = elems h v.
Proof.
  unfold put, elems. destruct (h !! l) as [o|] eqn:Ho; [|done].
  destruct v as [| | | | |l']; try done.
  destruct (decide (l' = l)) as [->|Hne].
  - rewrite list_lookup_insert_eq by by eapply lookup_lt_Some. by rewrite Ho.
  - by rewrite list_lookup_insert_ne.
Qed.

Lemma field_snoc h o l k :
  l < length h -> field (h ++ [o]) (VRef l) k = field h (VRef l) k.
Proof. intros Hl. unfold field. by rewrite lookup_app_l. Qed.

Lemma elems_snoc h o l :
  l < length h -> elems (h ++ [o]) (VRef l) = elems h (VRef l).
Proof. intros Hl. unfold elems. by rewrite lookup_app_l. Qed.

Lemma elems_new h es : elems (h ++ [array es]) (VRef (length h)) = es.
Proof. unfold elems. by rewrite list_lookup_middle. Qed.

Lemma is_object_lt h l : is_object h (VRef l) <-> l < length h.
Proof. simpl. apply lookup_lt_is_Some. Qed.

Lemma field_put_eq l k x h :
  l < length h -> field (put l k x h) (VRef l) k = x.
Proof.
  intros Hl. rewrite field_put by done.
  by rewrite bool_decide_eq_true_2, String.eqb_refl.
Qed.

Lemma field_put_key_ne l k x h l' k' :
  String.eqb k' k = false ->
  field (put l k x h) (VRef l') k' = field h (VRef l') k'.
Proof.
  intros Hk. unfold put. destruct (h !! l) as [o|] eqn:Ho; [|done].
  unfold field. destruct (decide (l' = l)) as [->|Hne].
  - rewrite list_lookup_insert_eq by by eapply lookup_lt_Some.
    rewrite Ho. simpl. apply String.eqb_neq in Hk. by rewrite prop_get_set_ne.
  - by rewrite list_lookup_insert_ne.
Qed.

Lemma field_put_loc_ne l k x h l' k' :
  l' <> l -> field (put l k x h) (VRef l') k' = field h (VRef l') k'.
Proof.
  intros Hne. unfold put. destruct (h !! l) as [o|] eqn:Ho; [|done].
  unfold field. by rewrite list_lookup_insert_ne.
Qed.

Ltac len2 :=
  repeat first [rewrite length_put | rewrite length_app]; simpl; lia.

Ltac wstep lem :=
  erewrite bind_ok; [|apply lift_ok; cbn [w_heap]; apply lem];
  cbn [w_heap w_fs w_console].

Ltac fsimp :=
  repeat first
    [ rewrite field_put_eq by len2
    | rewrite field_put_key_ne by reflexivity
    | rewrite field_put_loc_ne by (done || lia)
    | rewrite field_snoc by len2 ].

Lemma length_warn l ws h : length (warn l ws h) = S (length h).
Proof. unfold warn. len2. Qed.

Lemma length_pass l h : length (pass l h) = length h.
Proof. unfold pass. by rewrite !length_put. Qed.

Lemma field_warn_same l ws h :
  l < length h -> field (warn l ws h) (VRef l) "warnings" = VRef (length h).
Proof. intros Hl. unfold warn. apply field_put_eq. len2. Qed.

Lemma field_warn_key l ws h l' k :
  l' < length h -> String.eqb k "warnings" = false ->
  field (warn l ws h) (VRef l') k = field h (VRef l') k.
Proof.
  intros Hl Hk. unfold warn. rewrite field_put_key_ne by done.
  by apply field_snoc.
Qed.

Lemma field_warn_loc l ws h l' k :
  l' < length h -> l' <> l ->
  field (warn l ws h) (VRef l') k = field h (VRef l') k.
Proof.
  intros Hl Hk. unfold warn. rewrite field_put_loc_ne by done.
  by apply field_snoc.
Qed.

Lemma elems_warn_new l ws h : elems (warn l ws h) (VRef (length h)) = ws.
Proof. unfold warn. rewrite elems_put. apply elems_new. Qed.

Lemma elems_warn_old l ws h l' :
  l' < length h -> elems (warn l ws h) (VRef l') = elems h (VRef l').
Proof. intros Hl. unfold warn. rewrite elems_put. by apply elems_snoc. Qed.

Lemma field_pass_same l h :
  l < length h ->
  field (pass l h) (VRef l) "score" = VNum 1%float /\
  field (pass l h) (VRef l) "scoreDisplayMode" = VStr "binary" /\
  field (pass l h) (VRef l) "errorMessage" = VUndef /\
  field (pass l h) (VRef l) "warnings" = field h (VRef l) "warnings".
Proof.
  intros Hl. unfold pass. repeat split.
  - apply field_put_eq. len2.
  - rewrite field_put_key_ne by done. apply field_put_eq. len2.
  - rewrite !field_put_key_ne by done. by apply field_put_eq.
  - by rewrite !field_put_key_ne by done.
Qed.

Lemma field_pass_loc l h l' k :
  l' <> l -> field (pass l h) (VRef l') k = field h (VRef l') k.
Proof. intros Hne. unfold pass. by rewrite !field_put_loc_ne by done. Qed.

Lemma field_pass_key l h l' k :
  String.eqb k "score" = false ->
  String.eqb k "scoreDisplayMode" = false ->
  String.eqb k "errorMessage" = false ->
  field (pass l h) (VRef l') k = field h (VRef l') k.
Proof. intros. unfold pass. by rewrite !field_put_key_ne by done. Qed.

Lemma elems_pass l h v : elems (pass l h) v = elems h v.
Proof. unfold pass. by rewrite !elems_put. Qed.

Lemma overrides_readings h fd oi ati ws wo wa :
  fd < length h -> oi < length h -> ati < length h ->
  fd <> oi -> fd <> ati ->
  let hf := pass ati (warn ati wa (pass oi (warn oi wo (warn fd ws h)))) in
  (forall l k,
     l < length h ->
     String.eqb k "warnings" = false -> String.eqb k "score" = false ->
     String.eqb k "scoreDisplayMode" = false ->
     String.eqb k "errorMessage" = false ->
     field hf (VRef l) k = field h (VRef l) k) /\
  (forall a, a = oi \/ a = ati ->
     field hf (VRef a) "score" = VNum 1%float /\
     field hf (VRef a) "scoreDisplayMode" = VStr "binary" /\
     field hf (VRef a) "errorMessage" = VUndef /\
     (elems hf (field hf (VRef a) "warnings") = wo \/
      elems hf (field hf (VRef a) "warnings") = wa)) /\
  elems hf (field hf (VRef fd) "warnings") = ws /\
  field hf (VRef fd) "score" = field h (VRef fd) "score".
Proof.
  intros Hfd Hoi Hati Hne1 Hne2. cbv zeta.
  set (ha := warn fd ws h). set (hb := warn oi wo ha).
  set (hc := pass oi hb). set (hd := warn ati wa hc).
  assert (La : length ha = S (length h)) by apply length_warn.
  assert (Lb : length hb = S (length ha)) by apply length_warn.
  assert (Lc : length hc = length hb) by apply length_pass.
  assert (Ld : length hd = S (length hc)) by apply length_warn.
  pose proof (field_warn_key fd ws h) as Ka. fold ha in Ka.
  pose proof (field_warn_loc fd ws h) as Na. fold ha in Na.
  pose proof (field_warn_same fd ws h) as Sa. fold ha in Sa.
  pose proof (elems_warn_new fd ws h) as Ea. fold ha in Ea.
  pose proof (field_warn_key oi wo ha) as Kb. fold hb in Kb.
  pose proof (field_warn_loc oi wo ha) as Nb. fold hb in Nb.
  pose proof (field_warn_same oi wo ha) as Sb. fold hb in Sb.
  pose proof (elems_warn_new oi wo ha) as Eb. fold hb in Eb.
  pose proof (elems_warn_old oi wo ha) as Ob. fold hb in Ob.
  pose proof (field_pass_key oi hb) as Kc. fold hc in Kc.
  pose proof (field_pass_loc oi hb) as Nc. fold hc in Nc.
  pose proof (field_pass_same oi hb) as Sc. fold hc in Sc.
  pose proof (elems_pass oi hb) as Ec. fold hc in Ec.
  pose proof (field_warn_key ati wa hc) as Kd. fold hd in Kd.
  pose proof (field_warn_loc ati wa hc) as Nd. fold hd in Nd.
  pose proof (field_warn_same ati wa hc) as Sd. fold hd in Sd.
  pose proof (elems_warn_new ati wa hc) as Ed. fold hd in Ed.
  pose proof (elems_warn_old ati wa hc) as Od. fold hd in Od.
  pose proof (field_pass_key ati hd) as Ke.
  pose proof (field_pass_loc ati hd) as Ne.
  pose proof (field_pass_same ati hd) as Se.
  pose proof (elems_pass ati hd) as Ee.
  clearbody ha hb hc hd.
  assert (Hati4 :
    field (pass ati hd) (VRef ati) "score" = VNum 1%float /\
    field (pass ati hd) (VRef ati) "scoreDisplayMode" = VStr "binary" /\
    field (pass ati hd) (VRef ati) "errorMessage" = VUndef /\
    elems (pass ati hd) (field (pass ati hd) (VRef ati) "warnings") = wa).
  { destruct Se as (? & ? & ? & ->); [lia|]. repeat split; try done.
    rewrite Sd by lia. by rewrite Ee, Ed. }
  repeat split.
  - intros l k ? ? ? ? ?.
    rewrite Ke, Kd, Kc, Kb, Ka by (done || lia). done.
  - destruct H as [->| ->]; [|apply Hati4].
    destruct (decide (oi = ati)) as [->|?]; [apply Hati4|].
    rewrite Ne, Nd by (done || lia). by destruct Sc as (? & _); [lia|].
  - destruct H as [->| ->]; [|apply Hati4].
    destruct (decide (oi = ati)) as [->|?]; [apply Hati4|].
    rewrite Ne, Nd by (done || lia). by destruct Sc as (_ & ? & _); [lia|].
  - destruct H as [->| ->]; [|apply Hati4].
    destruct (decide (oi = ati)) as [->|?]; [apply Hati4|].
    rewrite Ne, Nd by (done || lia). by destruct Sc as (_ & _ & ? & _); [lia|].
  - destruct H as [->| ->]; [|right; apply Hati4].
    destruct (decide (oi = ati)) as [->|?]; [right; apply Hati4|]. left.
    rewrite Ne, Nd by (done || lia).
    destruct Sc as (_ & _ & _ & ->); [lia|]. rewrite Sb by lia.
    rewrite Ee, Od, Ec, Eb by lia. done.
  - rewrite Ne, Nd, Nc, Nb, Sa by (done || lia).
    rewrite Ee, Od, Ec, Ob, Ea by lia. done.
  - rewrite Ne, Nd, Nc, Nb, Ka by (done || lia). done.
Qed.

(** C8: when the audit run returns a Result with the three audits, the
    builder returns that Result with [offscreen-images] and
    [apple-touch-icon] set to score 1, display mode ['binary'], an
    [errorMessage] that is [undefined] and one warning each, and with the
    two fixed warnings on [font-display], whose score is the one the audit
    run gave it. *)
Theorem generateErrorLHR_overrides_audits E w w0 url flags rr w1 fd oi ati :
  prepare_artifacts E w = (Ok (url, flags), w0) ->
  lighthouse E url flags w0 = (Ok rr, w1) ->
  error_audits (w_heap w1) rr fd oi ati ->
  exists w2,
    generateErrorLHR E w = (Ok (field (w_heap w1) rr "lhr"), w2) /\
    let h1 := w_heap w1 in
    let h2 := w_heap w2 in
    let audits := field h2 (field h1 rr "lhr") "audits" in
    field h2 audits "font-display" = VRef fd /\
    field h2 audits "offscreen-images" = VRef oi /\
    field h2 audits "apple-touch-icon" = VRef ati /\
    (forall a, a = oi \/ a = ati ->
       field h2 (VRef a) "score" = VNum 1%float /\
       field h2 (VRef a) "scoreDisplayMode" = VStr "binary" /\
       field h2 (VRef a) "errorMessage" = VUndef /\
       length (elems h2 (field h2 (VRef a) "warnings")) = 1) /\
    length (elems h2 (field h2 (VRef fd) "warnings")) = 2 /\
    Forall (fun warning => exists s, warning = VStr s /\
              String.prefix "Lighthouse was unable to automatically check the font-display value" s = true)
           (elems h2 (field h2 (VRef fd) "warnings")) /\
    field h2 (VRef fd) "score" = field h1 (VRef fd) "score".
Proof.
  intros Hprep Haudit (Hrr & Hlhr & Haud & Hfd & Hoi & Hati & ? & ? & ? & ? & ?).
  destruct w1 as [h1 f1 c1]. cbn [w_heap] in *.
  destruct rr as [| | | | |lrr]; try done.
  destruct (field h1 (VRef lrr) "lhr") as [| | | | |llhr] eqn:Elhr; try done.
  destruct (field h1 (VRef llhr) "audits") as [| | | | |laud] eqn:Eaud; try done.
  apply is_object_lt in Hrr, Hlhr, Haud.
  rewrite generateErrorLHR_phases.
  rewrite (bind_ok _ _ _ _ _ Hprep). simpl fst. simpl snd.
  rewrite (bind_ok _ _ _ _ _ Haudit).
  unfold inject_warnings.
  change (negb (truthy (VRef lrr))) with false. cbv iota.
  wstep get_prop_field; [|by apply is_object_lt]. rewrite Elhr.
  wstep get_prop_field; [|by apply is_object_lt]. rewrite Eaud.
  wstep get_prop_field; [|by apply is_object_lt]. rewrite Hfd.
  wstep alloc_eq.
  wstep set_prop_put; [|len2].
  wstep get_prop_field; [|apply is_object_lt; len2]. fsimp. rewrite Eaud.
  wstep get_prop_field; [|apply is_object_lt; len2]. fsimp. rewrite Hoi.
  wstep alloc_eq.
  wstep set_prop_put; [|len2]. wstep set_prop_put; [|len2].
  wstep set_prop_put; [|len2]. wstep set_prop_put; [|len2].
  wstep get_prop_field; [|apply is_object_lt; len2]. fsimp. rewrite Eaud.
  wstep get_prop_field; [|apply is_object_lt; len2]. fsimp. rewrite Hati.
  wstep alloc_eq.
  wstep set_prop_put; [|len2]. wstep set_prop_put; [|len2].
  wstep set_prop_put; [|len2]. wstep set_prop_put; [|len2].
  eexists (mkWorld
             (pass ati (warn ati _ (pass oi (warn oi _ (warn fd _ h1)))))
             _ _).
  split; [reflexivity|]. cbn [w_heap].
  edestruct (overrides_readings h1 fd oi ati) as (Hkeep & Hfour & Hfdw & Hfds);
    [done..|].
  rewrite (Hkeep llhr "audits") by done. rewrite Eaud.
  rewrite !Hkeep by done. rewrite Hfd, Hoi, Hati.
  repeat split; try done.
  1-3: by destruct (Hfour a) as (? & ? & ? & _).
  - by destruct (Hfour a) as (_ & _ & _ & [-> | ->]).
  - by rewrite Hfdw.
  - rewrite Hfdw.
    repeat constructor; eexists; (split; [reflexivity|]); reflexivity.
Qed.

(** ** The plugin category *)

Lemma own_keys_put_in l k x h :
  l < length h -> k ∈ own_keys (put l k x h) (VRef l).
Proof.
  intros Hl. unfold put, own_keys.
  destruct (lookup_lt_is_Some_2 h l Hl) as [o Ho]. rewrite Ho.
  rewrite list_lookup_insert_eq by done. simpl.
  destruct (decide (k ∈ keys (prop_set k x (o_props o)))) as [Hin|Hnin]; [done|].
  apply prop_get_None_keys in Hnin. by rewrite prop_get_set_eq in Hnin.
Qed.

Lemma build_filenameToLhr_english E lhr errorLhr w entries w' :
  build_filenameToLhr E lhr errorLhr w = (Ok entries, w') ->
  prop_get "english" entries = Some lhr /\ map fst entries = filenames.
Proof.
  unfold build_filenameToLhr. intros H.
  repeat (apply bind_inv in H as [(? & ? & _ & H)|(? & _ & ?)]; [|done]).
  by injection H as <- _.
Qed.

(** C10: [addPluginCategory] edits the sample Result in place.  The
    categories object of the Result is the same object as before; it now
    has a ['lighthouse-plugin-someplugin'] entry, a new object with that
    id, the title ['Plugin'], the score 0.5 and an empty list of audit
    references; its other entries and all other objects are as they
    were.  [main] does this first: the rest of the run, the translator
    and the renderers included, works on the store so changed, and the
    ['english'] entry of the reports is the sample Result itself. *)
Theorem addPluginCategory_edits_in_place h l lc :
  l < length h -> lc < length h ->
  field h (VRef l) "categories" = VRef lc ->
  exists h',
    addPluginCategory (VRef l) h = (Ok tt, h') /\
    field h' (VRef l) "categories" = VRef lc /\
    (forall l' o, l' <> lc -> h !! l' = Some o -> h' !! l' = Some o) /\
    (forall k, String.eqb k "lighthouse-plugin-someplugin" = false ->
               field h' (VRef lc) k = field h (VRef lc) k) /\
    ("lighthouse-plugin-someplugin" ∈ own_keys h' (VRef lc)) /\
    (let plugin := field h' (VRef lc) "lighthouse-plugin-someplugin" in
     is_object h' plugin /\ ~ is_object h plugin /\
     field h' plugin "id" = VStr "lighthouse-plugin-someplugin" /\
     field h' plugin "title" = VStr "Plugin" /\
     field h' plugin "score" = VNum 0.5%float /\
     is_object h' (field h' plugin "auditRefs") /\
     elems h' (field h' plugin "auditRefs") = []) /\
    (forall E w, w_heap w = h ->
       main E (VRef l) w =
       (let* errorLhr := generateErrorLHR E in
        let* filenameToLhr := build_filenameToLhr E (VRef l) errorLhr in
        writeReports E (VRef l) filenameToLhr)
         (mkWorld h' (w_fs w) (w_console w))) /\
    (forall E errorLhr w filenameToLhr w',
       build_filenameToLhr E (VRef l) errorLhr w = (Ok filenameToLhr, w') ->
       prop_get "english" filenameToLhr = Some (VRef l)).
Proof.
  intros Hl Hlc Hcat.
  set (plugin := plain [("id", VStr "lighthouse-plugin-someplugin");
                        ("title", VStr "Plugin");
                        ("score", VNum 0.5%float);
                        ("auditRefs", VRef (length h))]).
  set (h2 := (h ++ [array []]) ++ [plugin]).
  assert (Hlen2 : length h2 = S (S (length h))) by (unfold h2; len2).
  assert (Hrun : addPluginCategory (VRef l) h =
                 (Ok tt, put lc "lighthouse-plugin-someplugin"
                           (VRef (S (length h))) h2)).
  { unfold addPluginCategory.
    erewrite bind_ok; [|apply get_prop_field; by apply is_object_lt].
    rewrite Hcat. unfold new_array, new_object.
    erewrite bind_ok; [|apply alloc_eq].
    erewrite bind_ok; [|apply alloc_eq].
    rewrite set_prop_put by len2.
    replace (length (h ++ [array []])) with (S (length h)) by len2. done. }
  eexists. split; [exact Hrun|].
  assert (Hnew : put lc "lighthouse-plugin-someplugin" (VRef (S (length h))) h2
                   !! S (length h) = Some plugin).
  { unfold put. destruct (lookup_lt_is_Some_2 h2 lc ltac:(lia)) as [o ->].
    rewrite list_lookup_insert_ne by lia. unfold h2.
    apply list_lookup_middle. len2. }
  assert (Harr : put lc "lighthouse-plugin-someplugin" (VRef (S (length h))) h2
                   !! length h = Some (array [])).
  { unfold put. destruct (lookup_lt_is_Some_2 h2 lc ltac:(lia)) as [o ->].
    rewrite list_lookup_insert_ne by lia. unfold h2.
    rewrite lookup_app_l by len2. by apply list_lookup_middle. }
  assert (Hold : forall l' k, l' < length h ->
            field h2 (VRef l') k = field h (VRef l') k).
  { intros l' k ?. unfold h2. rewrite !field_snoc by len2. done. }
  repeat split.
  - rewrite field_put_key_ne by done. by rewrite Hold.
  - intros l' o Hne Ho. unfold put.
    destruct (lookup_lt_is_Some_2 h2 lc ltac:(lia)) as [o' ->].
    rewrite list_lookup_insert_ne by done. unfold h2.
    pose proof (lookup_lt_Some _ _ _ Ho).
    by rewrite !lookup_app_l by len2.
  - intros k Hk. rewrite field_put_key_ne by done. by apply Hold.
  - apply own_keys_put_in. lia.
  - rewrite field_put_eq by lia. simpl. by rewrite Hnew.
  - rewrite field_put_eq by lia. simpl.
    intros [o Ho]. apply lookup_lt_Some in Ho. lia.
  - rewrite field_put_eq by lia. unfold field at 1. by rewrite Hnew.
  - rewrite field_put_eq by lia. unfold field at 1. by rewrite Hnew.
  - rewrite field_put_eq by lia. unfold field at 1. by rewrite Hnew.
  - rewrite field_put_eq by lia. unfold field at 1. rewrite Hnew. simpl.
    by rewrite Harr.
  - rewrite field_put_eq by lia. unfold field at 1. rewrite Hnew. simpl.
    unfold elems. by rewrite Harr.
  - intros E w <-. unfold main.
    by rewrite (bind_ok _ _ _ _ _ (lift_ok _ _ _ _ Hrun)).
  - intros E errorLhr w entries w' H.
    by apply build_filenameToLhr_english in H as [? _].
Qed.

(** ** The final screenshot *)

Lemma find_None_Forall {A} (f : A -> bool) (l : list A) :
  List.find f l = None <-> Forall (fun x => f x = false) l.
Proof.
  induction l as [|x l IH]; simpl.
  - split; [constructor|done].
  - destruct (f x) eqn:E.
    + split; [done|]. intros H. inversion H; subst. congruence.
    + rewrite IH. split; [by constructor|]. intros H. by inversion H.
Qed.

(** C7: [_getFinalScreenshot] returns [null] exactly when the performance
    category has no audit reference with the id ['final-screenshot'], or
    the first such reference has no result, or its result has the display
    mode ['error'], or its details are missing or not of the type
    ['screenshot']; otherwise it returns the data of the details.  With
    the display mode ['error'] it returns [null]; with ['binary'] and
    screenshot details whose data is ['abc'] it returns ['abc']. *)
Theorem getFinalScreenshot_null_exactly (perfCategory : Psi.Category) :
  let found :=
    List.find (fun audit => String.eqb (Psi.id audit) "final-screenshot")
      (Psi.auditRefs perfCategory) in
  (Psi._getFinalScreenshot perfCategory = VNull <->
     found = None \/
     exists auditRef, found = Some auditRef /\
       (Psi.result auditRef = None \/
        exists res, Psi.result auditRef = Some res /\
          (Psi.scoreDisplayMode res = "error" \/
           Psi.details res = None \/
           exists d, Psi.details res = Some d /\ Psi.type d <> "screenshot"))) /\
  (found = None <->
     Forall (fun audit => Psi.id audit <> "final-screenshot")
       (Psi.auditRefs perfCategory)) /\
  (forall auditRef res d,
     found = Some auditRef -> Psi.result auditRef = Some res ->
     Psi.scoreDisplayMode res <> "error" ->
     Psi.details res = Some d -> Psi.type d = "screenshot" ->
     Psi._getFinalScreenshot perfCategory =
       match Psi.data d with Some s => VStr s | None => VUndef end) /\
  Psi._getFinalScreenshot
    (Psi.mkCategory
       [Psi.mkAuditRef "final-screenshot"
          (Some (Psi.mkAuditResult "error"
                   (Some (Psi.mkDetails "screenshot" (Some "abc")))))])
    = VNull /\
  Psi._getFinalScreenshot
    (Psi.mkCategory
       [Psi.mkAuditRef "final-screenshot"
          (Some (Psi.mkAuditResult "binary"
                   (Some (Psi.mkDetails "screenshot" (Some "abc")))))])
    = VStr "abc".
Proof.
  cbv zeta. unfold Psi._getFinalScreenshot.
  split; [|split; [|split; [|split; reflexivity]]].
  - destruct (List.find _ _) as [auditRef|]; [|by split; [left|]].
    split.
    + intros H. right. exists auditRef. split; [done|].
      destruct (Psi.result auditRef) as [res|]; [|by left].
      right. exists res. split; [done|].
      destruct (String.eqb_spec (Psi.scoreDisplayMode res) "error"); [by left|].
      right. destruct (Psi.details res) as [d|]; [|by left].
      right. exists d. split; [done|].
      destruct (String.eqb_spec (Psi.type d) "screenshot"); [|done].
      simpl in H. by destruct (Psi.data d).
    + intros [?|(a & [= <-] & Ha)]; [done|].
      destruct Ha as [->|(res & -> & Hres)]; [done|].
      destruct Hres as [->|[->|(d & -> & Hd)]]; [done| |].
      * by destruct (String.eqb _ _).
      * destruct (String.eqb _ _); [done|].
        by apply String.eqb_neq in Hd as ->.
  - rewrite find_None_Forall. apply Forall_iff. intros audit.
    apply String.eqb_neq.
  - intros auditRef res d -> -> Hmode -> Htype.
    apply String.eqb_neq in Hmode as ->. rewrite Htype. done.
Qed.

(** ** The theorems on the sample inputs *)

Lemma sample_repr : repr sample_store sample_lhr sample_tree.
Proof. repeat econstructor. Qed.

Lemma sample_has_performance : has_performance sample_tree.
Proof.
  eexists _, _, _, _, _. repeat split; try reflexivity.
  repeat constructor; eexists _, _; split; reflexivity.
Qed.

Lemma bare_repr : repr bare_store bare_lhr bare_tree.
Proof. repeat econstructor. Qed.

Lemma bare_lacks_performance : lacks_performance bare_tree.
Proof. eexists _, _, _. repeat split; reflexivity. Qed.

(** C2, counterexample: a Result with an accessibility category only;
    [tweakLhrForPsi] throws on it. *)
Lemma tweakLhrForPsi_not_total :
  repr bare_store bare_lhr bare_tree /\
  prop_get "performance" (tree_props (tree_get bare_tree "categories")) = None /\
  fst (tweakLhrForPsi bare_lhr bare_store) =
    Throw (TypeError "Cannot read properties of undefined or null: auditRefs").
Proof.
  split; [exact bare_repr|]. split; [reflexivity|]. vm_compute. reflexivity.
Qed.

(** C2, witness: the amended statement on the two sample Results. *)
Lemma tweakLhrForPsi_returns_on_sample :
  (exists clone h',
     tweakLhrForPsi sample_lhr sample_store = (Ok clone, h') /\
     own_keys h' (field h' clone "categories") = ["performance"]) /\
  (exists msg h',
     tweakLhrForPsi bare_lhr bare_store = (Throw (TypeError msg), h')).
Proof.
  split.
  - apply (tweakLhrForPsi_returns_with_performance
             sample_store sample_lhr sample_tree sample_repr).
    exact sample_has_performance.
  - apply (tweakLhrForPsi_returns_with_performance
             bare_store bare_lhr bare_tree bare_repr).
    exact bare_lacks_performance.
Defined.

(** C4, witness: the sample Result, which lists two budget audits. *)
Lemma tweakLhrForPsi_removes_budgets_on_sample :
  exists clone h',
    tweakLhrForPsi sample_lhr sample_store = (Ok clone, h') /\
    let categories := field h' clone "categories" in
    let performance := field h' categories "performance" in
    ("performance-budget" ∉ own_keys h' (field h' clone "audits")) /\
    Forall (fun audit => exists id,
              field h' audit "id" = VStr id /\ endsWith id "-budget" = false)
           (elems h' (field h' performance "auditRefs")) /\
    own_keys h' categories = ["performance"].
Proof.
  exact (tweakLhrForPsi_removes_budgets sample_store sample_lhr sample_tree
           sample_repr sample_has_performance).
Defined.

(** C5, witness: the sample Result trimmed twice. *)
Lemma tweakLhrForPsi_idempotent_on_sample :
  exists once h1 twice h2 result categories,
    tweakLhrForPsi sample_lhr sample_store = (Ok once, h1) /\
    tweakLhrForPsi once h1 = (Ok twice, h2) /\
    repr h1 once result /\ repr h2 twice result /\
    repr h1 (field h1 once "categories") categories /\
    repr h2 (field h2 twice "categories") categories.
Proof.
  exact (tweakLhrForPsi_idempotent sample_store sample_lhr sample_tree
           sample_repr sample_has_performance).
Defined.

(** C1, witness: an audit run that throws. *)
Lemma generateErrorLHR_leaves_scratch_behind_on_throw :
  exists e w',
    generateErrorLHR failing_env sample_world = (Throw e, w') /\
    TMP failing_env ∈ fs_dirs (w_fs w').
Proof.
  apply (generateErrorLHR_leaves_scratch_behind failing_env sample_world).
  intros url flags w0. eexists _, _. split; [reflexivity|]. by split.
Defined.

(** C8, witness: an audit run that returns the three audits as errors. *)
Lemma generateErrorLHR_overrides_audits_on_sample :
  exists w2,
    generateErrorLHR sample_env sample_world = (Ok (VRef 28), w2) /\
    let h2 := w_heap w2 in
    (forall a, a = 25 \/ a = 26 ->
       field h2 (VRef a) "score" = VNum 1%float /\
       field h2 (VRef a) "scoreDisplayMode" = VStr "binary" /\
       field h2 (VRef a) "errorMessage" = VUndef /\
       length (elems h2 (field h2 (VRef a) "warnings")) = 1) /\
    length (elems h2 (field h2 (VRef 24) "warnings")) = 2 /\
    field h2 (VRef 24) "score" = VNull.
Proof.
  destruct (generateErrorLHR_overrides_audits sample_env sample_world
              sample_prepared (VStr "http://fakeurl.com") (VRef 23) (VRef 29)
              sample_audited 24 25 26)
    as (w2 & Hrun & _ & _ & _ & Hpass & Hlen & _ & Hscore).
  - vm_compute. reflexivity.
  - vm_compute. reflexivity.
  - unfold error_audits.
    split; [vm_compute; eexists; reflexivity|].
    split; [vm_compute; eexists; reflexivity|].
    split; [vm_compute; eexists; reflexivity|].
    split; [vm_compute; reflexivity|].
    split; [vm_compute; reflexivity|].
    split; [vm_compute; reflexivity|].
    split; [vm_compute; lia|].
    split; [vm_compute; lia|].
    split; [vm_compute; lia|].
    split; lia.
  - exists w2. split; [exact Hrun|].
    split; [exact Hpass|]. split; [exact Hlen|].
    rewrite Hscore. vm_compute. reflexivity.
Defined.

(** C9, witness: the loop on the sample world. *)
Lemma writeReports_writes_eighteen_files_on_sample :
  let paths := report_paths sample_env filenames in
  length paths = 18 /\
  NoDup paths /\
  w_console sample_written = w_console sample_world ++ map written_line paths /\
  (forall p, p ∈ paths -> is_Some (prop_get p (fs_files (w_fs sample_written)))) /\
  (forall p, p ∉ paths ->
     prop_get p (fs_files (w_fs sample_written)) =
     prop_get p (fs_files (w_fs sample_world))).
Proof.
  destruct (writeReports_writes_eighteen_files sample_env sample_lhr
              sample_filenameToLhr sample_world sample_written)
    as (Hlen & Hnd & _ & Hc & Hin & Hout).
  - reflexivity.
  - vm_compute. reflexivity.
  - split; [exact Hlen|]. split; [exact Hnd|]. split; [exact Hc|].
    split; [exact Hin|exact Hout].
Defined.

(** C10, witness: the sample Result. *)
Lemma addPluginCategory_edits_sample_in_place :
  exists h',
    addPluginCategory sample_lhr sample_store = (Ok tt, h') /\
    field h' sample_lhr "categories" = field sample_store sample_lhr "categories" /\
    ("lighthouse-plugin-someplugin" ∈ own_keys h' (VRef 8)) /\
    field h' (field h' (VRef 8) "lighthouse-plugin-someplugin") "score" =
      VNum 0.5%float.
Proof.
  destruct (addPluginCategory_edits_in_place sample_store 13 8)
    as (h' & Hrun & Hcat & _ & _ & Hkey & (_ & _ & _ & _ & Hscore & _) & _).
  - vm_compute. lia.
  - vm_compute. lia.
  - reflexivity.
  - exists h'. split; [exact Hrun|]. split; [exact Hcat|].
    split; [exact Hkey|exact Hscore].
Defined.

(** * Further properties of the build script and of the PSI helper *)

(** ** The scratch directory on each way out of [generateErrorLHR] *)

Lemma prop_get_filter {A} (P : string -> bool) (ps : list (string * A)) k :
  prop_get k (filter (fun e => P (fst e) = true) ps) =
  if P k then prop_get k ps else None.
Proof.
  induction ps as [|[k' v] ps IH]; simpl; [by destruct (P k)|].
  rewrite filter_cons. simpl.
  destruct (String.eqb k k') eqn:Ek.
  - apply String.eqb_eq in Ek as <-.
    destruct (decide (P k = true)) as [Hp|Hp].
    + simpl. by rewrite String.eqb_refl, Hp.
    + rewrite IH. by destruct (P k).
  - destruct (decide (P k' = true)); [simpl; by rewrite Ek|done].
Qed.

Lemma rmdirSync_removes p w q :
  String.prefix p q = true ->
  (q ∉ fs_dirs (w_fs (snd (rmdirSync p w)))) /\
  prop_get q (fs_files (w_fs (snd (rmdirSync p w)))) = None.
Proof.
  intros Hq. simpl. split.
  - rewrite list_elem_of_filter. rewrite Hq. simpl. by intros [? _].
  - rewrite (prop_get_filter (fun q => negb (String.prefix p q))).
    by rewrite Hq.
Qed.

Lemma rmdirSync_keeps p w q :
  String.prefix p q = false ->
  (q ∈ fs_dirs (w_fs (snd (rmdirSync p w))) <-> q ∈ fs_dirs (w_fs w)) /\
  prop_get q (fs_files (w_fs (snd (rmdirSync p w)))) =
  prop_get q (fs_files (w_fs w)).
Proof.
  intros Hq. simpl. split.
  - rewrite list_elem_of_filter. rewrite Hq. simpl. tauto.
  - rewrite (prop_get_filter (fun q => negb (String.prefix p q))).
    by rewrite Hq.
Qed.

Lemma lift_world {A} (m : M heap A) (phi : fs -> list string -> Prop) :
  hoare (fun w => phi (w_fs w) (w_console w)) (lift m)
    (fun _ w => phi (w_fs w) (w_console w))
    (fun w => phi (w_fs w) (w_console w)).
Proof.
  intros w Hw. rewrite lift_eq.
  destruct (m (w_heap w)) as [[a|e] h']; simpl; exact Hw.
Qed.


(** ** A failed audit run stops the whole build *)

(** X2: when the audit run throws, or returns nothing, [main] throws
    before it writes any report: nothing is printed, and the only file
    that was created or changed is the artifacts file of the scratch
    directory. *)
Theorem main_writes_no_report_when_audit_fails E lhr w :
  (forall url flags w0, exists r w1,
      lighthouse E url flags w0 = (r, w1) /\
      same_outside w0 w1 /\
      match r with Ok v => truthy v = false | Throw _ => True end) ->
  exists e w',
    main E lhr w = (Throw e, w') /\
    w_console w' = w_console w /\
    (forall p, p <> TMP E +:+ "/artifacts.json" ->
       prop_get p (fs_files (w_fs w')) = prop_get p (fs_files (w_fs w))).
Proof.
  intros Haudit.
  set (kept := fun (f : fs) (c : list string) =>
    c = w_console w /\
    forall p, p <> TMP E +:+ "/artifacts.json" ->
      prop_get p (fs_files f) = prop_get p (fs_files (w_fs w))).
  assert (H : hoare (fun w0 => kept (w_fs w0) (w_console w0)) (main E lhr)
                (fun _ _ => False) (fun w0 => kept (w_fs w0) (w_console w0))).
  { unfold main.
    eapply hoare_bind; [apply (lift_world _ kept)|]. intros ?. cbv beta.
    eapply (hoare_bind _ _ _ (fun _ _ => False)); [|by intros ? ? ?].
    unfold generateErrorLHR.
    eapply hoare_bind; [apply (lift_world _ kept)|]. intros artifacts. cbv beta.
    eapply hoare_bind.
    { instantiate (1 := fun _ w0 => kept (w_fs w0) (w_console w0)).
      intros w0 Hw0. exact Hw0. }
    intros ?. cbv beta.
    eapply hoare_bind; [apply (lift_world _ kept)|]. intros text. cbv beta.
    eapply hoare_bind.
    { instantiate (1 := fun _ w0 => kept (w_fs w0) (w_console w0)).
      destruct text; [|by intros ? ?].
      intros w0 [Hc Hf]. split; [exact Hc|]. intros p Hp. simpl.
      rewrite prop_get_set_ne by done. by apply Hf. }
    intros ?. cbv beta.
    repeat (eapply hoare_bind; [apply (lift_world _ kept)|];
            intros ?; cbv beta).
    eapply hoare_bind.
    { instantiate (1 := fun v w0 =>
        kept (w_fs w0) (w_console w0) /\ truthy v = false).
      intros w0 Hw0.
      match goal with
      | |- context [lighthouse E ?u ?f w0] =>
          destruct (Haudit u f w0) as (r & w1 & -> & [Hfs Hc] & Hr)
      end.
      rewrite Hfs, Hc. by destruct r. }
    intros v. cbv beta. apply hoare_pure. intros ->. simpl. by intros ? ?. }
  specialize (H w). cbv beta in H.
  destruct (main E lhr w) as [[v|e] w'].
  - exfalso. apply H. by split.
  - exists e, w'. split; [done|]. apply H. by split.
Qed.

(** X3: without a [categories] object in the sample Result, [main]
    throws a [TypeError] at its first statement: the scratch directory is
    not created, no file is written, nothing is printed, and every object
    of the store is as it was. *)
Theorem main_needs_categories E lhr w :
  (forall lc, field (w_heap w) lhr "categories" <> VRef lc) ->
  exists msg w',
    main E lhr w = (Throw (TypeError msg), w') /\
    same_outside w w' /\
    (forall l o, w_heap w !! l = Some o -> w_heap w' !! l = Some o).
Proof.
  intros Hcat. unfold main, lift, addPluginCategory, bind at 1.
  assert (Hold : forall (h : heap) a b l o,
            h !! l = Some o -> ((h ++ [a]) ++ [b]) !! l = Some o).
  { intros h a b l o Hl. pose proof (lookup_lt_Some _ _ _ Hl).
    by rewrite !lookup_app_l by len2. }
  destruct lhr as [| | | | |l]; simpl;
    try (eexists _, _; split; [reflexivity|]; split; [done|];
         simpl; auto; fail).
  unfold bind at 1, get_prop. unfold field in Hcat.
  destruct (w_heap w !! l) as [o|] eqn:Ho;
    [|eexists _, _; split; [reflexivity|]; split; [done|]; simpl; auto].
  destruct (default VUndef (prop_get "categories" (o_props o)))
    as [| | | | |lc] eqn:Ec; [..|by destruct (Hcat lc)];
    simpl; (eexists _, _; split; [reflexivity|]; split; [done|]; simpl; auto).
Qed.

(** ** Where the plugin category goes *)

Lemma keys_prop_set {A} k (v : A) ps :
  keys (prop_set k v ps) =
  if bool_decide (k ∈ keys ps) then keys ps else keys ps ++ [k].
Proof.
  induction ps as [|[k' v'] ps IH]; simpl; [done|].
  destruct (String.eqb k k') eqn:Ek.
  - apply String.eqb_eq in Ek as ->. simpl.
    rewrite bool_decide_eq_true_2; [done|by left].
  - apply String.eqb_neq in Ek. simpl. rewrite IH.
    case_bool_decide as Hin.
    + rewrite bool_decide_eq_true_2; [done|by right].
    + rewrite bool_decide_eq_false_2; [done|].
      by intros [?|?]%elem_of_cons.
Qed.

Lemma own_keys_put l k x h :
  l < length h ->
  own_keys (put l k x h) (VRef l) =
  if bool_decide (k ∈ own_keys h (VRef l)) then own_keys h (VRef l)
  else own_keys h (VRef l) ++ [k].
Proof.
  intros Hl. unfold put, own_keys.
  destruct (lookup_lt_is_Some_2 h l Hl) as [o Ho]. rewrite Ho.
  rewrite list_lookup_insert_eq by done. simpl. apply keys_prop_set.
Qed.

Lemma own_keys_snoc h o l :
  l < length h -> own_keys (h ++ [o]) (VRef l) = own_keys h (VRef l).
Proof. intros Hl. unfold own_keys. by rewrite lookup_app_l. Qed.

Lemma addPluginCategory_run h l lc :
  l < length h -> lc < length h ->
  field h (VRef l) "categories" = VRef lc ->
  addPluginCategory (VRef l) h =
    (Ok tt,
     put lc "lighthouse-plugin-someplugin" (VRef (S (length h)))
       ((h ++ [array []]) ++
        [plain [("id", VStr "lighthouse-plugin-someplugin");
                ("title", VStr "Plugin");
                ("score", VNum 0.5%float);
                ("auditRefs", VRef (length h))]])).
Proof.
  intros Hl Hlc Hcat. unfold addPluginCategory.
  erewrite bind_ok; [|apply get_prop_field; by apply is_object_lt].
  rewrite Hcat. unfold new_array, new_object.
  erewrite bind_ok; [|apply alloc_eq].
  erewrite bind_ok; [|apply alloc_eq].
  rewrite set_prop_put by len2.
  replace (length (h ++ [array []])) with (S (length h)) by len2. done.
Qed.

(** X4: [addPluginCategory] puts the plugin category last among the
    categories of the Result, after the ones that were there, in their
    order; when the Result already has a category of that name, the entry
    is replaced where it stands.  A second call therefore leaves the list
    of category names as the first call made it. *)
Theorem addPluginCategory_key_order h l lc :
  l < length h -> lc < length h ->
  field h (VRef l) "categories" = VRef lc ->
  exists h' h'',
    addPluginCategory (VRef l) h = (Ok tt, h') /\
    own_keys h' (VRef lc) =
      (if bool_decide ("lighthouse-plugin-someplugin" ∈ own_keys h (VRef lc))
       then own_keys h (VRef lc)
       else own_keys h (VRef lc) ++ ["lighthouse-plugin-someplugin"]) /\
    addPluginCategory (VRef l) h' = (Ok tt, h'') /\
    own_keys h'' (VRef lc) = own_keys h' (VRef lc).
Proof.
  intros Hl Hlc Hcat.
  pose proof (addPluginCategory_run h l lc Hl Hlc Hcat) as Hrun.
  set (h' := put lc "lighthouse-plugin-someplugin" (VRef (S (length h))) _) in Hrun.
  assert (Hk1 : own_keys h' (VRef lc) =
    if bool_decide ("lighthouse-plugin-someplugin" ∈ own_keys h (VRef lc))
    then own_keys h (VRef lc)
    else own_keys h (VRef lc) ++ ["lighthouse-plugin-someplugin"]).
  { unfold h'. rewrite own_keys_put by len2.
    by rewrite !own_keys_snoc by len2. }
  assert (Hlen : length h' = S (S (length h))) by (unfold h'; len2).
  assert (Hcat' : field h' (VRef l) "categories" = VRef lc).
  { unfold h'. rewrite field_put_key_ne by done.
    by rewrite !field_snoc by len2. }
  pose proof (addPluginCategory_run h' l lc ltac:(lia) ltac:(lia) Hcat') as Hrun2.
  eexists _, _. split; [exact Hrun|]. split; [exact Hk1|].
  split; [exact Hrun2|].
  rewrite own_keys_put by len2. rewrite !own_keys_snoc by len2.
  rewrite bool_decide_eq_true_2; [done|].
  rewrite Hk1. case_bool_decide as Hin; [done|].
  apply elem_of_app. right. by left.
Qed.

(** ** The first final screenshot *)

(** X5: [_getFinalScreenshot] looks at the first audit reference whose
    id is ['final-screenshot'] and at no other: the references before it
    and everything after it, later references with the same id included,
    do not change the answer. *)
Theorem getFinalScreenshot_first_match pre auditRef post :
  Forall (fun audit => Psi.id audit <> "final-screenshot") pre ->
  Psi.id auditRef = "final-screenshot" ->
  Psi._getFinalScreenshot (Psi.mkCategory (pre ++ auditRef :: post)) =
  Psi._getFinalScreenshot (Psi.mkCategory [auditRef]).
Proof.
  intros Hpre Hid. unfold Psi._getFinalScreenshot. simpl.
  rewrite Hid. simpl.
  induction Hpre as [|a pre Ha _ IH]; simpl.
  - by rewrite Hid.
  - apply String.eqb_neq in Ha. by rewrite Ha.
Qed.

(** ** A run of [main] that completes *)


Lemma append_cons x (a b : string) : String x a +:+ b = String x (a +:+ b).
Proof. reflexivity. Qed.

Lemma append_assoc (a b c : string) : (a +:+ b) +:+ c = a +:+ b +:+ c.
Proof.
  induction a as [|x a IH]; [done|]. by rewrite !append_cons, IH.
Qed.

Lemma prefix_append (a b c : string) :
  String.prefix (a +:+ b) (a +:+ c) = String.prefix b c.
Proof.
  induction a as [|x a IH]; [done|]. rewrite !append_cons. simpl.
  by destruct (Ascii.ascii_dec x x).
Qed.

Lemma before_last_slash_index (x : string) :
  before_last_slash (x +:+ "/index.html") = Some x.
Proof.
  induction x as [|c x IH]; [done|]. rewrite append_cons. simpl.
  by rewrite IH.
Qed.

Lemma path_dirname_filepath_of E variant filename :
  path_dirname (filepath_of E variant filename) =
  DIST E +:+ "/" +:+ variant +:+ filename.
Proof.
  unfold filepath_of, path_dirname.
  rewrite <- (append_assoc variant filename),
    <- (append_assoc "/" (variant +:+ filename)),
    <- (append_assoc (DIST E)).
  rewrite before_last_slash_index.
  unfold DIST, path_join. by destruct (LH_ROOT E).
Qed.

Lemma inject_warnings_clean E r w v w' :
  inject_warnings E r w = (Ok v, w') ->
  forall p, String.prefix (TMP E) p = true ->
    (p ∉ fs_dirs (w_fs w')) /\ prop_get p (fs_files (w_fs w')) = None.
Proof.
  intros Hrun.
  assert (H : hoare (fun _ => True) (inject_warnings E r)
    (fun _ w' => forall p, String.prefix (TMP E) p = true ->
       (p ∉ fs_dirs (w_fs w')) /\ prop_get p (fs_files (w_fs w')) = None)
    (fun _ => True)).
  { unfold inject_warnings.
    destruct (negb (truthy r)); [by intros ? ?|].
    repeat (eapply hoare_bind; [apply (lift_fs _ (fun _ => True))|];
            intros ?; cbv beta).
    eapply hoare_bind.
    { instantiate (1 := fun _ w' =>
        forall p, String.prefix (TMP E) p = true ->
          (p ∉ fs_dirs (w_fs w')) /\ prop_get p (fs_files (w_fs w')) = None).
      intros w0 _ p Hp. by apply (rmdirSync_removes (TMP E) w0 p). }
    intros ?. by apply hoare_ret. }
  specialize (H w I). by rewrite Hrun in H.
Qed.

Lemma generateErrorLHR_clean E w v w' :
  generateErrorLHR E w = (Ok v, w') ->
  forall p, String.prefix (TMP E) p = true ->
    (p ∉ fs_dirs (w_fs w')) /\ prop_get p (fs_files (w_fs w')) = None.
Proof.
  rewrite generateErrorLHR_phases. intros H.
  apply bind_inv in H as [(? & ? & _ & H)|(? & _ & ?)]; [|done].
  apply bind_inv in H as [(? & ? & _ & H)|(? & _ & ?)]; [|done].
  by eapply inject_warnings_clean.
Qed.

Lemma build_filenameToLhr_outside E lhr errorLhr w entries w' :
  build_filenameToLhr E lhr errorLhr w = (Ok entries, w') ->
  w_fs w' = w_fs w /\ map fst entries = filenames.
Proof.
  intros Hrun. split; [|by eapply build_filenameToLhr_english].
  assert (H : hoare (fun w0 => w_fs w0 = w_fs w)
                (build_filenameToLhr E lhr errorLhr)
                (fun _ w0 => w_fs w0 = w_fs w) (fun w0 => w_fs w0 = w_fs w)).
  { unfold build_filenameToLhr, localised.
    repeat first
      [ apply (lift_fs _ (fun f => f = w_fs w))
      | apply hoare_ret; intros ? Hs; exact Hs
      | eapply hoare_bind; [|intros ?; cbv beta] ]. }
  specialize (H w eq_refl). by rewrite Hrun in H.
Qed.

Lemma writeVariant_dirs E lhr filename lhr' variant w w' :
  writeVariant E lhr filename lhr' variant w = (Ok tt, w') ->
  forall d, d ∈ fs_dirs (w_fs w') <->
    d ∈ fs_dirs (w_fs w) \/ d = path_dirname (filepath_of E variant filename).
Proof.
  unfold writeVariant. intros H.
  apply bind_inv in H as [(html & w1 & Hhtml & H)|(e & _ & ?)]; [|done].
  assert (Hsame : same_outside w w1).
  { destruct (includes variant "psi").
    - pose proof (generatePsiReportHtml_same E lhr w w (same_outside_refl w)) as G.
      by rewrite Hhtml in G.
    - pose proof (lift_same (generateReportHtml E lhr') w w (same_outside_refl w)) as G.
      by rewrite Hhtml in G. }
  destruct Hsame as [Hfs Hc].
  cbn in H. injection H as <-. simpl. rewrite Hfs. intros d.
  case_bool_decide as Hin.
  - split; [by left|]. by intros [?| ->].
  - rewrite elem_of_app, list_elem_of_singleton. done.
Qed.

Lemma forEach_variants_dirs E lhr filename lhr' vs : forall w w',
  forEach (writeVariant E lhr filename lhr') vs w = (Ok tt, w') ->
  forall d, d ∈ fs_dirs (w_fs w') <->
    d ∈ fs_dirs (w_fs w) \/
    d ∈ map (fun variant => path_dirname (filepath_of E variant filename)) vs.
Proof.
  induction vs as [|v vs IH]; intros w w' H d; simpl in H.
  - injection H as <-. simpl. split; [by left|].
    by intros [?|?%elem_of_nil].
  - apply bind_inv in H as [([] & w1 & Hv & H)|(e & _ & ?)]; [|done].
    rewrite (IH _ _ H), (writeVariant_dirs _ _ _ _ _ _ _ Hv).
    simpl. rewrite elem_of_cons. tauto.
Qed.

Lemma writeReports_dirs E lhr entries : forall w w',
  writeReports E lhr entries w = (Ok tt, w') ->
  forall d, d ∈ fs_dirs (w_fs w') <->
    d ∈ fs_dirs (w_fs w) \/
    d ∈ map path_dirname (report_paths E (map fst entries)).
Proof.
  unfold writeReports.
  induction entries as [|[filename lhr'] entries IH]; intros w w' H d.
  - injection H as <-. simpl. split; [by left|].
    by intros [?|?%elem_of_nil].
  - rewrite forEach_cons in H.
    apply bind_inv in H as [([] & w1 & Hv & H)|(e & _ & ?)]; [|done].
    rewrite (IH _ _ H), (forEach_variants_dirs _ _ _ _ _ _ _ Hv).
    unfold report_paths. cbn [flat_map map fst].
    rewrite map_app, elem_of_app, map_map. tauto.
Qed.

Lemma report_dirs_filenames E :
  map path_dirname (report_paths E filenames) =
  map (String.append (DIST E))
    ["/english"; "/⌣.cdt.english"; "/⌣.psi.english";
     "/espanol"; "/⌣.cdt.espanol"; "/⌣.psi.espanol";
     "/ɑrabic"; "/⌣.cdt.ɑrabic"; "/⌣.psi.ɑrabic";
     "/xl-accented"; "/⌣.cdt.xl-accented"; "/⌣.psi.xl-accented";
     "/error"; "/⌣.cdt.error"; "/⌣.psi.error";
     "/single-category"; "/⌣.cdt.single-category"; "/⌣.psi.single-category"].
Proof.
  unfold report_paths, filenames, variants. cbn [flat_map map app].
  by rewrite !path_dirname_filepath_of.
Qed.

Lemma TMP_prefix_false E (names : list string) p :
  p ∈ map (String.append (DIST E)) names ->
  forallb (fun name => negb (String.prefix "/.tmp/" name)) names = true ->
  String.prefix (TMP E) p = false.
Proof.
  intros Hin Hall. apply list_elem_of_fmap in Hin as (name & -> & Hname).
  unfold TMP. rewrite prefix_append.
  rewrite forallb_forall in Hall. apply list_elem_of_In in Hname.
  by apply negb_true_iff, Hall.
Qed.

(** X6: when [main] returns, each of the eighteen reports is on disk in
    a directory of its own that exists, and the scratch directory is
    gone: no directory and no file is left under its path. *)
Theorem main_complete_run E lhr w w' :
  main E lhr w = (Ok tt, w') ->
  (forall p, p ∈ report_paths E filenames ->
     is_Some (prop_get p (fs_files (w_fs w'))) /\
     path_dirname p ∈ fs_dirs (w_fs w')) /\
  (forall p, String.prefix (TMP E) p = true ->
     (p ∉ fs_dirs (w_fs w')) /\ prop_get p (fs_files (w_fs w')) = None).
Proof.
  unfold main. intros H.
  apply bind_inv in H as [(? & w1 & _ & H)|(? & _ & ?)]; [|done].
  apply bind_inv in H as [(errorLhr & w2 & Hgen & H)|(? & _ & ?)]; [|done].
  apply bind_inv in H as [(entries & w3 & Hbuild & H)|(? & _ & ?)]; [|done].
  pose proof (generateErrorLHR_clean _ _ _ _ Hgen) as Hclean.
  apply build_filenameToLhr_outside in Hbuild as [Hfs Hnames].
  pose proof (writeReports_dirs _ _ _ _ _ H) as Hdirs.
  apply writeReports_ok in H as (writes & Hp & _ & Hf).
  rewrite Hnames in Hp, Hdirs. split.
  - intros p Hin. split.
    + rewrite Hf. apply write_all_get_in. by rewrite Hp.
    + apply Hdirs. right. by apply list_elem_of_fmap_2.
  - intros p Hpre. rewrite <- Hfs in Hclean.
    destruct (Hclean p Hpre) as [Hd Hfile]. split.
    + rewrite Hdirs. intros [?|Hin]; [done|].
      rewrite report_dirs_filenames in Hin.
      eapply TMP_prefix_false in Hin; [|by vm_compute]. congruence.
    + rewrite Hf, write_all_get_notin; [done|].
      rewrite Hp, report_paths_filenames. intros Hin.
      eapply TMP_prefix_false in Hin; [|by vm_compute]. congruence.
Qed.

(** ** The loop without the PSI bundle *)






(** ** The markup of the DevTools flavor *)




(** ** What the trim keeps *)

Lemma keys_prop_set_in {A} k (v v' : A) ps :
  prop_get k ps = Some v' -> keys (prop_set k v ps) = keys ps.
Proof.
  intros Hk. rewrite keys_prop_set. rewrite bool_decide_eq_true_2; [done|].
  destruct (decide (k ∈ keys ps)) as [|Hn]; [done|].
  apply prop_get_None_keys in Hn. congruence.
Qed.

Lemma keys_prop_del {A} k (ps : list (string * A)) :
  keys (prop_del k ps) = filter (fun k' => k' <> k) (keys ps).
Proof.
  induction ps as [|[k' v'] ps IH]; simpl; [done|].
  rewrite filter_cons.
  destruct (String.eqb k k') eqn:Ek.
  - apply String.eqb_eq in Ek as ->. by rewrite decide_False by (by intros []).
  - apply String.eqb_neq in Ek. rewrite decide_True by done.
    simpl. by rewrite IH.
Qed.

(** X9: apart from what it removes, the Result that [tweakLhrForPsi]
    returns is the input as JSON prints it.  It has the top-level keys
    of the input, in their order, and every top-level value other than
    the categories and the audits; the audits without
    ['performance-budget'], in their order; every field of the
    performance category other than its audit references; and as audit
    references those of the input that the filter keeps, in the order
    of the input. *)
Theorem tweakLhrForPsi_keeps_the_rest h lhr t :
  repr h lhr t -> has_performance t ->
  exists j clone h',
    to_json t = Some j /\
    tweakLhrForPsi lhr h = (Ok clone, h') /\
    let audits := field h' clone "audits" in
    let performance := field h' (field h' clone "categories") "performance" in
    let audits0 := tree_get j "audits" in
    let performance0 := tree_get (tree_get j "categories") "performance" in
    own_keys h' clone = keys (tree_props j) /\
    (forall k, k <> "categories" -> k <> "audits" ->
       repr h' (field h' clone k) (tree_get j k)) /\
    own_keys h' audits =
      filter (fun k => k <> "performance-budget") (keys (tree_props audits0)) /\
    (forall k, k <> "performance-budget" ->
       repr h' (field h' audits k) (tree_get audits0 k)) /\
    own_keys h' performance = keys (tree_props performance0) /\
    (forall k, k <> "auditRefs" ->
       repr h' (field h' performance k) (tree_get performance0 k)) /\
    Forall2 (repr h') (elems h' (field h' performance "auditRefs"))
      (List.filter ref_kept (tree_elems (tree_get performance0 "auditRefs"))).
Proof.
  intros Hr Hp.
  destruct (tweakLhrForPsi_repr _ _ _ Hr Hp) as (j & c & hf & Hj & Hpj & Ht & Hrf).
  destruct Hpj as (ps & cs & pf & refs & aud & -> & Hcat & Hperf & Hrefs & Hids & Haud).
  exists (JObj ps), c, hf. split; [done|]. split; [done|].
  destruct (trimmed_readings _ _ _ _ _ _ _ Hcat Hperf Hrefs Haud Hrf)
    as (Ha & _ & Hpf & Har).
  rewrite (trim_tree_shape _ _ _ _ _ Hcat Hperf Hrefs Haud) in Hrf.
  cbv zeta.
  assert (Ea : tree_get (JObj ps) "audits" = JObj aud)
    by (unfold tree_get; simpl; by rewrite Haud).
  assert (Ep : tree_get (tree_get (JObj ps) "categories") "performance" =
               JObj pf).
  { unfold tree_get. simpl. rewrite Hcat. simpl. by rewrite Hperf. }
  assert (Er : tree_get (JObj pf) "auditRefs" = JArr refs)
    by (unfold tree_get; simpl; by rewrite Hrefs).
  rewrite Ea, Ep, Er. cbn [tree_props tree_elems].
  split; [|split; [|split; [|split; [|split; [|split]]]]].
  - rewrite (repr_own_keys _ _ _ Hrf).
    erewrite keys_prop_set_in.
    + by erewrite keys_prop_set_in.
    + rewrite prop_get_set_ne by done. exact Haud.
  - intros k Hk1 Hk2. pose proof (repr_field _ _ _ k Hrf) as Hf.
    unfold tree_get in Hf. simpl in Hf.
    rewrite !prop_get_set_ne in Hf by done. exact Hf.
  - rewrite (repr_own_keys _ _ _ Ha). apply keys_prop_del.
  - intros k Hk. pose proof (repr_field _ _ _ k Ha) as Hf.
    unfold tree_get in Hf. simpl in Hf.
    rewrite prop_get_del_ne in Hf by done. exact Hf.
  - rewrite (repr_own_keys _ _ _ Hpf). by erewrite keys_prop_set_in.
  - intros k Hk. pose proof (repr_field _ _ _ k Hpf) as Hf.
    unfold tree_get in Hf. simpl in Hf.
    rewrite prop_get_set_ne in Hf by done. exact Hf.
  - exact (repr_elems _ _ _ Har).
Qed.

(** ** A Result that is not a tree *)

Lemma ser_elems_Ok h ser es ts :
  (forall v r, v ∈ es -> ser v = Some (Ok r) -> exists t, repr h v t) ->
  ser_elems ser es = Some (Ok ts) ->
  exists ts', Forall2 (repr h) es ts'.
Proof.
  revert ts. induction es as [|v es IH]; intros ts Hser H; simpl in H.
  - exists []. constructor.
  - destruct (ser v) as [[r|e]|] eqn:Ev; try done.
    destruct (ser_elems ser es) as [[rs|e]|] eqn:Ees; try done.
    destruct (Hser v r) as [t Ht]; [by left|done|].
    destruct (IH rs) as [ts' Hts]; [|done|].
    { intros v' r' Hin. apply Hser. by right. }
    exists (t :: ts'). by constructor.
Qed.

Lemma ser_props_Ok h ser (ps : list (string * val)) ts :
  (forall v r, v ∈ map snd ps -> ser v = Some (Ok r) -> exists t, repr h v t) ->
  ser_props ser ps = Some (Ok ts) ->
  exists ts', Forall2 (fun p q => fst p = fst q /\ repr h (snd p) (snd q)) ps ts'.
Proof.
  revert ts. induction ps as [|[k v] ps IH]; intros ts Hser H; simpl in H.
  - exists []. constructor.
  - destruct (ser v) as [[r|e]|] eqn:Ev; try done.
    destruct (ser_props ser ps) as [[rs|e]|] eqn:Eps; try done.
    destruct (Hser v r) as [t Ht]; [by left|done|].
    destruct (IH rs) as [ts' Hts]; [|done|].
    { intros v' r' Hin. apply Hser. by right. }
    exists ((k, t) :: ts'). by constructor.
Qed.

Lemma stringify_fuel_Ok fuel : forall h stack v r,
  stringify_fuel fuel h stack v = Some (Ok r) -> exists t, repr h v t.
Proof.
  induction fuel as [|n IH]; intros h stack v r H.
  - destruct v; simpl in H; try done; eexists; constructor.
  - destruct v as [| | | | |l]; simpl in H; try (eexists; constructor; fail).
    case_bool_decide; [done|].
    destruct (h !! l) as [[[es|] ps]|] eqn:Hl; [| |done]; simpl in H.
    + destruct (ser_elems _ es) as [[ts|e]|] eqn:Ees; try done.
      apply (ser_elems_Ok h) in Ees as [ts' Hts]; [|by eauto].
      exists (JArr ts'). by econstructor.
    + destruct (ser_props _ ps) as [[ts|e]|] eqn:Eps; try done.
      apply (ser_props_Ok h) in Eps as [ts' Hts]; [|by eauto].
      exists (JObj ts'). by econstructor.
Qed.

Lemma ser_elems_Throw (P : exn -> Prop) ser es e :
  (forall v e', ser v = Some (Throw e') -> P e') ->
  ser_elems ser es = Some (Throw e) -> P e.
Proof.
  intros Hser. induction es as [|v es IH]; simpl; [done|].
  destruct (ser v) as [[r|e']|] eqn:Ev; try done.
  - destruct (ser_elems ser es) as [[rs|e']|]; try done;
      intros [= <-]; by apply IH.
  - intros [= <-]. by eapply Hser.
Qed.

Lemma ser_props_Throw (P : exn -> Prop) ser (ps : list (string * val)) e :
  (forall v e', ser v = Some (Throw e') -> P e') ->
  ser_props ser ps = Some (Throw e) -> P e.
Proof.
  intros Hser. induction ps as [|[k v] ps IH]; simpl; [done|].
  destruct (ser v) as [[r|e']|] eqn:Ev; try done.
  - destruct (ser_props ser ps) as [[rs|e']|]; try done;
      intros [= <-]; by apply IH.
  - intros [= <-]. by eapply Hser.
Qed.

Lemma stringify_fuel_Throw fuel : forall h stack v e,
  stringify_fuel fuel h stack v = Some (Throw e) -> exists msg, e = TypeError msg.
Proof.
  induction fuel as [|n IH]; intros h stack v e H.
  - destruct v; simpl in H; done.
  - destruct v as [| | | | |l]; simpl in H; try done.
    case_bool_decide; [injection H as <-; by eexists|].
    destruct (h !! l) as [[[es|] ps]|] eqn:Hl; simpl in H;
      [| |injection H as <-; by eexists].
    + destruct (ser_elems _ es) as [[ts|e']|] eqn:Ees; try done.
      injection H as ->.
      eapply (ser_elems_Throw (fun e => exists msg, e = TypeError msg));
        [|exact Ees]. intros v e'. apply IH.
    + destruct (ser_props _ ps) as [[ts|e']|] eqn:Eps; try done.
      injection H as ->.
      eapply (ser_props_Throw (fun e => exists msg, e = TypeError msg));
        [|exact Eps]. intros v e'. apply IH.
Qed.

Lemma repr_child h l o v t :
  h !! l = Some o -> v ∈ children o -> repr h (VRef l) t ->
  exists tv, repr h v tv /\ tree_size tv < tree_size t.
Proof.
  intros Hl Hv Hr. unfold children in Hv.
  apply repr_ref_inv in Hr as [(es & ps & ts & -> & Hl' & Hf)|(ps & ts & -> & Hl' & Hf)];
    rewrite Hl in Hl'; injection Hl' as ->; simpl in Hv.
  - apply list_elem_of_lookup in Hv as [i Hi].
    destruct (Forall2_lookup_l _ _ _ _ _ Hf Hi) as (tv & Hti & Hrv).
    exists tv. split; [done|].
    apply tree_size_elem. by eapply list_elem_of_lookup_2.
  - apply list_elem_of_fmap in Hv as ([k v'] & -> & Hin).
    apply list_elem_of_lookup in Hin as [i Hi].
    destruct (Forall2_lookup_l _ _ _ _ _ Hf Hi) as ([k' tv] & Hti & _ & Hrv).
    exists tv. split; [done|].
    apply (tree_size_prop (k', tv)). by eapply list_elem_of_lookup_2.
Qed.

Lemma repr_visits h v l :
  visits h v l -> forall t, repr h v t ->
  exists t', repr h (VRef l) t' /\ tree_size t' <= tree_size t.
Proof.
  induction 1 as [l|l o v l' Hl Hv _ IH]; intros t Hr.
  - by exists t.
  - destruct (repr_child _ _ _ _ _ Hl Hv Hr) as (tv & Hrv & Hlt).
    destruct (IH _ Hrv) as (t' & Hr' & Hle). exists t'. split; [done|lia].
Qed.

Lemma cyclic_no_repr h v l t :
  visits h v l -> on_cycle h l -> repr h v t -> False.
Proof.
  intros Hv (o & c & Hl & Hc & Hback) Hr.
  destruct (repr_visits _ _ _ Hv _ Hr) as (tl & Hrl & _).
  destruct (repr_child _ _ _ _ _ Hl Hc Hrl) as (tc & Hrc & Hlt).
  destruct (repr_visits _ _ _ Hback _ Hrc) as (tl' & Hrl' & Hle).
  rewrite (repr_det _ _ _ _ Hrl' Hrl) in Hle. lia.
Qed.

(** X10: on a Result that holds a cycle, anywhere the serialiser gets
    to, [tweakLhrForPsi] throws a [TypeError] and leaves the store as it
    was: nothing is copied. *)
Theorem tweakLhrForPsi_rejects_cycles h lhr l :
  visits h lhr l -> on_cycle h l ->
  exists msg, tweakLhrForPsi lhr h = (Throw (TypeError msg), h).
Proof.
  intros Hv Hc.
  assert (Hs : exists msg, JSON_stringify lhr h = (Throw (TypeError msg), h)).
  { unfold JSON_stringify.
    destruct (stringify_fuel (S (length h)) h [] lhr) as [[r|e]|] eqn:Es.
    - apply stringify_fuel_Ok in Es as [t Ht].
      destruct (cyclic_no_repr _ _ _ _ Hv Hc Ht).
    - apply stringify_fuel_Throw in Es as [msg ->]. by exists msg.
    - exfalso. eapply stringify_fuel_enough; [| |simpl|exact Es].
      + constructor.
      + by intros ? ?%elem_of_nil.
      + simpl. lia. }
  destruct Hs as [msg Hs]. exists msg.
  rewrite tweakLhrForPsi_unfold. apply bind_throw. unfold JSON_clone.
  by apply bind_throw.
Qed.

(** ** What the audit run is given *)






(** ** What [generateErrorLHR] leaves alone *)

Lemma inject_warnings_run E h1 f1 c1 lrr llhr laud fd oi ati :
  lrr < length h1 -> llhr < length h1 -> laud < length h1 ->
  fd < length h1 -> oi < length h1 -> ati < length h1 ->
  field h1 (VRef lrr) "lhr" = VRef llhr ->
  field h1 (VRef llhr) "audits" = VRef laud ->
  field h1 (VRef laud) "font-display" = VRef fd ->
  field h1 (VRef laud) "offscreen-images" = VRef oi ->
  field h1 (VRef laud) "apple-touch-icon" = VRef ati ->
  exists wf wo wa,
    inject_warnings E (VRef lrr) (mkWorld h1 f1 c1) =
      (Ok (VRef llhr),
       mkWorld (pass ati (warn ati wa (pass oi (warn oi wo (warn fd wf h1)))))
         (w_fs (snd (rmdirSync (TMP E) (mkWorld h1 f1 c1)))) c1).
Proof.
  intros Hrr Hlhr Haud ? ? ? Elhr Eaud Hfd Hoi Hati.
  unfold inject_warnings.
  change (negb (truthy (VRef lrr))) with false. cbv iota.
  wstep get_prop_field; [|by apply is_object_lt]. rewrite Elhr.
  wstep get_prop_field; [|by apply is_object_lt]. rewrite Eaud.
  wstep get_prop_field; [|by apply is_object_lt]. rewrite Hfd.
  wstep alloc_eq.
  wstep set_prop_put; [|len2].
  wstep get_prop_field; [|apply is_object_lt; len2]. fsimp. rewrite Eaud.
  wstep get_prop_field; [|apply is_object_lt; len2]. fsimp. rewrite Hoi.
  wstep alloc_eq.
  wstep set_prop_put; [|len2]. wstep set_prop_put; [|len2].
  wstep set_prop_put; [|len2]. wstep set_prop_put; [|len2].
  wstep get_prop_field; [|apply is_object_lt; len2]. fsimp. rewrite Eaud.
  wstep get_prop_field; [|apply is_object_lt; len2]. fsimp. rewrite Hati.
  wstep alloc_eq.
  wstep set_prop_put; [|len2]. wstep set_prop_put; [|len2].
  wstep set_prop_put; [|len2]. wstep set_prop_put; [|len2].
  eexists _, _, _. reflexivity.
Qed.

Lemma lookup_put_ne l k x h l' : l' <> l -> put l k x h !! l' = h !! l'.
Proof.
  intros Hne. unfold put. destruct (h !! l); [|done].
  by rewrite list_lookup_insert_ne.
Qed.

Lemma lookup_warn_ne l ws h l' :
  l' < length h -> l' <> l -> warn l ws h !! l' = h !! l'.
Proof.
  intros Hl Hne. unfold warn. rewrite lookup_put_ne by done.
  by rewrite lookup_app_l.
Qed.

Lemma lookup_pass_ne l h l' : l' <> l -> pass l h !! l' = h !! l'.
Proof. intros Hne. unfold pass. by rewrite !lookup_put_ne. Qed.

(** X12: on the way to its result [generateErrorLHR] edits the three
    audits and nothing else.  The Result it returns is the object the
    audit run returned; every other object of the store is as the audit
    run left it, and so is every field of the three audits other than
    [warnings], [errorMessage], [scoreDisplayMode] and [score]; nothing
    is printed, and outside the scratch directory no file and no
    directory is added, removed or changed. *)
Theorem generateErrorLHR_edits_nothing_else E w w0 url flags rr w1 fd oi ati :
  prepare_artifacts E w = (Ok (url, flags), w0) ->
  lighthouse E url flags w0 = (Ok rr, w1) ->
  error_audits (w_heap w1) rr fd oi ati ->
  exists w2,
    generateErrorLHR E w = (Ok (field (w_heap w1) rr "lhr"), w2) /\
    (forall l o, l <> fd -> l <> oi -> l <> ati ->
       w_heap w1 !! l = Some o -> w_heap w2 !! l = Some o) /\
    (forall a k, a < length (w_heap w1) ->
       k ∉ ["warnings"; "errorMessage"; "scoreDisplayMode"; "score"] ->
       field (w_heap w2) (VRef a) k = field (w_heap w1) (VRef a) k) /\
    (forall a, a < length (w_heap w1) ->
       elems (w_heap w2) (VRef a) = elems (w_heap w1) (VRef a)) /\
    w_console w2 = w_console w1 /\
    (forall p, String.prefix (TMP E) p = false ->
       (p ∈ fs_dirs (w_fs w2) <-> p ∈ fs_dirs (w_fs w1)) /\
       prop_get p (fs_files (w_fs w2)) = prop_get p (fs_files (w_fs w1))).
Proof.
  intros Hprep Haudit (Hrr & Hlhr & Haud & Hfd & Hoi & Hati & ? & ? & ? & _).
  destruct w1 as [h1 f1 c1]. cbn [w_heap w_fs w_console] in *.
  destruct rr as [| | | | |lrr]; try done.
  destruct (field h1 (VRef lrr) "lhr") as [| | | | |llhr] eqn:Elhr; try done.
  destruct (field h1 (VRef llhr) "audits") as [| | | | |laud] eqn:Eaud; try done.
  apply is_object_lt in Hrr, Hlhr, Haud.
  destruct (inject_warnings_run E h1 f1 c1 lrr llhr laud fd oi ati)
    as (wf & wo & wa & Hrun); try done.
  eexists. split.
  { rewrite generateErrorLHR_phases.
    rewrite (bind_ok _ _ _ _ _ Hprep). cbn [fst snd].
    rewrite (bind_ok _ _ _ _ _ Haudit). exact Hrun. }
  cbn [w_heap w_fs w_console].
  assert (L1 : length (warn fd wf h1) = S (length h1)) by apply length_warn.
  assert (L2 : length (pass oi (warn oi wo (warn fd wf h1))) = S (S (length h1))).
  { by rewrite length_pass, length_warn, L1. }
  split; [|split; [|split; [|split]]].
  - intros l o ? ? ? Hl. pose proof (lookup_lt_Some _ _ _ Hl).
    rewrite lookup_pass_ne, lookup_warn_ne by (done || lia).
    rewrite lookup_pass_ne, lookup_warn_ne by (done || rewrite ?L1; lia).
    by rewrite lookup_warn_ne by (done || lia).
  - intros a k Ha Hk.
    rewrite !not_elem_of_cons in Hk. destruct Hk as (K1 & K2 & K3 & K4 & _).
    apply String.eqb_neq in K1, K2, K3, K4.
    rewrite field_pass_key, field_warn_key by (done || lia).
    rewrite field_pass_key, field_warn_key by (done || rewrite ?L1; lia).
    by rewrite field_warn_key by (done || lia).
  - intros a Ha.
    rewrite elems_pass, elems_warn_old by lia.
    rewrite elems_pass, elems_warn_old by (rewrite ?L1; lia).
    by rewrite elems_warn_old by lia.
  - done.
  - intros p Hp. by apply (rmdirSync_keeps (TMP E) (mkWorld h1 f1 c1) p).
Qed.

(** ** An audit that is not there *)

Lemma lift_throw {A} (m : M heap A) w e h' :
  m (w_heap w) = (Throw e, h') ->
  lift m w = (Throw e, mkWorld h' (w_fs w) (w_console w)).
Proof. intros H. unfold lift. by rewrite H. Qed.

Lemma set_prop_not_ref a k x h :
  (forall l, a <> VRef l) ->
  set_prop a k x h = (Throw (TypeError ("Cannot set property " +:+ k)), h).
Proof. intros Ha. destruct a as [| | | | |l]; try done. by destruct (Ha l). Qed.

Lemma val_ref_or_not (v : val) :
  (exists l, v = VRef l) \/ (forall l, v <> VRef l).
Proof. destruct v; eauto. Qed.

Ltac wthrow lem :=
  erewrite bind_throw; [|apply lift_throw; cbn [w_heap]; apply lem].

(** X13: when one of the three audits is missing from the Result of
    the audit run, [generateErrorLHR] throws a [TypeError] where it sets
    the warnings of that audit; it has not reached the clean-up, and the
    file system and the console are as the audit run left them. *)
Theorem generateErrorLHR_needs_the_three_audits E w w0 url flags rr w1 :
  prepare_artifacts E w = (Ok (url, flags), w0) ->
  lighthouse E url flags w0 = (Ok rr, w1) ->
  let h1 := w_heap w1 in
  let audits := field h1 (field h1 rr "lhr") "audits" in
  is_object h1 rr -> is_object h1 (field h1 rr "lhr") -> is_object h1 audits ->
  Forall (fun name => forall l, field h1 audits name = VRef l -> l < length h1)
    edited_audits ->
  Exists (fun name => forall l, field h1 audits name <> VRef l) edited_audits ->
  exists msg w2,
    generateErrorLHR E w = (Throw (TypeError msg), w2) /\
    same_outside w1 w2.
Proof.
  intros Hprep Haudit h1 audits Hrr Hlhr Haud Hvalid Hmissing.
  subst h1 audits. destruct w1 as [h1 f1 c1]. cbn [w_heap] in *.
  destruct rr as [| | | | |lrr]; try done.
  destruct (field h1 (VRef lrr) "lhr") as [| | | | |llhr] eqn:Elhr; try done.
  destruct (field h1 (VRef llhr) "audits") as [| | | | |laud] eqn:Eaud; try done.
  apply is_object_lt in Hrr, Hlhr, Haud.
  unfold edited_audits in Hvalid, Hmissing.
  rewrite !Forall_cons in Hvalid. destruct Hvalid as (Vfd & Voi & Vati & _).
  rewrite generateErrorLHR_phases.
  rewrite (bind_ok _ _ _ _ _ Hprep). cbn [fst snd].
  rewrite (bind_ok _ _ _ _ _ Haudit).
  unfold inject_warnings.
  change (negb (truthy (VRef lrr))) with false. cbv iota.
  wstep get_prop_field; [|by apply is_object_lt]. rewrite Elhr.
  wstep get_prop_field; [|by apply is_object_lt]. rewrite Eaud.
  wstep get_prop_field; [|by apply is_object_lt].
  wstep alloc_eq.
  destruct (val_ref_or_not (field h1 (VRef laud) "font-display"))
    as [[fd Hfd]|Nfd].
  2: { wthrow set_prop_not_ref; [|done]. by eexists _, _. }
  rewrite Hfd. specialize (Vfd fd Hfd).
  wstep set_prop_put; [|len2].
  wstep get_prop_field; [|apply is_object_lt; len2]. fsimp. rewrite Eaud.
  wstep get_prop_field; [|apply is_object_lt; len2]. fsimp.
  wstep alloc_eq.
  destruct (val_ref_or_not (field h1 (VRef laud) "offscreen-images"))
    as [[oi Hoi]|Noi].
  2: { wthrow set_prop_not_ref; [|done]. by eexists _, _. }
  rewrite Hoi. specialize (Voi oi Hoi).
  wstep set_prop_put; [|len2]. wstep set_prop_put; [|len2].
  wstep set_prop_put; [|len2]. wstep set_prop_put; [|len2].
  wstep get_prop_field; [|apply is_object_lt; len2]. fsimp. rewrite Eaud.
  wstep get_prop_field; [|apply is_object_lt; len2]. fsimp.
  wstep alloc_eq.
  destruct (val_ref_or_not (field h1 (VRef laud) "apple-touch-icon"))
    as [[ati Hati]|Nati].
  2: { wthrow set_prop_not_ref; [|done]. by eexists _, _. }
  exfalso. rewrite !Exists_cons in Hmissing.
  destruct Hmissing as [N|[N|[N|N%Exists_nil]]]; [| | |done].
  - by destruct (N fd).
  - by destruct (N oi).
  - by destruct (N ati).
Qed.

(** ** The trimmed Result is plain JSON *)

(** X14: the Result that [tweakLhrForPsi] returns goes through
    [JSON.stringify] and [JSON.parse] unchanged: the serialiser prints
    its tree as it is, with nothing left out and nothing turned into
    [null], and parsing that text gives a new Result with the same
    tree. *)
Theorem tweakLhrForPsi_result_round_trips h lhr t :
  repr h lhr t -> has_performance t ->
  exists clone h' result copy h'',
    tweakLhrForPsi lhr h = (Ok clone, h') /\
    repr h' clone result /\
    JSON_stringify clone h' = (Ok (Some result), h') /\
    JSON_clone clone h' = (Ok copy, h'') /\
    repr h'' copy result.
Proof.
  intros Hr Hp.
  destruct (tweakLhrForPsi_repr _ _ _ Hr Hp) as (j & c & hf & Hj & Hpj & Ht & Hrf).
  pose proof (normal_trim_tree _ Hpj (to_json_idem _ _ Hj)) as Hn.
  destruct (JSON_clone_repr _ _ _ _ Hrf Hn) as (c2 & hn & Hc2 & Hl).
  exists c, hf, (trim_tree j), c2, (hf ++ hn).
  split; [done|]. split; [done|]. split; [|split; [done|]].
  - rewrite (JSON_stringify_repr _ _ _ Hrf). by rewrite Hn.
  - by apply (proj1 (laid_repr _)) in Hl.
Qed.

(** ** A Result without categories or without audits *)

Lemma trim_in_place_no_categories h1 lo lc jps :
  laid h1 lo (S lc) (VRef lc) (JObj jps) ->
  prop_get "categories" jps = None ->
  exists msg, trim_in_place (VRef lc) h1 = (Throw (TypeError msg), h1).
Proof.
  intros Hl Hcat.
  apply laid_obj_inv in Hl as (lc' & cps & Hlc' & _ & Hcps & Hlc).
  injection Hlc' as <-.
  pose proof (laid_props_get_None _ _ _ _ _ _ Hcps Hcat) as Hg.
  unfold trim_in_place.
  erewrite bind_ok; [|by apply get_prop_ok]. simpl. rewrite Hg. simpl.
  by eexists.
Qed.

Lemma trim_in_place_no_audits h1 lo lc jps cs :
  laid h1 lo (S lc) (VRef lc) (JObj jps) ->
  length h1 = S lc ->
  prop_get "categories" jps = Some (JObj cs) ->
  prop_get "audits" jps = None ->
  exists msg hf, trim_in_place (VRef lc) h1 = (Throw (TypeError msg), hf).
Proof.
  intros Hl Hlen Hcat Haud.
  apply laid_obj_inv in Hl as (lc' & cps & Hlc' & _ & Hcps & Hlc).
  injection Hlc' as <-.
  pose proof (proj2 (proj2 (laid_range h1)) _ _ _ _ Hcps) as Hr0.
  pose proof (laid_props_get_None _ _ _ _ _ _ Hcps Haud) as Hga.
  destruct (props_one_dirty h1 lo lc cps jps "categories" _ Hcps Hcat)
    as (vc & ac & bc & Hgc & ? & ? & ? & Lc & _).
  apply laid_obj_inv in Lc as (lcat & catps & -> & -> & Hcatps & Hlcat).
  unfold trim_in_place.
  step_with get_prop_ok. rewrite Hgc. simpl.
  step_with get_prop_ok.
  unfold new_object. erewrite bind_ok; [|apply alloc_eq]. rewrite Hlen.
  step_with set_prop_ok.
  step_with get_prop_ok. rewrite prop_get_set_ne by done. rewrite Hga. simpl.
  eexists _, _. reflexivity.
Qed.

(** X15: a Result without [categories], or with categories but without
    [audits], makes [tweakLhrForPsi] throw a [TypeError]: nothing guards
    the fields it goes through. *)
Theorem tweakLhrForPsi_needs_categories_and_audits h lhr ps :
  repr h lhr (JObj ps) ->
  prop_get "categories" ps = None \/
  (exists cs, prop_get "categories" ps = Some (JObj cs)) /\
  prop_get "audits" ps = None ->
  exists msg h', tweakLhrForPsi lhr h = (Throw (TypeError msg), h').
Proof.
  intros Hr Hmiss.
  destruct (JSON_clone_repr _ _ _ _ Hr eq_refl) as (c & hn & Hc & Hl).
  pose proof Hl as Hl'.
  apply laid_obj_inv in Hl' as (lc & cps & -> & Hlen & _ & _).
  rewrite Hlen in Hl.
  rewrite tweakLhrForPsi_unfold. rewrite (bind_ok _ _ _ _ _ Hc).
  destruct Hmiss as [Hcat|[[cs Hcat] Haud]].
  - destruct (trim_in_place_no_categories _ _ _ _ Hl) as [msg Ht].
    { by apply json_props_get_None. }
    by exists msg, (h ++ hn).
  - destruct (trim_in_place_no_audits _ _ _ _ (json_props to_json cs) Hl Hlen)
      as (msg & hf & Ht).
    { by eapply json_props_get. }
    { by apply json_props_get_None. }
    by exists msg, hf.
Qed.

(** ** The markup of the psi flavor *)



(** ** The properties above on the sample inputs *)


(** X2, witness: an audit run that throws. *)
Lemma main_writes_no_report_on_throw :
  exists e w',
    main failing_env sample_lhr sample_world = (Throw e, w') /\
    w_console w' = w_console sample_world /\
    (forall p, p <> TMP failing_env +:+ "/artifacts.json" ->
       prop_get p (fs_files (w_fs w')) =
       prop_get p (fs_files (w_fs sample_world))).
Proof.
  apply (main_writes_no_report_when_audit_fails failing_env sample_lhr
           sample_world).
  intros url flags w0. eexists _, _. split; [reflexivity|]. by split.
Defined.

(** X3, witness: an audit reference taken for the Result. *)
Lemma main_needs_categories_on_sample :
  exists msg w',
    main sample_env (VRef 0) sample_world = (Throw (TypeError msg), w') /\
    same_outside sample_world w' /\
    (forall l o, w_heap sample_world !! l = Some o -> w_heap w' !! l = Some o).
Proof.
  apply (main_needs_categories sample_env (VRef 0) sample_world).
  intros lc. vm_compute. discriminate.
Defined.

(** X4, witness: the sample Result, whose categories are performance and
    accessibility. *)
Lemma addPluginCategory_key_order_on_sample :
  exists h' h'',
    addPluginCategory sample_lhr sample_store = (Ok tt, h') /\
    own_keys h' (VRef 8) =
      ["performance"; "accessibility"; "lighthouse-plugin-someplugin"] /\
    addPluginCategory sample_lhr h' = (Ok tt, h'') /\
    own_keys h'' (VRef 8) = own_keys h' (VRef 8).
Proof.
  destruct (addPluginCategory_key_order sample_store 13 8)
    as (h' & h'' & Hrun & Hkeys & Hrun2 & Hkeys2).
  - vm_compute. lia.
  - vm_compute. lia.
  - reflexivity.
  - exists h', h''. split; [exact Hrun|]. split; [|split; [exact Hrun2|exact Hkeys2]].
    rewrite Hkeys. vm_compute. reflexivity.
Defined.

(** X5, witness: a failed screenshot before a good one. *)
Lemma getFinalScreenshot_first_match_on_sample :
  let other := Psi.mkAuditRef "first-contentful-paint" None in
  let failed :=
    Psi.mkAuditRef "final-screenshot"
      (Some (Psi.mkAuditResult "error" None)) in
  let good :=
    Psi.mkAuditRef "final-screenshot"
      (Some (Psi.mkAuditResult "informative"
               (Some (Psi.mkDetails "screenshot" (Some "data:image/jpeg;base64,AAAA"))))) in
  Psi._getFinalScreenshot (Psi.mkCategory ([other] ++ failed :: [good])) =
  Psi._getFinalScreenshot (Psi.mkCategory [failed]).
Proof.
  intros other failed good.
  apply (getFinalScreenshot_first_match [other] failed [good]).
  - repeat constructor. simpl. discriminate.
  - reflexivity.
Defined.

(** X6, witness: a whole run on the sample world. *)
Lemma main_complete_run_on_sample :
  (forall p, p ∈ report_paths sample_env filenames ->
     is_Some (prop_get p (fs_files (w_fs sample_built))) /\
     path_dirname p ∈ fs_dirs (w_fs sample_built)) /\
  (forall p, String.prefix (TMP sample_env) p = true ->
     (p ∉ fs_dirs (w_fs sample_built)) /\
     prop_get p (fs_files (w_fs sample_built)) = None).
Proof.
  apply (main_complete_run sample_env sample_lhr sample_world sample_built).
  vm_compute. reflexivity.
Defined.



(** X9, witness: the sample Result. *)
Lemma tweakLhrForPsi_keeps_the_rest_on_sample :
  exists clone h',
    tweakLhrForPsi sample_lhr sample_store = (Ok clone, h') /\
    own_keys h' clone = ["lighthouseVersion"; "categories"; "audits"] /\
    repr h' (field h' clone "lighthouseVersion") (JStr "7.0.0") /\
    own_keys h' (field h' clone "audits") =
      ["first-contentful-paint"; "timing-budget"].
Proof.
  destruct (tweakLhrForPsi_keeps_the_rest sample_store sample_lhr sample_tree
              sample_repr sample_has_performance)
    as (j & clone & h' & Hj & Hrun & Hkeys & Hrest & Haud & _).
  injection Hj as <-.
  exists clone, h'. split; [exact Hrun|]. split; [exact Hkeys|].
  split; [exact (Hrest "lighthouseVersion" ltac:(discriminate) ltac:(discriminate))|].
  rewrite Haud. vm_compute. reflexivity.
Defined.

(** X10, witness: a Result whose categories are the Result itself. *)
Lemma tweakLhrForPsi_rejects_cyclic_sample :
  exists msg,
    tweakLhrForPsi (VRef 0) cyclic_store = (Throw (TypeError msg), cyclic_store).
Proof.
  apply (tweakLhrForPsi_rejects_cycles cyclic_store (VRef 0) 0).
  - constructor.
  - eexists _, (VRef 0). split; [reflexivity|]. split; [|constructor].
    vm_compute. by left.
Defined.


Lemma sample_error_audits : error_audits (w_heap sample_audited) (VRef 29) 24 25 26.
Proof.
  unfold error_audits.
  split; [vm_compute; eexists; reflexivity|].
  split; [vm_compute; eexists; reflexivity|].
  split; [vm_compute; eexists; reflexivity|].
  split; [vm_compute; reflexivity|].
  split; [vm_compute; reflexivity|].
  split; [vm_compute; reflexivity|].
  split; [vm_compute; lia|].
  split; [vm_compute; lia|].
  split; [vm_compute; lia|].
  split; lia.
Qed.

(** X12, witness: an audit run that returns the three audits as errors;
    the object that holds them is not edited. *)
Lemma generateErrorLHR_edits_nothing_else_on_sample :
  exists w2 audits,
    generateErrorLHR sample_env sample_world = (Ok (VRef 28), w2) /\
    w_heap sample_audited !! 27 = Some audits /\
    w_heap w2 !! 27 = Some audits /\
    w_console w2 = [].
Proof.
  destruct (generateErrorLHR_edits_nothing_else sample_env sample_world
              sample_prepared (VStr "http://fakeurl.com") (VRef 23) (VRef 29)
              sample_audited 24 25 26)
    as (w2 & Hrun & Hframe & _ & _ & Hc & _).
  - vm_compute. reflexivity.
  - vm_compute. reflexivity.
  - exact sample_error_audits.
  - exists w2. eexists. split; [exact Hrun|].
    split; [vm_compute; reflexivity|].
    split; [|exact Hc].
    apply Hframe; [lia..|]. vm_compute. reflexivity.
Defined.

(** X13, witness: an audit run whose Result has no [apple-touch-icon]
    audit. *)
Lemma generateErrorLHR_needs_apple_touch_icon :
  exists msg w2,
    generateErrorLHR short_env sample_world = (Throw (TypeError msg), w2) /\
    same_outside short_audited w2.
Proof.
  apply (generateErrorLHR_needs_the_three_audits short_env sample_world
           sample_prepared (VStr "http://fakeurl.com") (VRef 23) (VRef 28)
           short_audited).
  - vm_compute. reflexivity.
  - vm_compute. reflexivity.
  - vm_compute. eexists. reflexivity.
  - vm_compute. eexists. reflexivity.
  - vm_compute. eexists. reflexivity.
  - unfold edited_audits. rewrite !Forall_cons.
    split; [|split; [|split; [|by apply Forall_nil]]];
      intros l; vm_compute; intros [= <-]; lia.
  - unfold edited_audits. apply Exists_cons_tl, Exists_cons_tl, Exists_cons_hd.
    intros l. vm_compute. discriminate.
Defined.

(** X14, witness: the sample Result. *)
Lemma tweakLhrForPsi_round_trips_on_sample :
  exists clone h' result copy h'',
    tweakLhrForPsi sample_lhr sample_store = (Ok clone, h') /\
    repr h' clone result /\
    JSON_stringify clone h' = (Ok (Some result), h') /\
    JSON_clone clone h' = (Ok copy, h'') /\
    repr h'' copy result.
Proof.
  exact (tweakLhrForPsi_result_round_trips sample_store sample_lhr sample_tree
           sample_repr sample_has_performance).
Defined.

(** X15, witness: an audit reference taken for the Result; it has no
    categories. *)
Lemma tweakLhrForPsi_needs_categories_on_sample :
  exists msg h',
    tweakLhrForPsi (VRef 0) sample_store = (Throw (TypeError msg), h').
Proof.
  apply (tweakLhrForPsi_needs_categories_and_audits sample_store (VRef 0)
           [("id", JStr "first-contentful-paint"); ("weight", JNum 15%float)]).
  - repeat econstructor.
  - left. reflexivity.
Defined.

